(** * The parallel test supervisor of [dev_scripts/update_to_aas_core_meta_codegen.py]

    A shallow embedding of [_run_in_parallel] and of the launchers that
    [_run_tests_and_rerecord] builds for it, together with the properties of
    the supervisor that the specification states.

    The supervisor talks to the operating system only through
    [subprocess.Popen] objects, [time.time] and [time.sleep].  These are
    modelled as follows.

    - A logical clock [now : nat] counts the supervisor's interactions with
      its children: every launcher call, every [time.sleep], every [poll] and
      every [terminate] takes one tick.  A child may therefore exit between any
      two actions of the supervisor.
    - A child process is a function from the logical clock and the number of
      SIGTERM signals delivered to it so far to its exit status, if it has
      exited by then.
    - [time.time()] is an oracle [wall], indexed by the number of readings
      taken so far; the float readings are abstracted by rationals, and no
      theorem depends on the readings being monotone.
    - The [while] loop runs on fuel, one unit per iteration.  When the fuel
      is used up the model stops where the loop stands and hands back the
      trace so far, so that what is proved of every trace also holds of every
      run that never ends. *)

From Stdlib Require Import String List ZArith QArith Bool Arith Lia Sorted.
From Stdlib Require Import Ascii.
Import ListNotations.

Local Open Scope nat_scope.

(** ** [subprocess.Popen] *)

Module Subprocess.

(** The operating system's side of a spawned process: [c now sigterms] is
    [Some code] when the process has exited by tick [now], having received
    [sigterms] termination signals. *)
Definition Child := nat -> nat -> option Z.

Record Popen := mkPopen {
  child : Child;          (* the process behind the handle *)
  returncode : option Z;  (* [Popen.returncode]: [None] until an exit is observed *)
  sigterms : nat          (* SIGTERM signals sent through this handle *)
}.

(** [Popen(...)] that succeeded: a fresh handle. *)
Definition spawn (c : Child) : Popen := mkPopen c None 0.

(** [Popen.poll()]: once set, [returncode] is kept; otherwise the child is
    asked, without blocking. *)
Definition poll (now : nat) (p : Popen) : Popen :=
  match returncode p with
  | Some _ => p
  | None => mkPopen (child p) (child p now (sigterms p)) (sigterms p)
  end.

(** [Popen.terminate()], that is [send_signal(SIGTERM)]: polls first (as
    CPython does since 3.9), does nothing when the process is known to have
    exited, and signals it otherwise.  It does not wait. *)
Definition terminate (now : nat) (p : Popen) : Popen :=
  let p' := poll now p in
  match returncode p' with
  | Some _ => p'
  | None => mkPopen (child p') None (S (sigterms p'))
  end.

(** Where a stream of the child is connected to. *)
Inductive stream_target := Inherit | PIPE | DEVNULL.

(** What of the text a child writes to a stream shows up on the parent's
    own terminal. *)
Definition reaches_terminal (target : stream_target) (written : list string)
  : list string :=
  match target with
  | Inherit => written
  | PIPE | DEVNULL => []
  end.

(** The keyword arguments of [subprocess.Popen] that the launchers set. *)
Record popen_kwargs := mkKwargs {
  args : list string;
  cwd : string;
  stdout : stream_target;
  stderr : stream_target;
  encoding : string;
  env : list (string * string)
}.

End Subprocess.
Import Subprocess.

(** ** The supervisor *)

(** What a launcher [Callable[[], subprocess.Popen]] does when called. *)
Inductive call_result :=
| Spawned (proc : Popen)
| OSError.

Definition Callable := unit -> call_result.

(** The supervisor's actions, in the order in which they happen. *)
Inductive event :=
| EvCall (i : nat)                 (* [calls[i]()] *)
| EvStatusUpdate (remaining : nat) (* [on_status_update(remaining_procs)] *)
| EvSleep                          (* [time.sleep(1)] *)
| EvPoll (i : nat)                 (* [procs[i].poll()] *)
| EvStderr (msg : string)          (* [print(msg, file=sys.stderr)] *)
| EvTerminate (i : nat)            (* [procs[i].terminate()] *)
| EvKill (i : nat)                 (* [procs[i].kill()] *)
| EvWait (i : nat).                (* [procs[i].wait()] *)

(** Where the [while] loop stands when the fuel is used up. *)
Inductive progress :=
| Done (code : option Z)  (* the loop has ended, with the value to return *)
| Iterating.              (* the loop is still running *)

(** How a call of [_run_in_parallel] ends, if it has ended. *)
Inductive outcome :=
| Return (code : option Z)
| Raise
| StillRunning.

Definition msg_failed : string :=
  "One or more processes failed. Terminating all the processes...".
Definition msg_terminated : string := "Terminated all the processes.".

Definition is_running (proc : Popen) : bool :=
  match returncode proc with None => true | Some _ => false end.

(** [sum(1 for proc in procs if proc.returncode is None)] *)
Definition count_running (procs : list Popen) : nat :=
  List.length (filter is_running procs).

Definition Qlt_bool (x y : Q) : bool := negb (Qle_bool y x).

(** [for call in calls: proc = call(); procs.append(proc)]; the boolean tells
    whether every call returned. *)
Fixpoint launch_all (calls : list Callable) (procs : list Popen) (i now : nat)
  : bool * list Popen * nat * list event :=
  match calls with
  | [] => (true, procs, now, [])
  | call :: calls' =>
      match call tt with
      | OSError => (false, procs, S now, [EvCall i])
      | Spawned proc =>
          let '(ok, procs', now', evs) :=
            launch_all calls' (procs ++ [proc]) (S i) (S now) in
          (ok, procs', now', EvCall i :: evs)
      end
  end.

(** The checking sweep:
    [for proc in procs: proc.poll(); if proc.returncode is not None:
       if proc.returncode != 0: failure = True] *)
Fixpoint poll_and_check (procs : list Popen) (failure : bool) (i now : nat)
  : list Popen * bool * nat * list event :=
  match procs with
  | [] => ([], failure, now, [])
  | proc :: procs' =>
      let proc1 := poll now proc in
      let failure1 :=
        match returncode proc1 with
        | Some code => if (code =? 0)%Z then failure else true
        | None => failure
        end in
      let '(rest, failure2, now', evs) :=
        poll_and_check procs' failure1 (S i) (S now) in
      (proc1 :: rest, failure2, now', EvPoll i :: evs)
  end.

(** [for proc in procs: proc.terminate()] *)
Fixpoint terminate_all (procs : list Popen) (i now : nat)
  : list Popen * nat * list event :=
  match procs with
  | [] => ([], now, [])
  | proc :: procs' =>
      let '(rest, now', evs) := terminate_all procs' (S i) (S now) in
      (terminate now proc :: rest, now', EvTerminate i :: evs)
  end.

(** The second sweep: [for proc in procs: proc.poll()] *)
Fixpoint poll_all (procs : list Popen) (i now : nat)
  : list Popen * nat * list event :=
  match procs with
  | [] => ([], now, [])
  | proc :: procs' =>
      let '(rest, now', evs) := poll_all procs' (S i) (S now) in
      (poll now proc :: rest, now', EvPoll i :: evs)
  end.

(** The [finally] block:
    [for proc in procs: if proc.returncode is None: proc.terminate()] *)
Fixpoint terminate_running (procs : list Popen) (i now : nat)
  : list Popen * nat * list event :=
  match procs with
  | [] => ([], now, [])
  | proc :: procs' =>
      match returncode proc with
      | None =>
          let '(rest, now', evs) := terminate_running procs' (S i) (S now) in
          (terminate now proc :: rest, now', EvTerminate i :: evs)
      | Some _ =>
          let '(rest, now', evs) := terminate_running procs' (S i) now in
          (proc :: rest, now', evs)
      end
  end.

Section Supervisor.

(** The readings of [time.time()], in the order in which they are taken. *)
Variable wall : nat -> Q.

(** The [while remaining_procs > 0] loop.  [reads] counts the readings of
    the clock taken so far. *)
Fixpoint supervise (fuel : nat) (procs : list Popen) (failure : bool)
    (remaining_procs : nat) (next_print : Q) (now reads : nat)
  : progress * list Popen * nat * list event :=
  if remaining_procs =? 0 then (Done None, procs, now, [])
  else
    match fuel with
    | O => (Iterating, procs, now, [])
    | S fuel' =>
        let '(next_print1, reads1, ev_report) :=
          if Qlt_bool next_print (wall reads)
          then ((wall (S reads) + 15)%Q, S (S reads),
                [EvStatusUpdate remaining_procs])
          else (next_print, S reads, []) in
        let now1 := S now in
        let '(procs1, failure1, now2, ev_check) :=
          poll_and_check procs failure 0 now1 in
        if failure1 then
          let '(procs2, now3, ev_term) := terminate_all procs1 0 now2 in
          (Done (Some 1%Z), procs2, now3,
           ev_report ++ EvSleep :: ev_check
             ++ EvStderr msg_failed :: ev_term
             ++ [EvStderr msg_terminated])
        else
          let '(procs2, now3, ev_poll) := poll_all procs1 0 now2 in
          let '(exit, procs3, now4, evs) :=
            supervise fuel' procs2 failure1 (count_running procs2)
              next_print1 now3 reads1 in
          (exit, procs3, now4,
           ev_report ++ EvSleep :: ev_check ++ ev_poll ++ evs)
    end.

(** [_run_in_parallel(calls, on_status_update)]: the outcome, the handles as
    they are left behind, and the trace of the supervisor's actions.  The
    [finally] block runs when the [try] block is left, by [return] or by the
    exception of a launcher. *)
Definition _run_in_parallel (fuel : nat) (calls : list Callable)
  : outcome * list Popen * list event :=
  let '(ok, procs, now, ev_launch) := launch_all calls [] 0 0 in
  if ok then
    match supervise fuel procs false (count_running procs)
            (wall 0 + 15)%Q now 1 with
    | (Iterating, procs1, _, ev_loop) =>
        (StillRunning, procs1, ev_launch ++ ev_loop)
    | (Done code, procs1, now1, ev_loop) =>
        let '(procs2, _, ev_finally) := terminate_running procs1 0 now1 in
        (Return code, procs2, ev_launch ++ ev_loop ++ ev_finally)
    end
  else
    let '(procs1, _, ev_finally) := terminate_running procs 0 now in
    (Raise, procs1, ev_launch ++ ev_finally).

End Supervisor.

(** The value of the variable [failure] where the loop is left, or where it
    stands when the fuel is used up.  It is [False] before the loop, only the
    checking sweep sets it, and it is tested right after that sweep. *)
Fixpoint failure_flag (fuel : nat) (procs : list Popen) (failure : bool)
    (remaining_procs now : nat) : bool :=
  if remaining_procs =? 0 then failure
  else
    match fuel with
    | O => failure
    | S fuel' =>
        let now1 := S now in
        let '(procs1, failure1, now2, _) :=
          poll_and_check procs failure 0 now1 in
        if failure1 then failure1
        else
          let '(procs2, now3, _) := poll_all procs1 0 now2 in
          failure_flag fuel' procs2 failure1 (count_running procs2) now3
    end.

(** Whether [failure] was set in a call of [_run_in_parallel] followed for
    [fuel] iterations.  When a launcher raises, the variable does not come
    into being. *)
Definition failure_was_set (fuel : nat) (calls : list Callable) : bool :=
  let '(ok, procs, now, _) := launch_all calls [] 0 0 in
  if ok then failure_flag fuel procs false (count_running procs) now
  else false.

(** ** The launchers of [_run_tests_and_rerecord] *)

Definition AAS_RECORD_MODE : string := "AAS_CORE3_1_PYTHON_TESTS_RECORD_MODE".

Fixpoint env_get (key : string) (env : list (string * string)) : option string :=
  match env with
  | [] => None
  | (k, v) :: env' => if String.eqb k key then Some v else env_get key env'
  end.

(** [env[key] = value] on a dictionary kept in insertion order. *)
Fixpoint env_set (key value : string) (env : list (string * string))
  : list (string * string) :=
  match env with
  | [] => [(key, value)]
  | (k, v) :: env' =>
      if String.eqb k key then (k, value) :: env'
      else (k, v) :: env_set key value env'
  end.

(** The environment handed to every test module. *)
Definition test_env (os_environ : list (string * string)) (pathsep our_repo : string)
  : list (string * string) :=
  let env := env_set AAS_RECORD_MODE "true" os_environ in
  let python_path :=
    match env_get "PYTHONPATH" env with
    | None => our_repo
    | Some python_path => (python_path ++ pathsep ++ our_repo)%string
    end in
  env_set "PYTHONPATH" python_path env.

(** The keyword arguments of the [subprocess.Popen] call in the launcher of
    one test module. *)
Definition test_popen_kwargs (sys_executable our_repo : string)
    (env : list (string * string)) (a_pth : string) : popen_kwargs :=
  mkKwargs [sys_executable; a_pth] our_repo DEVNULL DEVNULL "utf-8" env.

(** [calls = [lambda a_pth=pth, cwd=our_repo: subprocess.Popen(...) for pth in
    test_files]], over the system's [Popen]. *)
Definition test_calls (Popen_ : popen_kwargs -> call_result)
    (sys_executable our_repo : string) (env : list (string * string))
    (test_files : list string) : list Callable :=
  map (fun pth => fun _ : unit =>
         Popen_ (test_popen_kwargs sys_executable our_repo env pth))
      test_files.

(** ** What the sweeps compute *)

(** The handles after a sweep of [poll] calls that starts at tick [now]. *)
Fixpoint polled (now : nat) (procs : list Popen) : list Popen :=
  match procs with
  | [] => []
  | proc :: procs' => poll now proc :: polled (S now) procs'
  end.

(** The handles after a sweep of [terminate] calls that starts at tick [now]. *)
Fixpoint terminated (now : nat) (procs : list Popen) : list Popen :=
  match procs with
  | [] => []
  | proc :: procs' => terminate now proc :: terminated (S now) procs'
  end.

(** The handles after the [finally] block. *)
Fixpoint cleaned (now : nat) (procs : list Popen) : list Popen :=
  match procs with
  | [] => []
  | proc :: procs' =>
      match returncode proc with
      | None => terminate now proc :: cleaned (S now) procs'
      | Some _ => proc :: cleaned now procs'
      end
  end.

(** The indices, counted from [i], of the handles with no exit status. *)
Fixpoint running_indices (i : nat) (procs : list Popen) : list nat :=
  match procs with
  | [] => []
  | proc :: procs' =>
      if is_running proc then i :: running_indices (S i) procs'
      else running_indices (S i) procs'
  end.

(** A handle whose observed exit status is not zero. *)
Definition has_failed (proc : Popen) : bool :=
  match returncode proc with
  | Some code => negb (code =? 0)%Z
  | None => false
  end.

Definition count_failed (procs : list Popen) : nat :=
  List.length (filter has_failed procs).

(** ** Reading a trace *)

Definition is_terminate (i : nat) (e : event) : bool :=
  match e with EvTerminate j => j =? i | _ => false end.

(** How often [terminate] was called on the [i]-th handle. *)
Definition terminate_calls (i : nat) (tr : list event) : nat :=
  List.length (filter (is_terminate i) tr).

(** The counts handed to [on_status_update], in order. *)
Fixpoint status_updates (tr : list event) : list nat :=
  match tr with
  | [] => []
  | EvStatusUpdate remaining :: tr' => remaining :: status_updates tr'
  | _ :: tr' => status_updates tr'
  end.

(** The events of the polling loop proper. *)
Definition is_loop_event (e : event) : bool :=
  match e with
  | EvStatusUpdate _ | EvSleep | EvPoll _ => true
  | _ => false
  end.

(** The events that insist on, or wait for, the end of a child. *)
Definition is_kill_or_wait (e : event) : bool :=
  match e with
  | EvKill _ | EvWait _ => true
  | _ => false
  end.

(** What the supervisor itself writes or reports. *)
Definition supervisor_event (e : event) : Prop :=
  match e with
  | EvKill _ | EvWait _ => False
  | EvStderr msg => msg = msg_failed \/ msg = msg_terminated
  | _ => True
  end.

(** ** Kinds of children *)

(** A child that has exited, whatever was sent to it, from tick [T] on. *)
Definition exits_by (T : nat) (c : Child) : Prop :=
  forall now s, T <= now -> c now s <> None.

(** A child that never exits with status zero. *)
Definition never_succeeds (c : Child) : Prop :=
  forall now s, c now s <> Some 0%Z.

(** A child that keeps running for as long as no signal is sent to it. *)
Definition runs_until_cancelled (c : Child) : Prop :=
  forall now, c now 0 = None.

(** Every launcher returns the handle at the same place of [procs]. *)
Definition spawns (calls : list Callable) (procs : list Popen) : Prop :=
  Forall2 (fun (call : Callable) proc => call tt = Spawned proc) calls procs.

(** The handles of a batch in which the task at [j] never succeeds and has
    exited by tick [T], while every other task runs until it is cancelled and
    has neither exited nor been signalled so far. *)
Definition one_failing (T j : nat) (procs : list Popen) : Prop :=
  (exists pj, nth_error procs j = Some pj
              /\ never_succeeds (child pj) /\ exits_by T (child pj)
              /\ (returncode pj = None \/ has_failed pj = true))
  /\ forall i p, i <> j -> nth_error procs i = Some p ->
       returncode p = None /\ sigterms p = 0 /\ runs_until_cancelled (child p).

(** What [on_status_update] is given at the head of an iteration, if the
    report is due. *)
Definition report_events (due : bool) (remaining : nat) : list event :=
  if due then [EvStatusUpdate remaining] else [].

(** What a call of [_run_in_parallel] makes of a loop that stands at [exit]:
    the [finally] block runs once the loop has ended. *)
Definition outcome_of (exit : progress) : outcome :=
  match exit with Done code => Return code | Iterating => StillRunning end.

Definition finally_procs (exit : progress) (now : nat) (procs : list Popen)
  : list Popen :=
  match exit with Done _ => cleaned now procs | Iterating => procs end.

Definition finally_events (exit : progress) (procs : list Popen) : list event :=
  match exit with
  | Done _ => map EvTerminate (running_indices 0 procs)
  | Iterating => []
  end.

(** ** Some children, launchers and clocks *)

(** A child that exits with [code] at tick [T]. *)
Definition exits_at (T : nat) (code : Z) : Child :=
  fun now _ => if now <? T then None else Some code.

(** A child that never exits, whatever is sent to it. *)
Definition runs_forever : Child := fun _ _ => None.

(** A child that runs until the first SIGTERM and then dies of it. *)
Definition until_sigterm : Child :=
  fun _ sigterms => if sigterms =? 0 then None else Some (-15)%Z.

Definition launcher (c : Child) : Callable := fun _ => Spawned (spawn c).

(** A launcher whose command does not exist. *)
Definition failing_launcher : Callable := fun _ => OSError.

(** A clock that advances by one second per reading. *)
Definition steady_clock : nat -> Q := fun k => inject_Z (Z.of_nat k).

(** A clock that advances by twenty seconds per reading. *)
Definition coarse_clock : nat -> Q := fun k => inject_Z (Z.of_nat (20 * k)).

(** ** More ways to read a run *)

(** A child that, when it exits, exits with status zero. *)
Definition never_fails (c : Child) : Prop :=
  forall now s, c now s = None \/ c now s = Some 0%Z.

(** A handle that can still only succeed. *)
Definition can_only_succeed (p : Popen) : Prop :=
  has_failed p = false /\ never_fails (child p).

(** The events of cancelling: a [terminate] call or one of the two messages
    around the sweep of [terminate] calls. *)
Definition is_cancelling (e : event) : bool :=
  match e with
  | EvTerminate _ | EvStderr _ => true
  | _ => false
  end.

Definition is_call (e : event) : bool :=
  match e with EvCall _ => true | _ => false end.

Definition is_terminate_event (e : event) : bool :=
  match e with EvTerminate _ => true | _ => false end.

(** How a handle may change while it is supervised: it stays a handle on the
    same child, signals are only ever added, and once its exit status is
    known nothing about it changes any more. *)
Definition evolves (p p' : Popen) : Prop :=
  child p' = child p
  /\ sigterms p <= sigterms p'
  /\ forall code, returncode p = Some code -> p' = p.

(** ** Texts

    A Python [str] is modelled as a Rocq [string], one character per code
    point below 256. *)

Definition newline : ascii := ascii_of_nat 10.
Definition nl : string := String newline EmptyString.

(** [str.isspace] of one character: the white space of Unicode below 256. *)
Definition isspace (c : ascii) : bool :=
  let n := nat_of_ascii c in
  ((9 <=? n) && (n <=? 13)) || ((28 <=? n) && (n <=? 31))
  || (n =? 32) || (n =? 133) || (n =? 160).

(** The line boundaries of [str.splitlines] below 256. *)
Definition is_linebreak (c : ascii) : bool :=
  let n := nat_of_ascii c in
  ((10 <=? n) && (n <=? 13)) || ((28 <=? n) && (n <=? 30)) || (n =? 133).

(** [[a-zA-Z0-9]] *)
Definition alnum (c : ascii) : bool :=
  let n := nat_of_ascii c in
  ((48 <=? n) && (n <=? 57)) || ((65 <=? n) && (n <=? 90))
  || ((97 <=? n) && (n <=? 122)).

Fixpoint lstrip (s : string) : string :=
  match s with
  | EmptyString => EmptyString
  | String c s' => if isspace c then lstrip s' else s
  end.

Fixpoint rstrip (s : string) : string :=
  match s with
  | EmptyString => EmptyString
  | String c s' =>
      match rstrip s' with
      | EmptyString => if isspace c then EmptyString else String c EmptyString
      | r => String c r
      end
  end.

(** [str.strip()] *)
Definition strip (s : string) : string := rstrip (lstrip s).

Fixpoint string_rev_onto (acc s : string) : string :=
  match s with
  | EmptyString => acc
  | String c s' => string_rev_onto (String c acc) s'
  end.

(** [str.splitlines()]: [line] is the current line, last character first;
    [after_cr] tells that the character before was a carriage return, whose
    line feed belongs to the same boundary. *)
Fixpoint splitlines_from (line : string) (after_cr : bool) (s : string)
  : list string :=
  match s with
  | EmptyString =>
      match line with
      | EmptyString => []
      | _ => [string_rev_onto EmptyString line]
      end
  | String c s' =>
      if after_cr && Ascii.eqb c newline then splitlines_from EmptyString false s'
      else if is_linebreak c
           then string_rev_onto EmptyString line
                  :: splitlines_from EmptyString (Ascii.eqb c (ascii_of_nat 13)) s'
           else splitlines_from (String c line) false s'
  end.

Definition splitlines (s : string) : list string :=
  splitlines_from EmptyString false s.

(** A text of white space only. *)
Fixpoint blank (s : string) : bool :=
  match s with
  | EmptyString => true
  | String c s' => isspace c && blank s'
  end.

(** Every character of the text is in the class. *)
Fixpoint all_chars (p : ascii -> bool) (s : string) : bool :=
  match s with
  | EmptyString => true
  | String c s' => p c && all_chars p s'
  end.

(** [s[:k]] and [s[k:]] *)
Fixpoint take (k : nat) (s : string) : string :=
  match k, s with
  | S k', String c s' => String c (take k' s')
  | _, _ => EmptyString
  end.

Fixpoint drop (k : nat) (s : string) : string :=
  match k, s with
  | S k', String _ s' => drop k' s'
  | _, _ => s
  end.

(** [sep.join(parts)] *)
Fixpoint join (sep : string) (parts : list string) : string :=
  match parts with
  | [] => EmptyString
  | [part] => part
  | part :: parts' => (part ++ sep ++ join sep parts')%string
  end.

(** ** Regular expressions

    The two patterns of the script are sequences of literal characters, of
    [.] and of greedy repetitions of one character class, one of which is
    group 1.  [re.search] looks for the leftmost match and, at a repetition,
    tries the longest run first and gives characters back one at a time. *)

Inductive item :=
| Lit (c : ascii)
| AnyChar
| Many (capture : bool) (least : nat) (class : ascii -> bool).

Definition lits (s : string) : list item := map Lit (list_ascii_of_string s).

Definition not_newline (c : ascii) : bool := negb (Ascii.eqb c newline).

(** The length of the longest prefix in the class. *)
Fixpoint span (class : ascii -> bool) (s : string) : nat :=
  match s with
  | String c s' => if class c then S (span class s') else 0
  | EmptyString => 0
  end.

(** A repetition that takes [k] characters, or fewer if the rest of the
    pattern does not match after [k]. *)
Fixpoint backtrack (rest : string -> option string) (capture : bool)
    (least : nat) (s : string) (k : nat) : option string :=
  if k <? least then None
  else
    match rest (drop k s) with
    | Some group => Some (if capture then take k s else group)
    | None =>
        match k with
        | O => None
        | S k' => backtrack rest capture least s k'
        end
    end.

(** A match of the whole pattern at the start of [s]: group 1 of it. *)
Fixpoint match_here (pattern : list item) (s : string) : option string :=
  match pattern with
  | [] => Some EmptyString
  | Lit c :: pattern' =>
      match s with
      | String a s' => if Ascii.eqb a c then match_here pattern' s' else None
      | EmptyString => None
      end
  | AnyChar :: pattern' =>
      match s with
      | String a s' => if not_newline a then match_here pattern' s' else None
      | EmptyString => None
      end
  | Many capture least class :: pattern' =>
      backtrack (match_here pattern') capture least s (span class s)
  end.

(** [pattern.search(s)], then [.group(1)]. *)
Fixpoint search (pattern : list item) (s : string) : option string :=
  match match_here pattern s with
  | Some group => Some group
  | None =>
      match s with
      | EmptyString => None
      | String _ s' => search pattern s'
      end
  end.

Definition _AAS_CORE_CODEGEN_SHA_RE : list item :=
  lits "aas-core-codegen@git+https://github" ++ [AnyChar]
    ++ lits "com/aas-core-works/aas-core-codegen@" ++ [Many true 1 alnum].

Definition _AAS_CORE_META_SHA_RE : list item :=
  lits "https://raw" ++ [AnyChar] ++ lits "githubusercontent" ++ [AnyChar]
    ++ lits "com/aas-core-works/aas-core-meta/" ++ [Many true 1 alnum]
    ++ lits "/aas_core_meta/v" ++ [Many false 0 not_newline; AnyChar]
    ++ lits "py".

(** ** The host of the script

    What the script asks of its platform and of the standard library, and
    what they answer. *)

(** A process run to its end, or one that could not be started. *)
Inductive completed :=
| Exited (code : Z) (output : string)
| NotStarted.

(** What reading a text file line by line yields: a line, or an [OSError]
    in its place (on opening the file or further on).  The file is taken to
    be text in the encoding of the platform. *)
Inductive read_item :=
| Line (text : string)
| ReadError (os_error : string).

Record Host := mkHost {
  executable : string;                      (* [sys.executable] *)
  pathsep : string;                         (* [os.pathsep] *)
  environ : list (string * string);         (* [os.environ] *)
  joinpath : string -> string -> string;    (* [path / name], as text *)
  repr : string -> string;                  (* [repr] of a [str] *)
  format_2f : Q -> string;                  (* a float formatted with [:.2f] *)
  str_of_nat : nat -> string;               (* [str] of an [int] *)
  run_process : list string -> string -> completed;
                                            (* a command run in a directory *)
  open_lines : string -> list read_item;    (* the lines of a text file *)
  write_text : string -> string -> bool;    (* whether [write_text] succeeds *)
  perf_counter : nat -> Q;                  (* the readings of [time.perf_counter] *)
  temporary_directory : string;             (* [tempfile.TemporaryDirectory()] *)
  sorted_glob : string -> string -> list string;
                                            (* [sorted(directory.glob(pattern))] *)
  popen : popen_kwargs -> call_result;      (* [subprocess.Popen(...)] *)
  time_time : nat -> Q                      (* the readings of [time.time] *)
}.

(** What the script does to the world, in order. *)
Inductive effect :=
| Print (text : string)                     (* [print(text)] *)
| PrintErr (text : string)                  (* [print(text, file=sys.stderr)] *)
| Subprocess (argv : list string) (cwd : string)
| WriteText (path text : string)
| RemoveTree (path : string)
| Supervisor (e : event).                   (* an action of [_run_in_parallel] *)

(** How a function of the script ends: it returns, it raises, or (when the
    supervisor is still looping as the fuel runs out) it has not ended. *)
Inductive result (A : Type) :=
| Returns (a : A)
| Raises
| Hangs.
Arguments Returns {A} a.
Arguments Raises {A}.
Arguments Hangs {A}.

Definition M (A : Type) : Type := list effect * result A.

Definition ret {A} (a : A) : M A := ([], Returns a).

Definition bind {A B} (m : M A) (k : A -> M B) : M B :=
  match m with
  | (tr, Returns a) => let (tr', r) := k a in (tr ++ tr', r)
  | (tr, Raises) => (tr, Raises)
  | (tr, Hangs) => (tr, Hangs)
  end.

Notation "x <- m ;; k" := (bind m (fun x => k))
  (at level 61, m at next level, right associativity).
Notation "m ;;; k" := (bind m (fun _ => k))
  (at level 61, right associativity).

(** A [with] block: the clean-up runs however the body ends. *)
Definition with_cleanup {A} (cleanup : list effect) (body : M A) : M A :=
  match body with
  | (tr, Hangs) => (tr, Hangs)
  | (tr, r) => (tr ++ cleanup, r)
  end.

Definition print (text : string) : M unit := ([Print text], Returns tt).
Definition print_err (text : string) : M unit := ([PrintErr text], Returns tt).

(** [subprocess.check_call(argv, cwd=cwd)] *)
Definition check_call (h : Host) (argv : list string) (cwd : string) : M unit :=
  ([Subprocess argv cwd],
   match run_process h argv cwd with
   | Exited code _ => if (code =? 0)%Z then Returns tt else Raises
   | NotStarted => Raises
   end).

(** [subprocess.check_output(argv, cwd=cwd, encoding="utf-8")] *)
Definition check_output (h : Host) (argv : list string) (cwd : string) : M string :=
  ([Subprocess argv cwd],
   match run_process h argv cwd with
   | Exited code output => if (code =? 0)%Z then Returns output else Raises
   | NotStarted => Raises
   end).

(** [subprocess.run(argv, cwd=cwd, check=True).returncode] *)
Definition run_checked (h : Host) (argv : list string) (cwd : string) : M Z :=
  ([Subprocess argv cwd],
   match run_process h argv cwd with
   | Exited code _ => if (code =? 0)%Z then Returns code else Raises
   | NotStarted => Raises
   end).

(** [path.write_text(text, encoding="utf-8")] *)
Definition write (h : Host) (path text : string) : M unit :=
  ([WriteText path text], if write_text h path text then Returns tt else Raises).

(** [for line in file: matches = sha_re.search(line); ...; break], inside the
    [try]: group 1 of the first line that matches, or the [OSError] that came
    first. *)
Fixpoint scan_lines (sha_re : list item) (lines : list read_item)
  : option string * option string :=
  match lines with
  | [] => (None, None)
  | ReadError os_error :: _ => (None, Some os_error)
  | Line line :: lines' =>
      match search sha_re line with
      | None => scan_lines sha_re lines'
      | Some group => (Some group, None)
      end
  end.

Local Open Scope string_scope.

(** ** The functions of the script *)

Definition _make_sure_no_changed_files (h : Host) (repo_dir expected_branch : string)
  : M (option Z) :=
  output <- check_output h ["git"; "diff"; "--name-status"; expected_branch] repo_dir ;;
  let diff_name_status := strip output in
  if (0 <? List.length (splitlines diff_name_status))%nat then
    print_err
      ("The following files are modified compared to branch "
         ++ repr h expected_branch ++ " in " ++ repo_dir ++ ":" ++ nl
         ++ diff_name_status ++ nl
         ++ nl
         ++ "Please stash the changes first before you update to aas-core-meta.") ;;;
    ret (Some 1%Z)
  else ret None.

(** [reading] is the number of readings of [time.perf_counter] taken before
    the call. *)
Definition _regenerate_code (h : Host) (reading : nat) (our_repo : string)
  : M (option Z) :=
  let codegen_dir := joinpath h our_repo "dev_scripts/codegen" in
  let meta_model_path := joinpath h codegen_dir "meta_model.py" in
  let target_dir := our_repo in
  print "Starting to run codegen script" ;;;
  let start := perf_counter h reading in
  returncode <- run_checked h
    [executable h; "codegen.py"; "--meta_model"; meta_model_path;
     "--target"; target_dir]
    codegen_dir ;;
  if negb (returncode =? 0)%Z then ret (Some returncode)
  else
    let duration := (perf_counter h (S reading) - start)%Q in
    print ("Generating the code took: " ++ format_2f h duration ++ " seconds.") ;;;
    ret None.

Definition _reformat_code (h : Host) (our_repo : string) : M unit :=
  print "Re-formatting the code..." ;;;
  let precommit_script := joinpath h our_repo "continuous_integration/precommit.py" in
  check_call h
    [executable h; precommit_script; "--select"; "reformat"; "--overwrite"]
    our_repo.

(** What the observer and the messages of the supervisor do to the console;
    its other actions are effects of their own. *)
Definition effect_of_event (h : Host) (e : event) : effect :=
  match e with
  | EvStatusUpdate remaining =>
      Print ("There are " ++ str_of_nat h remaining
               ++ " test module(s) still running...")
  | EvStderr msg => PrintErr msg
  | _ => Supervisor e
  end.

(** What a run of the supervisor puts out: the progress notifications of the
    observer on the standard output and the two failure messages on the
    standard error; its other actions put out nothing. *)
Definition supervisor_output (h : Host) (e : effect) : Prop :=
  match e with
  | Print text =>
      exists remaining,
        text = "There are " ++ str_of_nat h remaining
                 ++ " test module(s) still running..."
  | PrintErr text => text = msg_failed \/ text = msg_terminated
  | Supervisor (EvCall _) | Supervisor EvSleep | Supervisor (EvPoll _)
  | Supervisor (EvTerminate _) => True
  | _ => False
  end.

Definition supervised (h : Host) (fuel : nat) (calls : list Callable) : M (option Z) :=
  let '(o, _, tr) := _run_in_parallel (time_time h) fuel calls in
  (map (effect_of_event h) tr,
   match o with
   | Return code => Returns code
   | Raise => Raises
   | StillRunning => Hangs
   end).

Definition _run_tests_and_rerecord (h : Host) (fuel reading : nat) (our_repo : string)
  : M (option Z) :=
  print "Running tests & re-recording the test traces..." ;;;
  let env := test_env (environ h) (pathsep h) our_repo in
  let test_files := sorted_glob h (joinpath h our_repo "tests") "**/test_*.py" in
  let calls := test_calls (popen h) (executable h) our_repo env test_files in
  let test_files_joined := join ("," ++ nl) test_files in
  print ("Starting to run test modules:" ++ nl ++ test_files_joined) ;;;
  let start := perf_counter h reading in
  exit_code <- supervised h fuel calls ;;
  match exit_code with
  | Some code => ret (Some code)
  | None =>
      let duration := (perf_counter h (S reading) - start)%Q in
      print ("Re-recording took: " ++ format_2f h duration ++ " seconds.") ;;;
      ret None
  end.

Definition branch_name (aas_core_meta_revision aas_core_codegen_revision : string)
  : string :=
  "Update-to-aas-core-meta-codegen-" ++ aas_core_meta_revision ++ "-"
    ++ aas_core_codegen_revision.

Definition commit_message (aas_core_meta_revision aas_core_codegen_revision : string)
  : string :=
  "Update to aas-core-meta, codegen " ++ aas_core_meta_revision ++ ", "
    ++ aas_core_codegen_revision ++ nl
    ++ nl
    ++ "We update the development requirements to and re-generate everything" ++ nl
    ++ "with:" ++ nl
    ++ "* [aas-core-meta " ++ aas_core_meta_revision ++ "] and" ++ nl
    ++ "* [aas-core-codegen " ++ aas_core_codegen_revision ++ "]." ++ nl
    ++ nl
    ++ "[aas-core-meta " ++ aas_core_meta_revision
    ++ "]: https://github.com/aas-core-works/aas-core-meta/commit/"
    ++ aas_core_meta_revision ++ nl
    ++ "[aas-core-codegen " ++ aas_core_codegen_revision
    ++ "]: https://github.com/aas-core-works/aas-core-codegen/commit/"
    ++ aas_core_codegen_revision ++ nl.

Definition _create_branch_commit_and_push (h : Host)
    (our_repo aas_core_meta_revision aas_core_codegen_revision : string) : M unit :=
  let branch := branch_name aas_core_meta_revision aas_core_codegen_revision in
  print ("Creating the branch " ++ repr h branch ++ "...") ;;;
  check_call h ["git"; "checkout"; "-b"; branch] our_repo ;;;
  print "Adding files..." ;;;
  check_call h ["git"; "add"; "."] our_repo ;;;
  let message := commit_message aas_core_meta_revision aas_core_codegen_revision in
  print "Committing..." ;;;
  (let tmp_dir := temporary_directory h in
   let tmp_file := joinpath h tmp_dir "commit-message.txt" in
   with_cleanup [RemoveTree tmp_dir]
     (write h tmp_file message ;;;
      check_call h ["git"; "commit"; "--file"; tmp_file] our_repo)) ;;;
  print ("Pushing to remote " ++ branch ++ "...") ;;;
  check_call h ["git"; "push"; "-u"] our_repo.

Definition _get_codegen_revision (h : Host) (our_repo : string) : M (option string) :=
  let pyproject_toml_path := joinpath h our_repo "dev_scripts/pyproject.toml" in
  let '(codegen_sha, os_error) :=
    scan_lines _AAS_CORE_CODEGEN_SHA_RE (open_lines h pyproject_toml_path) in
  match os_error with
  | Some os_error => print ("Cannot read codegen revision: " ++ os_error ++ ".")
  | None => ret tt
  end ;;;
  match codegen_sha with
  | None => print "Cannot read codegen revision."
  | Some _ => ret tt
  end ;;;
  ret codegen_sha.

Definition _get_meta_model_revision (h : Host) (our_repo : string)
  : M (option string) :=
  let meta_model_path := joinpath h our_repo "dev_scripts/codegen/meta_model.py" in
  let '(group, os_error) :=
    scan_lines _AAS_CORE_META_SHA_RE (open_lines h meta_model_path) in
  let meta_model_sha := option_map (take 8) group in
  match os_error with
  | Some os_error => print ("Cannot read meta model revision: " ++ os_error ++ ".")
  | None => ret tt
  end ;;;
  match meta_model_sha with
  | None => print "Cannot read meta model revision."
  | Some _ => ret tt
  end ;;;
  ret meta_model_sha.

(** [main()], for the repository [our_repo] of the script and the value of
    [--expected_our_branch]. *)
Definition main (h : Host) (fuel : nat) (our_repo expected_our_branch : string)
  : M Z :=
  output <- check_output h ["git"; "rev-parse"; "--abbrev-ref"; "HEAD"] our_repo ;;
  let our_branch := strip output in
  if negb (our_branch =? expected_our_branch) then
    print_err ("--expected_our_branch is " ++ expected_our_branch
                 ++ ", but got " ++ our_branch ++ " in: " ++ our_repo) ;;;
    ret 1%Z
  else
    exit_code <- _make_sure_no_changed_files h our_repo expected_our_branch ;;
    match exit_code with
    | Some code => ret code
    | None =>
        exit_code <- _regenerate_code h 0 our_repo ;;
        match exit_code with
        | Some code => ret code
        | None =>
            _reformat_code h our_repo ;;;
            exit_code <- _run_tests_and_rerecord h fuel 2 our_repo ;;
            match exit_code with
            | Some code => ret code
            | None =>
                aas_core_codegen_revision <- _get_codegen_revision h our_repo ;;
                match aas_core_codegen_revision with
                | None => ret 1%Z
                | Some aas_core_codegen_revision =>
                    aas_core_meta_revision <- _get_meta_model_revision h our_repo ;;
                    match aas_core_meta_revision with
                    | None => ret 1%Z
                    | Some aas_core_meta_revision =>
                        _create_branch_commit_and_push h our_repo
                          aas_core_meta_revision aas_core_codegen_revision ;;;
                        ret 0%Z
                    end
                end
            end
        end
    end.

Local Close Scope string_scope.

(** The lines that come before the first match: lines that were read and on
    which the pattern is not found. *)
Definition no_match (sha_re : list item) (lines : list read_item) : Prop :=
  Forall (fun item => exists line, item = Line line /\ search sha_re line = None)
    lines.

(** ** Reading what the script did *)

(** The steps of a trace that act on the repository or on a file, in order:
    the commands and the writing of a file. *)
Definition steps_taken (tr : list effect) : list effect :=
  filter (fun e => match e with
                   | Subprocess _ _ | WriteText _ _ => true
                   | _ => false
                   end) tr.

(** The commands that publish the update: creating the branch, adding,
    committing and pushing. *)
Definition is_publishing (argv : list string) : Prop :=
  (exists branch, argv = ["git"; "checkout"; "-b"; branch]%string)
  \/ argv = ["git"; "add"; "."]%string
  \/ (exists file, argv = ["git"; "commit"; "--file"; file]%string)
  \/ argv = ["git"; "push"; "-u"]%string.

(** A trace in which nothing is published. *)
Definition never_publishes (tr : list effect) : Prop :=
  forall argv cwd, In (Subprocess argv cwd) tr -> ~ is_publishing argv.

(** A command that was run and exited with status 0. *)
Definition succeeds (h : Host) (argv : list string) (cwd : string) : Prop :=
  exists output, run_process h argv cwd = Exited 0 output.

(** Everything that [main] checks before it looks for the revisions: the
    branch is the expected one, nothing is modified, the code generator and
    the reformatting succeed, and the supervisor of the tests returns
    [None]. *)
Definition checks_pass (h : Host) (fuel : nat) (our_repo expected_our_branch : string)
  : Prop :=
  (exists output,
      run_process h ["git"; "rev-parse"; "--abbrev-ref"; "HEAD"]%string our_repo
      = Exited 0 output
      /\ strip output = expected_our_branch)
  /\ (exists output,
        run_process h ["git"; "diff"; "--name-status"; expected_our_branch]%string
          our_repo
        = Exited 0 output
        /\ blank output = true)
  /\ succeeds h
       [executable h; "codegen.py"; "--meta_model";
        joinpath h (joinpath h our_repo "dev_scripts/codegen") "meta_model.py";
        "--target"; our_repo]%string
       (joinpath h our_repo "dev_scripts/codegen")
  /\ succeeds h
       [executable h; joinpath h our_repo "continuous_integration/precommit.py";
        "--select"; "reformat"; "--overwrite"]%string
       our_repo
  /\ (exists procs tr,
        _run_in_parallel (time_time h) fuel
          (test_calls (popen h) (executable h) our_repo
             (test_env (environ h) (pathsep h) our_repo)
             (sorted_glob h (joinpath h our_repo "tests") "**/test_*.py"))
        = (Return None, procs, tr)).

(** Both revisions are found. *)
Definition revisions_found (h : Host) (our_repo meta codegen : string) : Prop :=
  snd (_get_codegen_revision h our_repo) = Returns (Some codegen)
  /\ snd (_get_meta_model_revision h our_repo) = Returns (Some meta).

(** The characters of the name of the branch. *)
Definition branch_char (c : ascii) : bool := alnum c || Ascii.eqb c "-".

(** ** An example host *)

Definition example_lines : list read_item :=
  [Line "[project]";
   Line "  aas-core-codegen@git+https://github.com/aas-core-works/aas-core-codegen@c414f32,";
   Line "# https://raw.githubusercontent.com/aas-core-works/aas-core-meta/79314c6369b235fb1bcbad843cf4ab34fe4e4b4f/aas_core_meta/v3_1.py"].

(** [git rev-parse] answers [main]; every command exits with 0. *)
Definition example_run_process (argv : list string) (cwd : string) : completed :=
  match argv with
  | [_; verb; _; _] =>
      if String.eqb verb "rev-parse" then Exited 0 ("main" ++ nl) else Exited 0 EmptyString
  | _ => Exited 0 EmptyString
  end.

Definition example_host : Host :=
  mkHost "python3" ":" []
    (fun directory name => (directory ++ "/" ++ name)%string)
    (fun s => ("'" ++ s ++ "'")%string)
    (fun _ => "0.00"%string)
    (fun _ => "1"%string)
    example_run_process
    (fun _ => example_lines)
    (fun _ _ => true)
    (fun k => inject_Z (Z.of_nat k))
    "/tmp/tmp0"
    (fun _ _ => ["/repo/tests/test_types.py"%string])
    (fun _ => Spawned (spawn (exits_at 0 0)))
    steady_clock.

(** The same host with files that cannot be read beyond their first line. *)
Definition unreadable_host : Host :=
  mkHost (executable example_host) (pathsep example_host) (environ example_host)
    (joinpath example_host) (repr example_host) (format_2f example_host)
    (str_of_nat example_host) (run_process example_host)
    (fun _ => [Line "[project]"; ReadError "Permission denied"])
    (write_text example_host) (perf_counter example_host)
    (temporary_directory example_host) (sorted_glob example_host)
    (popen example_host) (time_time example_host).

(** * The pre-commit script [continuous_integration/precommit.py]

    The script that [_reformat_code] starts.  Its command line is taken as
    [argparse] hands it over: the flag [--overwrite] and the values of
    [--select] and [--skip], which are names of steps. *)

Module Precommit.

Inductive Step :=
| REFORMAT
| MYPY
| PYLINT
| TEST
| DOCTEST
| CHECK_INIT_AND_PYPROJECT_TOML_CONSISTENT.

(** The members in the order of their definition: [[value for value in Step]]. *)
Definition all_steps : list Step :=
  [REFORMAT; MYPY; PYLINT; TEST; DOCTEST; CHECK_INIT_AND_PYPROJECT_TOML_CONSISTENT].

Definition value (step : Step) : string :=
  match step with
  | REFORMAT => "reformat"
  | MYPY => "mypy"
  | PYLINT => "pylint"
  | TEST => "test"
  | DOCTEST => "doctest"
  | CHECK_INIT_AND_PYPROJECT_TOML_CONSISTENT => "check-init-and-pyproject-consistent"
  end.

Definition Step_eqb (a b : Step) : bool :=
  match a, b with
  | REFORMAT, REFORMAT | MYPY, MYPY | PYLINT, PYLINT | TEST, TEST
  | DOCTEST, DOCTEST
  | CHECK_INIT_AND_PYPROJECT_TOML_CONSISTENT, CHECK_INIT_AND_PYPROJECT_TOML_CONSISTENT
      => true
  | _, _ => false
  end.

(** [step in steps] *)
Definition member (step : Step) (steps : list Step) : bool :=
  existsb (Step_eqb step) steps.

(** How [subprocess.call] ends: with the exit status of the command, or with
    an [OSError] when the command cannot be started. *)
Inductive called :=
| ExitCode (code : Z)
| CannotStart.

(** A module found by [glob]: its path, the last component of the path, and
    what [read_text] gives ([None] when it raises). *)
Record py_module := mkModule {
  pth : string;
  name : string;
  text : option string
}.

Record Platform := mkPlatform {
  executable : string;                   (* [sys.executable] *)
  environ : list (string * string);      (* [os.environ] *)
  repo_root : string;                    (* [str(repo_root)] *)
  path_str : string -> string;           (* [str(pathlib.Path(text))] *)
  quote : string -> string;              (* [shlex.quote] *)
  str_of_int : Z -> string;              (* [str] of an [int] *)
  call : list string -> option string -> option (list (string * string)) -> called;
                                         (* [subprocess.call(cmd, cwd=, env=)] *)
  rst_files : list string;
    (* [[str(path) for path in (repo_root / "docs" / "source").glob("**/*.rst")]] *)
  py_files : list py_module              (* [(repo_root / "aas_core3_1").glob("**/*.py")] *)
}.

(** What the script does, in order. *)
Inductive action :=
| Say (text : string)                    (* [print(text)] *)
| SayErr (text : string)                 (* [print(text, file=sys.stderr)] *)
| Call (cmd : list string) (cwd : option string)
       (env : option (list (string * string)))
| ReadText (path : string).

(** A computation of the script: what it did, and its value unless it
    raised. *)
Definition run (A : Type) : Type := list action * option A.

Definition ret {A} (a : A) : run A := ([], Some a).

Definition bind {A B} (m : run A) (k : A -> run B) : run B :=
  match m with
  | (tr, Some a) => let (tr', r) := k a in (tr ++ tr', r)
  | (tr, None) => (tr, None)
  end.

Declare Scope precommit_scope.
Delimit Scope precommit_scope with precommit.
Notation "x <- m ;; k" := (bind m (fun x => k))
  (at level 61, m at next level, right associativity) : precommit_scope.
Notation "m ;;; k" := (bind m (fun _ => k))
  (at level 61, right associativity) : precommit_scope.
Local Open Scope precommit_scope.
Local Open Scope string_scope.

Definition say (text : string) : run unit := ([Say text], Some tt).
Definition say_err (text : string) : run unit := ([SayErr text], Some tt).

Definition subprocess_call (p : Platform) (cmd : list string) (cwd : option string)
    (env : option (list (string * string))) : run Z :=
  ([Call cmd cwd env],
   match call p cmd cwd env with
   | ExitCode code => Some code
   | CannotStart => None
   end).

Definition read_text (m : py_module) : run string := ([ReadText (pth m)], text m).

(** [needle in s] *)
Fixpoint contains (needle s : string) : bool :=
  String.prefix needle s
  || match s with
     | EmptyString => false
     | String _ s' => contains needle s'
     end.

(** [sorted(texts)] *)
Fixpoint insert_sorted (s : string) (sorted : list string) : list string :=
  match sorted with
  | [] => [s]
  | t :: sorted' =>
      if String.leb s t then s :: sorted else t :: insert_sorted s sorted'
  end.

Definition sorted (texts : list string) : list string :=
  fold_right insert_sorted [] texts.

Definition call_and_report (p : Platform) (verb : string) (cmd : list string)
    (cwd : option string) (env : option (list (string * string))) : run Z :=
  let cmd_str := join " " (map (quote p) cmd) in
  match cwd with
  | Some cwd => say ("Executing from " ++ cwd ++ ": " ++ cmd_str)
  | None => say ("Executing: " ++ cmd_str)
  end ;;;
  exit_code <- subprocess_call p cmd cwd env ;;
  (if negb (exit_code =? 0)%Z then
     say_err ("Failed to " ++ verb ++ " with exit code " ++ str_of_int p exit_code
                ++ ": " ++ cmd_str)
   else ret tt) ;;;
  ret exit_code.

(** One [if exit_code != 0: return 1]: [Some 1] is what [main] returns at
    once, [None] lets it go on. *)
Definition return_1_if_failed (exit_code : Z) : run (option Z) :=
  if negb (exit_code =? 0)%Z then ret (Some 1%Z) else ret None.

(** The rest of [main] after a block that may have returned. *)
Definition and_then (block : run (option Z)) (rest : run Z) : run Z :=
  returned <- block ;;
  match returned with
  | Some code => ret code
  | None => rest
  end.

Definition reformat_targets : list string :=
  ["aas_core3_1"; "dev/continuous_integration"; "dev/tests"; "dev/dev_scripts"].

Definition reformat_exclude : string :=
  "dev/dev_scripts/codegen/(snippets|meta_model.py)".

Definition reformat (p : Platform) (overwrite : bool) (selects skips : list Step)
  : run (option Z) :=
  if member REFORMAT selects && negb (member REFORMAT skips) then
    say "Re-formatting..." ;;;
    if overwrite then
      exit_code <- call_and_report p "black"
        ([executable p; "-m"; "black"] ++ reformat_targets
           ++ ["--exclude"; reformat_exclude])
        (Some (repo_root p)) None ;;
      return_1_if_failed exit_code
    else
      exit_code <- call_and_report p "check with black"
        ([executable p; "-m"; "black"; "--check"] ++ reformat_targets
           ++ ["--exclude"; reformat_exclude])
        (Some (repo_root p)) None ;;
      return_1_if_failed exit_code
  else
    say "Skipped re-formatting." ;;; ret None.

Definition mypy_targets : list string :=
  ["aas_core3_1"; "dev/tests"; "dev/continuous_integration"; "dev/dev_scripts"].

Definition mypy_exclude : string :=
  "dev/dev_scripts/codegen/(snippets|meta_model.py)".

Definition mypy (p : Platform) (selects skips : list Step) : run (option Z) :=
  if member MYPY selects && negb (member MYPY skips) then
    say "Mypy'ing..." ;;;
    let config_file := path_str p "dev/continuous_integration/mypy.ini" in
    exit_code <- call_and_report p "mypy"
      ([executable p; "-m"; "mypy"; "--strict"; "--config-file"; config_file]
         ++ mypy_targets ++ ["--exclude"; mypy_exclude])
      (Some (repo_root p)) None ;;
    return_1_if_failed exit_code
  else
    say "Skipped mypy'ing." ;;; ret None.

Definition pylint_targets : list string :=
  ["aas_core3_1"; "dev/tests"; "dev/continuous_integration"; "dev/dev_scripts"].

Definition pylint_ignore : string :=
  "dev/dev_scripts/codegen/(snippets|meta_model.py)".

Definition pylint (p : Platform) (selects skips : list Step) : run (option Z) :=
  if member PYLINT selects && negb (member PYLINT skips) then
    say "Pylint'ing..." ;;;
    let rcfile := path_str p "dev/continuous_integration/pylint.rc" in
    exit_code <- call_and_report p "pylint"
      ([executable p; "-m"; "pylint"; "--rcfile=" ++ rcfile]
         ++ pylint_targets ++ ["--ignore-paths=" ++ pylint_ignore])
      (Some (repo_root p)) None ;;
    return_1_if_failed exit_code
  else
    say "Skipped pylint'ing." ;;; ret None.

Definition test (p : Platform) (selects skips : list Step) : run (option Z) :=
  if member TEST selects && negb (member TEST skips) then
    say "Testing..." ;;;
    let env := env_set "ICONTRACT_SLOW" "true" (environ p) in
    exit_code <- call_and_report p "execute unit tests"
      [executable p; "-m"; "coverage"; "run"; "--source"; "aas_core3_1";
       "-m"; "unittest"; "discover"; "--start-directory"; "dev/tests"]
      (Some (repo_root p)) (Some env) ;;
    if negb (exit_code =? 0)%Z then ret (Some 1%Z)
    else
      exit_code <- call_and_report p "report the coverage"
        [executable p; "-m"; "coverage"; "report"]
        (Some (repo_root p)) None ;;
      return_1_if_failed exit_code
  else
    say "Skipped testing." ;;; ret None.

(** [for pth in (repo_root / "aas_core3_1").glob("**/*.py"): ...] *)
Fixpoint doctest_modules (p : Platform) (modules : list py_module)
  : run (option Z) :=
  match modules with
  | [] => ret None
  | m :: modules' =>
      if name m =? "__main__.py" then doctest_modules p modules'
      else
        text <- read_text m ;;
        if contains ">>>" text then
          exit_code <- call_and_report p "doctest"
            [executable p; "-m"; "doctest"; pth m]
            (Some (repo_root p)) None ;;
          if negb (exit_code =? 0)%Z then ret (Some 1%Z)
          else doctest_modules p modules'
        else doctest_modules p modules'
  end.

Definition doctest (p : Platform) (selects skips : list Step) : run (option Z) :=
  if member DOCTEST selects && negb (member DOCTEST skips) then
    say "Doctest'ing..." ;;;
    let doc_files := sorted (["README.rst"] ++ rst_files p) in
    exit_code <- call_and_report p "doctest"
      ([executable p; "-m"; "doctest"] ++ doc_files)
      (Some (repo_root p)) None ;;
    if negb (exit_code =? 0)%Z then ret (Some 1%Z)
    else doctest_modules p (py_files p)
  else
    say "Skipped doctest'ing." ;;; ret None.

Definition check_init (p : Platform) (selects skips : list Step) : run (option Z) :=
  if member CHECK_INIT_AND_PYPROJECT_TOML_CONSISTENT selects
     && negb (member CHECK_INIT_AND_PYPROJECT_TOML_CONSISTENT skips) then
    say "Checking that __init__.py and pyproject.toml are consistent..." ;;;
    exit_code <- call_and_report p
      "check that __init__.py and pyproject.toml are consistent"
      [executable p;
       "dev/continuous_integration/check_init_and_pyproject_toml_consistent.py"]
      (Some (repo_root p)) None ;;
    return_1_if_failed exit_code
  else
    say "Skipped checking that __init__.py and pyproject.toml are consistent." ;;;
    ret None.

(** [main()], for the parsed command line: [select] and [skip] are [None]
    when the option is not given. *)
Definition main (p : Platform) (overwrite : bool) (select skip : option (list Step))
  : run Z :=
  let selects := match select with Some steps => steps | None => all_steps end in
  let skips := match skip with Some steps => steps | None => [] end in
  and_then (reformat p overwrite selects skips)
    (and_then (mypy p selects skips)
       (and_then (pylint p selects skips)
          (and_then (test p selects skips)
             (and_then (doctest p selects skips)
                (and_then (check_init p selects skips)
                   (ret 0%Z)))))).

Local Close Scope string_scope.
Local Close Scope precommit_scope.

(** ** Reading what the script did *)

(** The step to which a command belongs. *)
Definition step_of (cmd : list string) : option Step :=
  match cmd with
  | [_; script] =>
      if String.eqb script
           "dev/continuous_integration/check_init_and_pyproject_toml_consistent.py"
      then Some CHECK_INIT_AND_PYPROJECT_TOML_CONSISTENT else None
  | _ :: _ :: tool :: _ =>
      if String.eqb tool "black" then Some REFORMAT
      else if String.eqb tool "mypy" then Some MYPY
      else if String.eqb tool "pylint" then Some PYLINT
      else if String.eqb tool "coverage" then Some TEST
      else if String.eqb tool "doctest" then Some DOCTEST
      else None
  | _ => None
  end.

(** Whether a command belongs to the step. *)
Definition is_step (step : Step) (cmd : list string) : bool :=
  match step_of cmd with
  | Some step' => Step_eqb step' step
  | None => false
  end.

(** The commands of a trace, in order. *)
Definition calls_of (tr : list action) : list (list string) :=
  flat_map (fun a => match a with Call cmd _ _ => [cmd] | _ => [] end) tr.

(** The modules that are tested for their examples: all but [__main__.py]
    that hold [>>>]. *)
Definition has_doctest (m : py_module) : bool :=
  negb (String.eqb (name m) "__main__.py")
  && match text m with
     | Some text => contains ">>>" text
     | None => false
     end.

(** Every command of the trace exited with status 0. *)
Definition all_passed (p : Platform) (tr : list action) : Prop :=
  forall cmd cwd env, In (Call cmd cwd env) tr -> call p cmd cwd env = ExitCode 0.

(** The trace ends with a command that exited with another status and with
    the report of it; every command before it exited with 0. *)
Definition failed_last (p : Platform) (tr : list action) : Prop :=
  exists before cmd cwd env status message,
    tr = before ++ [Call cmd cwd env; SayErr message]
    /\ call p cmd cwd env = ExitCode status
    /\ status <> 0%Z
    /\ all_passed p before.

(** The trace ends with a command that could not be started or with a module
    that could not be read; every command before it exited with 0. *)
Definition raised_last (p : Platform) (tr : list action) : Prop :=
  exists before last,
    tr = before ++ [last]
    /\ all_passed p before
    /\ match last with
       | Call cmd cwd env => call p cmd cwd env = CannotStart
       | ReadText path =>
           exists m, In m (py_files p) /\ pth m = path /\ text m = None
       | _ => False
       end.

(** What [main] makes of its command line. *)
Definition selects_of (select : option (list Step)) : list Step :=
  match select with Some steps => steps | None => all_steps end.

Definition skips_of (skip : option (list Step)) : list Step :=
  match skip with Some steps => steps | None => [] end.

(** How a block of [main] ends: it lets [main] go on after commands that all
    exited with 0, or makes it return 1 right after a command that failed, or
    raises. *)
Definition block_ends (p : Platform) (b : run (option Z)) : Prop :=
  match snd b with
  | Some None => all_passed p (fst b)
  | Some (Some code) => code = 1%Z /\ failed_last p (fst b)
  | None => raised_last p (fst b)
  end.

Definition main_ends (p : Platform) (m : run Z) : Prop :=
  match snd m with
  | Some code =>
      (code = 0%Z /\ all_passed p (fst m)) \/ (code = 1%Z /\ failed_last p (fst m))
  | None => raised_last p (fst m)
  end.

(** The command that tests the examples of one module. *)
Definition doctest_of (p : Platform) (m : py_module) : list string :=
  [executable p; "-m"; "doctest"; pth m]%string.

(** ** An example platform

    Every command exits with 0 but [mypy], which exits with 1. *)

Definition example_call (cmd : list string) : called :=
  match cmd with
  | _ :: _ :: tool :: _ => if String.eqb tool "mypy" then ExitCode 1 else ExitCode 0
  | _ => ExitCode 0
  end.

Definition example_platform : Platform :=
  mkPlatform "python3" [] "/repo" (fun text => text) (fun text => text)
    (fun _ => "1"%string)
    (fun cmd _ _ => example_call cmd)
    ["/repo/docs/source/index.rst"%string]
    [mkModule "/repo/aas_core3_1/__main__.py" "__main__.py" (Some ">>> main()"%string);
     mkModule "/repo/aas_core3_1/types.py" "types.py"
       (Some "Example: >>> Environment()"%string);
     mkModule "/repo/aas_core3_1/common.py" "common.py" (Some "No examples."%string)].

End Precommit.

(** * The package and its distribution:
      [continuous_integration/check_init_and_pyproject_toml_coincide.py]

    The script that compares [aas_core3_1/__init__.py] with
    [pyproject.toml]. *)

Module CheckInit.

(** ** [aas_core3_1/__init__.py] *)

Definition __doc__ : string :=
  "Manipulate, verify and de/serialize Asset Administration Shells v3.1.".
Definition __author__ : string := "Marko Ristin, Tobias Langer".
Definition __license__ : string := "MIT".
Definition __status__ : string := "Production/Stable".

(** ** What [tomllib.loads] gives

    A text, an array, a table, or a value of another kind (a number, a
    boolean, a date or a time). *)
#[warnings="-register-all"]
Inductive toml :=
| TStr (text : string)
| TArr (items : list toml)
| TTable (entries : list (string * toml))
| TOther.

(** What becomes of [pyproject.toml]: it does not exist, it cannot be read,
    it is not well-formed, or it is parsed into a table. *)
Inductive loaded :=
| NotFound
| Unreadable
| Malformed
| Parsed (entries : list (string * toml)).

Record Platform := mkPlatform {
  pyproject : loaded;
  repr_of : toml -> string       (* [str] of a value that is not a text *)
}.

(** What the script prints, in order. *)
Inductive output :=
| Out (text : string)            (* [print(text)] *)
| Err (text : string).           (* [print(text, file=sys.stderr)] *)

(** A computation of the script: what it printed, and its value unless it
    raised. *)
Definition run (A : Type) : Type := list output * option A.

Definition ret {A} (a : A) : run A := ([], Some a).
Definition raise {A} : run A := ([], None).

Definition bind {A B} (m : run A) (k : A -> run B) : run B :=
  match m with
  | (tr, Some a) => let (tr', r) := k a in (tr ++ tr', r)
  | (tr, None) => (tr, None)
  end.

Declare Scope checkinit_scope.
Delimit Scope checkinit_scope with checkinit.
Notation "x <- m ;; k" := (bind m (fun x => k))
  (at level 61, m at next level, right associativity) : checkinit_scope.
Notation "m ;;; k" := (bind m (fun _ => k))
  (at level 61, right associativity) : checkinit_scope.
Local Open Scope checkinit_scope.
Local Open Scope string_scope.

Definition print (text : string) : run unit := ([Out text], Some tt).
Definition print_err (text : string) : run unit := ([Err text], Some tt).

Definition of_option {A} (o : option A) : run A := ([], o).

(** ** The operations of Python on these values *)

Fixpoint lookup (key : string) (entries : list (string * toml)) : option toml :=
  match entries with
  | [] => None
  | (k, v) :: entries' => if k =? key then Some v else lookup key entries'
  end.

(** [v[key]]: a [KeyError] when the table has no such key, a [TypeError]
    when [v] is not a table. *)
Definition item (v : toml) (key : string) : option toml :=
  match v with
  | TTable entries => lookup key entries
  | _ => None
  end.

(** [for x in v]: the items of an array, the keys of a table, the characters
    of a text; a [TypeError] otherwise. *)
Definition iterate (v : toml) : option (list toml) :=
  match v with
  | TArr items => Some items
  | TTable entries => Some (map (fun entry => TStr (fst entry)) entries)
  | TStr text =>
      Some (map (fun c => TStr (String c EmptyString)) (list_ascii_of_string text))
  | TOther => None
  end.

(** [v == text] *)
Definition equals (text : string) (v : toml) : bool :=
  match v with
  | TStr text' => text' =? text
  | _ => false
  end.

(** [str(v)] *)
Definition str (p : Platform) (v : toml) : string :=
  match v with
  | TStr text => text
  | _ => repr_of p v
  end.

(** [[f(x) for x in xs]] *)
Fixpoint comprehension {A B} (f : A -> option B) (xs : list A) : option (list B) :=
  match xs with
  | [] => Some []
  | x :: xs' =>
      match f x with
      | None => None
      | Some y =>
          match comprehension f xs' with
          | None => None
          | Some ys => Some (y :: ys)
          end
      end
  end.

(** The map from the classifier of the distribution to the status expected
    in [__init__.py]. *)
Definition status_map : list (string * string) :=
  [("Development Status :: 1 - Planning", "Planning");
   ("Development Status :: 2 - Pre-Alpha", "Pre-Alpha");
   ("Development Status :: 3 - Alpha", "Alpha");
   ("Development Status :: 4 - Beta", "Beta");
   ("Development Status :: 5 - Production/Stable", "Production/Stable");
   ("Development Status :: 6 - Mature", "Mature");
   ("Development Status :: 7 - Inactive", "Inactive")].

Fixpoint status_of (classifier : string) (map : list (string * string))
  : option string :=
  match map with
  | [] => None
  | (k, v) :: map' => if k =? classifier then Some v else status_of classifier map'
  end.

(** [for classifier in classifiers: if classifier in status_map: ...; break]:
    the status of the first classifier that is in the map, [None] when there
    is none.  An array or a table cannot be looked up in a dictionary: a
    [TypeError]. *)
Fixpoint find_status (classifiers : list toml) : option (option string) :=
  match classifiers with
  | [] => Some None
  | TStr classifier :: classifiers' =>
      match status_of classifier status_map with
      | Some status => Some (Some status)
      | None => find_status classifiers'
      end
  | TOther :: classifiers' => find_status classifiers'
  | _ :: _ => None
  end.

(** ** [main()] *)

Definition check_author (p : Platform) (pyproject_toml_map : toml) (success : bool)
  : run bool :=
  project <- of_option (item pyproject_toml_map "project") ;;
  authors <- of_option (item project "authors") ;;
  authors <- of_option (iterate authors) ;;
  author_names <- of_option (comprehension (fun author => item author "name") authors) ;;
  if negb (existsb (equals __author__) author_names) then
    authors <- of_option (item pyproject_toml_map "authors") ;;
    print_err
      ("The author aas_core_codegen/__init__.py is not part of authors in pyproject.toml. "
         ++ "authors in pyproject.toml is " ++ str p authors ++ ", "
         ++ "while the author in aas_core_codegen/__init__.py is: "
         ++ __author__) ;;;
    ret false
  else ret success.

Definition check_license (p : Platform) (pyproject_toml_map : toml) (success : bool)
  : run bool :=
  project <- of_option (item pyproject_toml_map "project") ;;
  license <- of_option (item project "license") ;;
  if negb (equals __license__ license) then
    print_err
      ("The license in the pyproject.toml is " ++ str p license ++ ", "
         ++ "while the license in aas_core_codegen/__init__.py is: "
         ++ __license__) ;;;
    ret false
  else ret success.

Definition check_description (p : Platform) (pyproject_toml_map : toml)
    (success : bool) : run bool :=
  project <- of_option (item pyproject_toml_map "project") ;;
  description <- of_option (item project "description") ;;
  if negb (equals __doc__ description) then
    print_err
      ("The description in the pyproject.toml is " ++ str p description ++ ", "
         ++ "while the description in aas_core_codegen/__init__.py is: "
         ++ __doc__) ;;;
    ret false
  else ret success.

Definition check_status (pyproject_toml_map : toml) (success : bool) : run bool :=
  project <- of_option (item pyproject_toml_map "project") ;;
  classifiers <- of_option (item project "classifiers") ;;
  classifiers <- of_option (iterate classifiers) ;;
  expected <- of_option (find_status classifiers) ;;
  match expected with
  | None =>
      print_err
        ("Expected a status classifier in pyproject.toml "
           ++ "(e.g., 'Development Status :: 3 - Alpha'), but found none.") ;;;
      ret false
  | Some expected_status_in_init =>
      if negb (expected_status_in_init =? __status__) then
        print
          ("Expected status " ++ expected_status_in_init ++ " "
             ++ "according to pyproject.toml in aas_core3_1/__init__.py, "
             ++ "but found: " ++ __status__) ;;;
        ret false
      else ret success
  end.

Definition main (p : Platform) : run Z :=
  match pyproject p with
  | NotFound => raise
  | Unreadable => raise
  | Malformed => raise
  | Parsed entries =>
      let pyproject_toml_map := TTable entries in
      let success := true in
      success <- check_author p pyproject_toml_map success ;;
      success <- check_license p pyproject_toml_map success ;;
      success <- check_description p pyproject_toml_map success ;;
      success <- check_status pyproject_toml_map success ;;
      if negb success then ret (-1)%Z else ret 0%Z
  end.

Local Close Scope string_scope.
Local Close Scope checkinit_scope.

(** ** What the script compares *)

(** The names of the authors of the distribution. *)
Definition author_names_of (entries : list (string * toml)) : option (list toml) :=
  match lookup "project" entries with
  | Some project =>
      match item project "authors" with
      | Some authors =>
          match iterate authors with
          | Some authors => comprehension (fun author => item author "name") authors
          | None => None
          end
      | None => None
      end
  | None => None
  end.

(** A field of the table [project]. *)
Definition project_field (entries : list (string * toml)) (key : string)
  : option toml :=
  match lookup "project" entries with
  | Some project => item project key
  | None => None
  end.

(** The package and the distribution agree: the author of the package is
    the name of an author of the distribution, the license and the
    description are the same texts, and the first classifier of the
    distribution that tells a development status tells the status of the
    package. *)
Definition consistent (entries : list (string * toml)) : Prop :=
  (exists author_names,
      author_names_of entries = Some author_names
      /\ In (TStr __author__) author_names)
  /\ project_field entries "license" = Some (TStr __license__)
  /\ project_field entries "description" = Some (TStr __doc__)
  /\ (exists classifiers items,
        project_field entries "classifiers" = Some classifiers
        /\ iterate classifiers = Some items
        /\ find_status items = Some (Some __status__)).

(** How one comparison ends: it leaves [success] as it is and prints
    nothing, or prints one message and sets [success] to [False], or raises
    without printing. *)
Definition compared (check : run bool) (success : bool) : Prop :=
  check = ([], Some success)
  \/ (exists message, check = ([message], Some false))
  \/ check = ([], None).

(** ** Example distributions *)

Definition example_project (author : string) : toml :=
  TTable
    [("name", TStr "aas-core3.1");
     ("description", TStr __doc__);
     ("license", TStr "MIT");
     ("authors", TArr [TTable [("name", TStr author)]]);
     ("classifiers",
      TArr [TStr "Development Status :: 5 - Production/Stable";
            TStr "License :: OSI Approved :: MIT License"])]%string.

Definition example_platform (author : string) : Platform :=
  mkPlatform (Parsed [("project"%string, example_project author)])
    (fun _ => "..."%string).

End CheckInit.

(** ** Handles *)

Lemma poll_terminal now p code :
  returncode p = Some code -> poll now p = p.
Proof. unfold poll. now intros ->. Qed.

Lemma terminate_terminal now p code :
  returncode p = Some code -> terminate now p = p.
Proof.
  intros H. unfold terminate. rewrite (poll_terminal now p code H).
  now rewrite H.
Qed.

Lemma poll_keeps_returncode now p code :
  returncode p = Some code -> returncode (poll now p) = Some code.
Proof. intros H. now rewrite (poll_terminal now p code H). Qed.

Lemma terminate_keeps_returncode now p code :
  returncode p = Some code -> returncode (terminate now p) = Some code.
Proof. intros H. now rewrite (terminate_terminal now p code H). Qed.

Lemma child_poll now p : child (poll now p) = child p.
Proof. unfold poll. now destruct (returncode p). Qed.

Lemma is_running_poll now p :
  is_running (poll now p) = true -> is_running p = true.
Proof.
  unfold is_running. destruct (returncode p) eqn:E; [|reflexivity].
  now rewrite (poll_keeps_returncode now p z E).
Qed.

Lemma has_failed_poll now p :
  has_failed p = true -> has_failed (poll now p) = true.
Proof.
  unfold has_failed. destruct (returncode p) eqn:E; [|discriminate].
  now rewrite (poll_keeps_returncode now p z E).
Qed.

Lemma has_failed_terminate now p :
  has_failed p = true -> has_failed (terminate now p) = true.
Proof.
  unfold has_failed. destruct (returncode p) eqn:E; [|discriminate].
  now rewrite (terminate_keeps_returncode now p z E).
Qed.

(** A handle that is observed at or after the tick by which its child has
    exited is terminal afterwards. *)
Lemma poll_exited T now p :
  exits_by T (child p) -> T <= now -> is_running (poll now p) = false.
Proof.
  intros Hex Hle. unfold is_running, poll.
  destruct (returncode p) eqn:E; [now rewrite E|]. simpl.
  specialize (Hex now (sigterms p) Hle). now destruct (child p now (sigterms p)).
Qed.

(** ** The sweeps, in closed form *)

Lemma length_polled now procs : length (polled now procs) = length procs.
Proof. revert now; induction procs; simpl; intros; [|rewrite IHprocs]; reflexivity. Qed.

Lemma length_terminated now procs : length (terminated now procs) = length procs.
Proof. revert now; induction procs; simpl; intros; [|rewrite IHprocs]; reflexivity. Qed.

Lemma length_cleaned now procs : length (cleaned now procs) = length procs.
Proof.
  revert now; induction procs as [|p ps IH]; simpl; intros; [reflexivity|].
  destruct (returncode p); simpl; now rewrite IH.
Qed.

Lemma nth_error_polled procs : forall now i,
  nth_error (polled now procs) i = option_map (poll (now + i)) (nth_error procs i).
Proof.
  induction procs as [|p ps IH]; intros now [|i]; simpl; try reflexivity.
  - now rewrite Nat.add_0_r.
  - rewrite IH. now rewrite Nat.add_succ_comm.
Qed.

Lemma nth_error_terminated procs : forall now i,
  nth_error (terminated now procs) i
  = option_map (terminate (now + i)) (nth_error procs i).
Proof.
  induction procs as [|p ps IH]; intros now [|i]; simpl; try reflexivity.
  - now rewrite Nat.add_0_r.
  - rewrite IH. now rewrite Nat.add_succ_comm.
Qed.

Lemma nth_error_cleaned procs : forall now i p,
  nth_error procs i = Some p ->
  nth_error (cleaned now procs) i
  = Some (if is_running p then terminate (now + count_running (firstn i procs)) p
          else p).
Proof.
  unfold count_running.
  induction procs as [|q qs IH]; intros now [|i] p H; simpl in *; try discriminate.
  - injection H as ->. unfold is_running.
    destruct (returncode p); simpl; [reflexivity|now rewrite Nat.add_0_r].
  - unfold is_running at 2. destruct (returncode q); simpl.
    + now apply IH.
    + rewrite (IH (S now) i p H). now rewrite Nat.add_succ_comm.
Qed.

Lemma poll_and_check_eq procs : forall failure i now,
  poll_and_check procs failure i now
  = (polled now procs, failure || existsb has_failed (polled now procs),
     now + length procs, map EvPoll (seq i (length procs))).
Proof.
  induction procs as [|p ps IH]; intros failure i now; simpl.
  - now rewrite orb_false_r, Nat.add_0_r.
  - rewrite IH, Nat.add_succ_comm, orb_assoc.
    replace (match returncode (poll now p) with
             | Some code => if (code =? 0)%Z then failure else true
             | None => failure
             end) with (failure || has_failed (poll now p)); [reflexivity|].
    unfold has_failed. destruct (returncode (poll now p)) as [code|].
    + destruct (code =? 0)%Z; simpl; [apply orb_false_r|apply orb_true_r].
    + apply orb_false_r.
Qed.

Lemma poll_all_eq procs : forall i now,
  poll_all procs i now
  = (polled now procs, now + length procs, map EvPoll (seq i (length procs))).
Proof.
  induction procs as [|p ps IH]; intros i now; simpl.
  - now rewrite Nat.add_0_r.
  - rewrite IH. now rewrite Nat.add_succ_comm.
Qed.

Lemma terminate_all_eq procs : forall i now,
  terminate_all procs i now
  = (terminated now procs, now + length procs,
     map EvTerminate (seq i (length procs))).
Proof.
  induction procs as [|p ps IH]; intros i now; simpl.
  - now rewrite Nat.add_0_r.
  - rewrite IH. now rewrite Nat.add_succ_comm.
Qed.

Lemma terminate_running_eq procs : forall i now,
  terminate_running procs i now
  = (cleaned now procs, now + count_running procs,
     map EvTerminate (running_indices i procs)).
Proof.
  unfold count_running.
  induction procs as [|p ps IH]; intros i now; simpl.
  - now rewrite Nat.add_0_r.
  - assert (R : is_running p = match returncode p with
                               | None => true | Some _ => false end)
      by reflexivity.
    destruct (returncode p); rewrite IH, R; simpl.
    + reflexivity.
    + now rewrite Nat.add_succ_r.
Qed.

(** ** Launching *)

Lemma launch_all_spawns calls : forall ps procs i now,
  spawns calls ps ->
  launch_all calls procs i now
  = (true, procs ++ ps, now + length calls, map EvCall (seq i (length calls))).
Proof.
  induction calls as [|call calls IH]; intros ps procs i now H; inversion H; subst.
  - simpl. now rewrite app_nil_r, Nat.add_0_r.
  - simpl. rewrite H2. rewrite (IH l' (procs ++ [y]) (S i) (S now) H4).
    now rewrite <- app_assoc, Nat.add_succ_comm.
Qed.

Lemma launch_all_fails pre : forall ps failing post procs i now,
  spawns pre ps -> failing tt = OSError ->
  launch_all (pre ++ failing :: post) procs i now
  = (false, procs ++ ps, now + S (length pre),
     map EvCall (seq i (S (length pre)))).
Proof.
  induction pre as [|call pre IH]; intros ps failing post procs i now H Hf;
    inversion H; subst.
  - simpl. rewrite Hf. now rewrite app_nil_r, Nat.add_1_r.
  - simpl. rewrite H2.
    rewrite (IH l' failing post (procs ++ [y]) (S i) (S now) H4 Hf).
    now rewrite <- app_assoc, Nat.add_succ_comm.
Qed.

(** Whatever the launchers do, launching only calls them, in order, and
    yields at most one handle per launcher. *)
Lemma launch_all_inv calls : forall procs i now ok procs' now' evs,
  launch_all calls procs i now = (ok, procs', now', evs) ->
  length procs' <= length procs + length calls
  /\ exists k, evs = map EvCall (seq i k).
Proof.
  induction calls as [|call calls IH]; intros procs i now ok procs' now' evs H;
    simpl in H.
  - injection H as <- <- <- <-. split; [lia|now exists 0].
  - destruct (call tt) as [proc|].
    + destruct (launch_all calls (procs ++ [proc]) (S i) (S now))
        as [[[ok1 procs1] now1] evs1] eqn:E.
      injection H as <- <- <- <-.
      destruct (IH _ _ _ _ _ _ _ E) as [Hlen [k Hk]].
      rewrite length_app in Hlen. simpl in *. split; [lia|].
      exists (S k). simpl. now rewrite Hk.
    + injection H as <- <- <- <-. split; [simpl; lia|now exists 1].
Qed.


(** ** One iteration of the loop *)

Lemma supervise_done wall fuel procs failure next_print now reads :
  supervise wall fuel procs failure 0 next_print now reads
  = (Done None, procs, now, []).
Proof. now destruct fuel. Qed.

Lemma supervise_out wall procs failure remaining next_print now reads :
  remaining <> 0 ->
  supervise wall 0 procs failure remaining next_print now reads
  = (Iterating, procs, now, []).
Proof. intros H. simpl. now destruct (Nat.eqb_spec remaining 0). Qed.

Lemma supervise_step wall fuel procs failure remaining next_print now reads :
  remaining <> 0 ->
  supervise wall (S fuel) procs failure remaining next_print now reads
  = let due := Qlt_bool next_print (wall reads) in
    let n := length procs in
    let procs1 := polled (S now) procs in
    let failure1 := failure || existsb has_failed procs1 in
    if failure1 then
      (Done (Some 1%Z), terminated (S now + n) procs1, S now + n + n,
       report_events due remaining ++ EvSleep :: map EvPoll (seq 0 n)
         ++ EvStderr msg_failed :: map EvTerminate (seq 0 n)
         ++ [EvStderr msg_terminated])
    else
      let procs2 := polled (S now + n) procs1 in
      let '(exit, procs3, now4, evs) :=
        supervise wall fuel procs2 failure1 (count_running procs2)
          (if due then (wall (S reads) + 15)%Q else next_print)
          (S now + n + n) (if due then S (S reads) else S reads) in
      (exit, procs3, now4,
       report_events due remaining ++ EvSleep :: map EvPoll (seq 0 n)
         ++ map EvPoll (seq 0 n) ++ evs).
Proof.
  intros Hrem. cbn zeta. cbn [supervise].
  destruct (Nat.eqb_spec remaining 0) as [|_]; [contradiction|].
  rewrite poll_and_check_eq.
  destruct (Qlt_bool next_print (wall reads));
    destruct (failure || existsb has_failed (polled (S now) procs));
    rewrite ?terminate_all_eq, ?poll_all_eq, ?length_polled; reflexivity.
Qed.

(** ** Reasoning about the loop *)

Section LoopRule.

Variable wall : nat -> Q.

(** [P procs now exit procs' evs]: started at tick [now] with the handles
    [procs], the loop stands at [exit], has left [procs'] and emitted [evs]. *)
Variable P : list Popen -> nat -> progress -> list Popen -> list event -> Prop.

Hypothesis P_done : forall procs now,
  count_running procs = 0 -> P procs now (Done None) procs [].

Hypothesis P_out : forall procs now,
  count_running procs <> 0 -> P procs now Iterating procs [].

Hypothesis P_fail : forall procs now due,
  count_running procs <> 0 ->
  existsb has_failed (polled (S now) procs) = true ->
  P procs now (Done (Some 1%Z))
    (terminated (S now + length procs) (polled (S now) procs))
    (report_events due (count_running procs)
       ++ EvSleep :: map EvPoll (seq 0 (length procs))
       ++ EvStderr msg_failed :: map EvTerminate (seq 0 (length procs))
       ++ [EvStderr msg_terminated]).

Hypothesis P_next : forall procs now due exit procs' evs,
  count_running procs <> 0 ->
  existsb has_failed (polled (S now) procs) = false ->
  P (polled (S now + length procs) (polled (S now) procs))
    (S now + length procs + length procs) exit procs' evs ->
  P procs now exit procs'
    (report_events due (count_running procs)
       ++ EvSleep :: map EvPoll (seq 0 (length procs))
       ++ map EvPoll (seq 0 (length procs)) ++ evs).

Lemma supervise_rule : forall fuel procs next_print now reads exit procs' now' evs,
  supervise wall fuel procs false (count_running procs) next_print now reads
  = (exit, procs', now', evs) ->
  P procs now exit procs' evs.
Proof.
  induction fuel as [|fuel IH]; intros procs next_print now reads exit procs' now' evs H;
    (destruct (Nat.eq_dec (count_running procs) 0) as [E|E];
     [rewrite E, supervise_done in H; injection H as <- <- <- <-; now apply P_done|]).
  - rewrite (supervise_out _ _ _ _ _ _ _ E) in H. injection H as <- <- <- <-.
    now apply P_out.
  - rewrite (supervise_step _ _ _ _ _ _ _ _ E) in H. cbn zeta in H.
    rewrite orb_false_l in H.
    destruct (existsb has_failed (polled (S now) procs)) eqn:F.
    + injection H as <- <- <- <-. now apply P_fail.
    + match type of H with
      | context [supervise wall fuel ?a ?b ?c ?d ?e ?f] =>
          destruct (supervise wall fuel a b c d e f)
            as [[[exit3 procs3] now4] evs3] eqn:R
      end.
      injection H as <- <- <- <-.
      apply P_next; [assumption..|]. exact (IH _ _ _ _ _ _ _ _ R).
Qed.

End LoopRule.
(** ** Reading the traces of the sweeps *)

Lemma terminate_calls_app i tr1 tr2 :
  terminate_calls i (tr1 ++ tr2) = terminate_calls i tr1 + terminate_calls i tr2.
Proof. unfold terminate_calls. now rewrite filter_app, length_app. Qed.

Lemma terminate_calls_cons i e tr :
  terminate_calls i (e :: tr)
  = (if is_terminate i e then 1 else 0) + terminate_calls i tr.
Proof. unfold terminate_calls. simpl. now destruct (is_terminate i e). Qed.

Lemma terminate_calls_calls i l : terminate_calls i (map EvCall l) = 0.
Proof. induction l; [reflexivity|]. now rewrite map_cons, terminate_calls_cons. Qed.

Lemma terminate_calls_polls i l : terminate_calls i (map EvPoll l) = 0.
Proof. induction l; [reflexivity|]. now rewrite map_cons, terminate_calls_cons. Qed.

Lemma terminate_calls_report i due n : terminate_calls i (report_events due n) = 0.
Proof. now destruct due. Qed.

Lemma terminate_calls_sweep n : forall i k,
  terminate_calls i (map EvTerminate (seq k n))
  = if (k <=? i) && (i <? k + n) then 1 else 0.
Proof.
  induction n as [|n IH]; intros i k; cbn [seq map].
  - destruct (Nat.leb_spec k i), (Nat.ltb_spec i (k + 0)); try reflexivity; lia.
  - rewrite terminate_calls_cons, IH. cbn [is_terminate].
    destruct (Nat.eqb_spec k i), (Nat.leb_spec (S k) i), (Nat.ltb_spec i (S k + n)),
      (Nat.leb_spec k i), (Nat.ltb_spec i (k + S n)); try reflexivity; lia.
Qed.

Lemma terminate_calls_cleanup procs : forall i k,
  terminate_calls (k + i) (map EvTerminate (running_indices k procs))
  = match nth_error procs i with
    | Some p => if is_running p then 1 else 0
    | None => 0
    end.
Proof.
  assert (Low : forall procs k j, j < k ->
            terminate_calls j (map EvTerminate (running_indices k procs)) = 0).
  { clear. induction procs as [|p ps IH]; intros k j Hlt; simpl; [reflexivity|].
    destruct (is_running p); simpl.
    - rewrite terminate_calls_cons. simpl.
      destruct (Nat.eqb_spec k j); [lia|]. apply IH. lia.
    - apply IH. lia. }
  induction procs as [|p ps IH]; intros i k; simpl.
  - now destruct i.
  - destruct i as [|i]; simpl.
    + rewrite Nat.add_0_r. destruct (is_running p); simpl.
      * rewrite terminate_calls_cons. simpl. rewrite Nat.eqb_refl.
        rewrite Low; [reflexivity|lia].
      * apply Low. lia.
    + replace (k + S i) with (S k + i) by lia.
      destruct (is_running p); simpl; [|apply (IH i (S k))].
      rewrite terminate_calls_cons. simpl.
      destruct (Nat.eqb_spec k (S (k + i))); [lia|]. apply (IH i (S k)).
Qed.

Lemma terminate_calls_finally procs i :
  terminate_calls i (map EvTerminate (running_indices 0 procs))
  = match nth_error procs i with
    | Some p => if is_running p then 1 else 0
    | None => 0
    end.
Proof. exact (terminate_calls_cleanup procs i 0). Qed.

Lemma status_updates_app tr1 tr2 :
  status_updates (tr1 ++ tr2) = status_updates tr1 ++ status_updates tr2.
Proof.
  induction tr1 as [|e tr1 IH]; [reflexivity|].
  destruct e; simpl; now rewrite IH.
Qed.

Lemma Forall_map_event {A} (f : A -> event) (Q : event -> Prop) l :
  (forall a, Q (f a)) -> Forall Q (map f l).
Proof. intros H. apply Forall_map, Forall_forall. intros; apply H. Qed.


(** ** The shape of a run *)

Lemma run_cases wall fuel calls o procs tr :
  _run_in_parallel wall fuel calls = (o, procs, tr) ->
  exists procs0 now0 k,
    length procs0 <= length calls
    /\ ((o = Raise
         /\ procs = cleaned now0 procs0
         /\ tr = map EvCall (seq 0 k)
                   ++ map EvTerminate (running_indices 0 procs0))
        \/ (exists exit procs1 now1 evs next_print reads,
              supervise wall fuel procs0 false (count_running procs0)
                next_print now0 reads = (exit, procs1, now1, evs)
              /\ o = outcome_of exit
              /\ procs = finally_procs exit now1 procs1
              /\ tr = map EvCall (seq 0 k) ++ evs ++ finally_events exit procs1)).
Proof.
  unfold _run_in_parallel.
  destruct (launch_all calls [] 0 0) as [[[ok procs0] now0] ev0] eqn:L.
  destruct (launch_all_inv _ _ _ _ _ _ _ _ L) as [Hlen [k ->]].
  intros H. exists procs0, now0, k. split; [exact Hlen|].
  destruct ok.
  - right.
    destruct (supervise wall fuel procs0 false (count_running procs0)
                (wall 0%nat + 15)%Q now0 1) as [[[exit procs1] now1] evs] eqn:R.
    exists exit, procs1, now1, evs, (wall 0%nat + 15)%Q, 1.
    split; [exact R|]. destruct exit as [code|].
    + rewrite terminate_running_eq in H. now injection H as <- <- <-.
    + injection H as <- <- <-. now rewrite app_nil_r.
  - left. rewrite terminate_running_eq in H. now injection H as <- <- <-.
Qed.

Lemma supervise_length wall fuel procs next_print now reads exit procs' now' evs :
  supervise wall fuel procs false (count_running procs) next_print now reads
  = (exit, procs', now', evs) ->
  length procs' = length procs.
Proof.
  apply (supervise_rule wall (fun procs _ _ procs' _ => length procs' = length procs)).
  - reflexivity.
  - reflexivity.
  - intros. now rewrite length_terminated, length_polled.
  - intros ? ? ? ? ? ? _ _ H. now rewrite H, !length_polled.
Qed.

Lemma supervisor_event_report due n : Forall supervisor_event (report_events due n).
Proof. destruct due; repeat constructor. Qed.

Lemma supervise_events wall fuel procs next_print now reads exit procs' now' evs :
  supervise wall fuel procs false (count_running procs) next_print now reads
  = (exit, procs', now', evs) ->
  Forall supervisor_event evs.
Proof.
  apply (supervise_rule wall (fun _ _ _ _ evs => Forall supervisor_event evs)).
  - constructor.
  - constructor.
  - intros. apply Forall_app; split; [apply supervisor_event_report|].
    constructor; [exact I|]. apply Forall_app; split;
      [apply Forall_map_event; intros; exact I|].
    constructor; [now left|]. apply Forall_app; split;
      [apply Forall_map_event; intros; exact I|].
    constructor; [now right|constructor].
  - intros ? ? ? ? ? ? _ _ H. apply Forall_app; split; [apply supervisor_event_report|].
    constructor; [exact I|].
    repeat (apply Forall_app; split; [apply Forall_map_event; intros; exact I|]).
    exact H.
Qed.

Lemma supervisor_event_finally exit procs :
  Forall supervisor_event (finally_events exit procs).
Proof.
  destruct exit; simpl; [apply Forall_map_event; intros; exact I|constructor].
Qed.

(** The supervisor calls launchers, sleeps, polls, reports, terminates and
    prints its two messages, and does nothing else. *)
Lemma run_events wall fuel calls o procs tr :
  _run_in_parallel wall fuel calls = (o, procs, tr) ->
  Forall supervisor_event tr.
Proof.
  intros H. destruct (run_cases _ _ _ _ _ _ H) as (procs0 & now0 & k & _ & C).
  destruct C as [(_ & _ & ->)|(exit & procs1 & now1 & evs & np & reads & R & _ & _ & ->)].
  - apply Forall_app; split; apply Forall_map_event; intros; exact I.
  - apply Forall_app; split; [apply Forall_map_event; intros; exact I|].
    apply Forall_app; split; [exact (supervise_events _ _ _ _ _ _ _ _ _ _ R)|].
    apply supervisor_event_finally.
Qed.

Lemma supervisor_event_no_kill tr :
  Forall supervisor_event tr -> Forall (fun e => is_kill_or_wait e = false) tr.
Proof.
  apply Forall_impl. intros e. destruct e; simpl; intros H; try reflexivity; elim H.
Qed.

(** ** The empty batch *)

(** C9: for the empty batch [_run_in_parallel] returns [None] (success)
    whatever the clock and the fuel, that is without entering the polling
    loop: nothing is polled, slept, terminated or reported. *)
Theorem run_empty_batch wall fuel :
  _run_in_parallel wall fuel [] = (Return None, [], []).
Proof. destruct fuel; reflexivity. Qed.

(** ** A failure that only the second sweep sees *)

(** C1: a single task that is still running at the checking sweep of the
    first iteration and has exited with status 1 by the second sweep of the
    same iteration.  The second sweep records the exit status, nothing is
    left running, the loop ends and the supervisor returns [None]: the
    failure is observed, no [terminate] is sent and no error code is
    returned. *)
Theorem late_failure_goes_unreported wall fuel :
  exists tr,
    _run_in_parallel wall (S fuel) [launcher (exits_at 3 1)]
    = (Return None, [mkPopen (exits_at 3 1) (Some 1%Z) 0], tr)
    /\ terminate_calls 0 tr = 0
    /\ count_failed [mkPopen (exits_at 3 1) (Some 1%Z) 0] = 1.
Proof.
  unfold _run_in_parallel. cbn [launch_all launcher app].
  change (count_running [spawn (exits_at 3 1)]) with 1.
  rewrite supervise_step by discriminate. cbn zeta.
  change (existsb has_failed (polled 2 [spawn (exits_at 3 1)])) with false.
  cbn [orb].
  change (polled (2 + length [spawn (exits_at 3 1)])
            (polled 2 [spawn (exits_at 3 1)]))
    with [mkPopen (exits_at 3 1) (Some 1%Z) 0].
  change (count_running [mkPopen (exits_at 3 1) (Some 1%Z) 0]) with 0.
  rewrite supervise_done. cbn [terminate_running returncode].
  eexists. split; [reflexivity|]. split; [|reflexivity].
  rewrite terminate_calls_cons, !terminate_calls_app, terminate_calls_report.
  reflexivity.
Qed.

(** When it is the checking sweep that sees a failed handle, [terminate] is
    called on every handle in that same iteration and the loop ends with the
    error code without waiting. *)
Lemma checked_failure_terminates_all
    wall fuel procs remaining next_print now reads :
  remaining <> 0 ->
  existsb has_failed (polled (S now) procs) = true ->
  exists evs,
    supervise wall (S fuel) procs false remaining next_print now reads
    = (Done (Some 1%Z), terminated (S now + length procs) (polled (S now) procs),
       S now + length procs + length procs, evs)
    /\ forall i, i < length procs -> terminate_calls i evs = 1.
Proof.
  intros Hrem Hfailed. rewrite (supervise_step _ _ _ _ _ _ _ _ Hrem). cbn zeta.
  rewrite Hfailed. cbn [orb]. eexists. split; [reflexivity|].
  intros i Hi.
  rewrite terminate_calls_app, terminate_calls_report, terminate_calls_cons.
  rewrite terminate_calls_app, terminate_calls_polls, terminate_calls_cons.
  rewrite terminate_calls_app, terminate_calls_sweep. simpl.
  destruct (Nat.ltb_spec i (length procs)); [reflexivity|lia].
Qed.

(** ** The returned code *)

Lemma existsb_failed_terminated procs : forall now,
  existsb has_failed procs = true ->
  existsb has_failed (terminated now procs) = true.
Proof.
  induction procs as [|p ps IH]; intros now; simpl; [discriminate|].
  intros H. apply orb_true_iff in H. apply orb_true_iff.
  destruct H as [H|H]; [left; now apply has_failed_terminate|right; now apply IH].
Qed.

Lemma existsb_failed_cleaned procs : forall now,
  existsb has_failed procs = true ->
  existsb has_failed (cleaned now procs) = true.
Proof.
  induction procs as [|p ps IH]; intros now; simpl; [discriminate|].
  intros H. apply orb_true_iff in H.
  destruct (returncode p) eqn:E; simpl; apply orb_true_iff.
  - destruct H as [H|H]; [now left|right; now apply IH].
  - destruct H as [H|H]; [|right; now apply IH].
    unfold has_failed in H. now rewrite E in H.
Qed.

Lemma count_failed_existsb procs :
  existsb has_failed procs = true -> 1 <= count_failed procs.
Proof.
  unfold count_failed. induction procs as [|p ps IH]; simpl; [discriminate|].
  destruct (has_failed p); simpl; [lia|exact IH].
Qed.

(** The loop ends without a code only when nothing is left running, and with
    a code only with a failed handle in hand; the code is then 1. *)
Lemma supervise_code wall fuel procs next_print now reads exit procs' now' evs :
  supervise wall fuel procs false (count_running procs) next_print now reads
  = (exit, procs', now', evs) ->
  match exit with
  | Done None => count_running procs' = 0
  | Done (Some code) => code = 1%Z /\ existsb has_failed procs' = true
  | Iterating => True
  end.
Proof.
  apply (supervise_rule wall (fun _ _ exit procs' _ =>
    match exit with
    | Done None => count_running procs' = 0
    | Done (Some code) => code = 1%Z /\ existsb has_failed procs' = true
    | Iterating => True
    end)).
  - intros. assumption.
  - intros. exact I.
  - intros. split; [reflexivity|]. now apply existsb_failed_terminated.
  - intros ? ? ? ? ? ? _ _ H. exact H.
Qed.

Lemma failure_flag_done fuel procs failure now :
  failure_flag fuel procs failure 0 now = failure.
Proof. now destruct fuel. Qed.

Lemma failure_flag_step fuel procs failure remaining now :
  remaining <> 0 ->
  failure_flag (S fuel) procs failure remaining now
  = let n := length procs in
    let procs1 := polled (S now) procs in
    let failure1 := failure || existsb has_failed procs1 in
    if failure1 then true
    else
      let procs2 := polled (S now + n) procs1 in
      failure_flag fuel procs2 failure1 (count_running procs2) (S now + n + n).
Proof.
  intros Hrem. cbn zeta. cbn [failure_flag].
  destruct (Nat.eqb_spec remaining 0) as [|_]; [contradiction|].
  rewrite poll_and_check_eq.
  destruct (failure || existsb has_failed (polled (S now) procs)) eqn:F;
    [reflexivity|].
  rewrite poll_all_eq, ?length_polled. reflexivity.
Qed.

(** The loop ends with the error code exactly when [failure] was set. *)
Lemma supervise_failure_flag wall :
  forall fuel procs next_print now reads exit procs' now' evs,
  supervise wall fuel procs false (count_running procs) next_print now reads
  = (exit, procs', now', evs) ->
  failure_flag fuel procs false (count_running procs) now = true
  <-> exit = Done (Some 1%Z).
Proof.
  induction fuel as [|fuel IH];
    intros procs next_print now reads exit procs' now' evs H;
    (destruct (Nat.eq_dec (count_running procs) 0) as [E|E];
     [rewrite E, supervise_done in H; injection H as <- <- <- <-;
      rewrite E, failure_flag_done; split; discriminate|]).
  - rewrite (supervise_out _ _ _ _ _ _ _ E) in H. injection H as <- <- <- <-.
    simpl. destruct (Nat.eqb_spec (count_running procs) 0); split; discriminate.
  - rewrite (supervise_step _ _ _ _ _ _ _ _ E) in H. cbn zeta in H.
    rewrite (failure_flag_step _ _ _ _ _ E). cbn zeta.
    rewrite orb_false_l in *.
    destruct (existsb has_failed (polled (S now) procs)) eqn:F.
    + injection H as <- <- <- <-. split; reflexivity.
    + match type of H with
      | context [supervise wall fuel ?a ?b ?c ?d ?e ?f] =>
          destruct (supervise wall fuel a b c d e f)
            as [[[exit3 procs3] now4] evs3] eqn:R
      end.
      injection H as <- <- <- <-. exact (IH _ _ _ _ _ _ _ _ R).
Qed.

(** C2, as the code has it: in every run the failure flag is set exactly
    when [_run_in_parallel] returns the error code, which is the constant 1;
    at least one handle has then been observed with a non-zero exit status,
    and the code does not depend on how many tasks failed. *)
Theorem failure_code_is_one wall fuel calls o procs tr :
  _run_in_parallel wall fuel calls = (o, procs, tr) ->
  (failure_was_set fuel calls = true <-> o = Return (Some 1%Z))
  /\ (forall code,
        o = Return (Some code) -> code = 1%Z /\ 1 <= count_failed procs).
Proof.
  intros H. split.
  - revert H. unfold _run_in_parallel, failure_was_set.
    destruct (launch_all calls [] 0 0) as [[[ok procs0] now0] ev0].
    destruct ok.
    + destruct (supervise wall fuel procs0 false (count_running procs0)
                  (wall 0%nat + 15)%Q now0 1) as [[[exit procs1] now1] evs] eqn:R.
      rewrite (supervise_failure_flag _ _ _ _ _ _ _ _ _ _ R).
      destruct exit as [code|].
      * destruct (terminate_running procs1 0 now1) as [[procs2 now2] ev2].
        intros [= <- _ _]. split; congruence.
      * intros [= <- _ _]. split; discriminate.
    + destruct (terminate_running procs0 0 now0) as [[procs1 now1] ev1].
      intros [= <- _ _]. split; discriminate.
  - intros code ->.
    destruct (run_cases _ _ _ _ _ _ H) as (procs0 & now0 & k & _ & C).
    destruct C as [(D & _)|(exit & procs1 & now1 & evs & np & reads & R & E & -> & _)];
      [discriminate|].
    pose proof (supervise_code _ _ _ _ _ _ _ _ _ _ R) as S.
    destruct exit as [[c|]|]; try discriminate E.
    injection E as ->. destruct S as [-> F]. split; [reflexivity|].
    apply count_failed_existsb. now apply existsb_failed_cleaned.
Qed.

Lemma failure_code_is_one_witness :
  (failure_was_set 1 [launcher (exits_at 0 1); launcher (exits_at 0 2)] = true
   <-> Return (Some 1%Z) = Return (Some 1%Z))
  /\ (forall code,
        Return (Some 1%Z) = Return (Some code) ->
        code = 1%Z
        /\ 1 <= count_failed [mkPopen (exits_at 0 1) (Some 1%Z) 0;
                              mkPopen (exits_at 0 2) (Some 2%Z) 0]).
Proof.
  apply (failure_code_is_one steady_clock 1
           [launcher (exits_at 0 1); launcher (exits_at 0 2)] _ _
           [EvCall 0; EvCall 1; EvSleep; EvPoll 0; EvPoll 1;
            EvStderr msg_failed; EvTerminate 0; EvTerminate 1;
            EvStderr msg_terminated]).
  reflexivity.
Defined.

(** C2, as the specification has it, fails: two tasks exit with a non-zero
    status, and the value returned is 1, not 2. *)
Lemma two_failures_one_code :
  exists procs tr,
    _run_in_parallel steady_clock 1
      [launcher (exits_at 0 1); launcher (exits_at 0 2)]
    = (Return (Some 1%Z), procs, tr)
    /\ count_failed procs = 2
    /\ 1%Z <> Z.of_nat (count_failed procs).
Proof.
  eexists. eexists. split; [reflexivity|]. split; [reflexivity|discriminate].
Qed.

(** ** Cancelling a handle *)

(** C8, as the code has it: on a handle whose exit status has been observed,
    [terminate] changes nothing, however often it is called, and the guarded
    cancel of the [finally] block does not even call it. *)
Theorem terminate_terminal_handle now p code :
  returncode p = Some code ->
  terminate now p = p
  /\ (forall now', terminate now' (terminate now p) = p)
  /\ (forall i, terminate_running [p] i now = ([p], now, [])).
Proof.
  intros H. pose proof (terminate_terminal now p code H) as T.
  split; [exact T|]. split.
  - intros now'. rewrite T. exact (terminate_terminal now' p code H).
  - intros i. simpl. now rewrite H.
Qed.

Lemma terminate_terminal_handle_witness :
  terminate 7 (mkPopen (exits_at 0 1) (Some 1%Z) 0)
  = mkPopen (exits_at 0 1) (Some 1%Z) 0
  /\ (forall now', terminate now' (terminate 7 (mkPopen (exits_at 0 1) (Some 1%Z) 0))
                   = mkPopen (exits_at 0 1) (Some 1%Z) 0)
  /\ (forall i, terminate_running [mkPopen (exits_at 0 1) (Some 1%Z) 0] i 7
                = ([mkPopen (exits_at 0 1) (Some 1%Z) 0], 7, [])).
Proof.
  apply (terminate_terminal_handle 7 (mkPopen (exits_at 0 1) (Some 1%Z) 0) 1%Z).
  reflexivity.
Defined.

(** On a handle whose child is still running at both calls, each call of
    [terminate] sends a signal. *)
Lemma terminate_twice_running now1 now2 p :
  returncode p = None ->
  child p now1 (sigterms p) = None ->
  child p now2 (S (sigterms p)) = None ->
  sigterms (terminate now1 p) = S (sigterms p)
  /\ sigterms (terminate now2 (terminate now1 p)) = S (S (sigterms p)).
Proof.
  intros R C1 C2. unfold terminate, poll. rewrite R. simpl. rewrite C1. simpl.
  rewrite C2. simpl. split; reflexivity.
Qed.

(** C8, as the specification has it, fails: the second [terminate] on a
    handle whose child keeps running sends a second signal. *)
Lemma second_terminate_signals_again :
  sigterms (terminate 0 (spawn runs_forever)) = 1
  /\ sigterms (terminate 1 (terminate 0 (spawn runs_forever))) = 2
  /\ terminate 1 (terminate 0 (spawn runs_forever))
     <> terminate 0 (spawn runs_forever).
Proof.
  split; [reflexivity|]. split; [reflexivity|].
  intros H. apply (f_equal sigterms) in H. discriminate H.
Qed.

(** ** The environment of the test modules *)

Lemma env_get_set_same key value env :
  env_get key (env_set key value env) = Some value.
Proof.
  induction env as [|[k v] env IH]; simpl.
  - now rewrite String.eqb_refl.
  - destruct (String.eqb_spec k key) as [->|N]; simpl.
    + now rewrite String.eqb_refl.
    + destruct (String.eqb_spec k key); [contradiction|exact IH].
Qed.

Lemma env_get_set_other key key' value env :
  key <> key' -> env_get key (env_set key' value env) = env_get key env.
Proof.
  intros N. induction env as [|[k v] env IH]; simpl.
  - destruct (String.eqb_spec key' key); [now subst|reflexivity].
  - destruct (String.eqb_spec k key') as [->|N']; simpl.
    + destruct (String.eqb_spec key' key); [now subst|reflexivity].
    + destruct (String.eqb_spec k key); [reflexivity|exact IH].
Qed.

(** The test modules run in record mode, with the repository at the end of
    their [PYTHONPATH]. *)
Lemma test_env_record_mode os_environ pathsep our_repo :
  env_get AAS_RECORD_MODE (test_env os_environ pathsep our_repo) = Some "true"%string
  /\ env_get "PYTHONPATH" (test_env os_environ pathsep our_repo)
     = Some (match env_get "PYTHONPATH" os_environ with
             | None => our_repo
             | Some python_path => (python_path ++ pathsep ++ our_repo)%string
             end).
Proof.
  unfold test_env. split.
  - rewrite env_get_set_other by discriminate. apply env_get_set_same.
  - rewrite env_get_set_same. rewrite env_get_set_other by discriminate.
    reflexivity.
Qed.

(** ** The launchers of the test modules *)

(** C10: [_run_tests_and_rerecord] hands to the supervisor one launcher for
    each test module, in the order of the sorted modules, and each launcher
    calls [subprocess.Popen] on the module with [stdout] and [stderr] set to
    [DEVNULL], so that nothing a test module writes reaches the terminal.
    What the function does is then: its two announcements, the run of the
    supervisor over these launchers, and the duration when the run returned
    [None]; it ends as the run ends; and the run itself puts out nothing but
    the progress notifications and the two failure messages. *)
Theorem test_launchers_discard_output h fuel reading our_repo :
  let test_files := sorted_glob h (joinpath h our_repo "tests") "**/test_*.py" in
  let env := test_env (environ h) (pathsep h) our_repo in
  let calls := test_calls (popen h) (executable h) our_repo env test_files in
  Forall2 (fun pth (call : Callable) =>
             call tt
             = popen h (mkKwargs [executable h; pth] our_repo DEVNULL DEVNULL
                          "utf-8" env)
             /\ forall out err,
                  reaches_terminal DEVNULL out = []
                  /\ reaches_terminal DEVNULL err = [])
    test_files calls
  /\ exists o procs tr,
       _run_in_parallel (time_time h) fuel calls = (o, procs, tr)
       /\ fst (_run_tests_and_rerecord h fuel reading our_repo)
          = [Print "Running tests & re-recording the test traces...";
             Print ("Starting to run test modules:" ++ nl
                      ++ join ("," ++ nl) test_files)%string]
              ++ map (effect_of_event h) tr
              ++ match o with
                 | Return None =>
                     [Print ("Re-recording took: "
                               ++ format_2f h (perf_counter h (S reading)
                                               - perf_counter h reading)%Q
                               ++ " seconds.")%string]
                 | _ => []
                 end
       /\ snd (_run_tests_and_rerecord h fuel reading our_repo)
          = match o with
            | Return code => Returns code
            | Raise => Raises
            | StillRunning => Hangs
            end
       /\ Forall (supervisor_output h) (map (effect_of_event h) tr).
Proof.
  cbn zeta. split.
  - unfold test_calls.
    induction (sorted_glob h (joinpath h our_repo "tests") "**/test_*.py")
      as [|pth test_files IH]; cbn [map]; constructor; [|exact IH].
    split; [reflexivity|]. intros out err. split; reflexivity.
  - destruct (_run_in_parallel (time_time h) fuel
                (test_calls (popen h) (executable h) our_repo
                   (test_env (environ h) (pathsep h) our_repo)
                   (sorted_glob h (joinpath h our_repo "tests") "**/test_*.py")))
      as [[o procs] tr] eqn:R.
    exists o, procs, tr. split; [reflexivity|].
    unfold _run_tests_and_rerecord, supervised. cbn zeta. rewrite R.
    split; [|split].
    + destruct o as [[code|]| |]; cbn [print ret bind fst snd app];
        rewrite ?app_nil_r; reflexivity.
    + destruct o as [[code|]| |]; reflexivity.
    + pose proof (run_events _ _ _ _ _ _ R) as Hev. clear R.
      induction Hev as [|e tr' He _ IH]; cbn [map]; constructor; [|exact IH].
      destruct e as [i|remaining| |i|msg|i|i|i]; cbn in He |- *;
        try exact I; try exact He; try (elim He).
      now exists remaining.
Qed.

Lemma test_launchers_discard_output_witness :
  Forall2 (fun pth (call : Callable) =>
             call tt
             = popen example_host
                 (mkKwargs [executable example_host; pth] "/repo" DEVNULL DEVNULL
                    "utf-8"
                    (test_env (environ example_host) (pathsep example_host) "/repo"))
             /\ forall out err,
                  reaches_terminal DEVNULL out = []
                  /\ reaches_terminal DEVNULL err = [])
    ["/repo/tests/test_types.py"%string]
    (test_calls (popen example_host) (executable example_host) "/repo"
       (test_env (environ example_host) (pathsep example_host) "/repo")
       ["/repo/tests/test_types.py"%string]).
Proof.
  exact (proj1 (test_launchers_discard_output example_host 1 2 "/repo")).
Defined.

(** ** A launcher that fails *)

Lemma loop_free_map_call l : Forall (fun e => is_loop_event e = false) (map EvCall l).
Proof. apply Forall_map_event. reflexivity. Qed.

Lemma loop_free_map_terminate l :
  Forall (fun e => is_loop_event e = false) (map EvTerminate l).
Proof. apply Forall_map_event. reflexivity. Qed.

(** C6: when the launchers [pre] return handles and the next launcher
    raises, [_run_in_parallel] raises, whatever the fuel: the launchers were
    called in input order up to the failing one and none after it; no poll,
    sleep or report takes place; and [terminate] is called once on every
    handle launched so far whose exit status has not been observed. *)
Theorem launch_error_aborts wall fuel pre procs failing post :
  spawns pre procs -> failing tt = OSError ->
  exists tr,
    _run_in_parallel wall fuel (pre ++ failing :: post)
    = (Raise, cleaned (S (length pre)) procs, tr)
    /\ tr = map EvCall (seq 0 (S (length pre)))
              ++ map EvTerminate (running_indices 0 procs)
    /\ Forall (fun e => is_loop_event e = false) tr
    /\ forall i p, nth_error procs i = Some p ->
         terminate_calls i tr = if is_running p then 1 else 0.
Proof.
  intros Hpre Hfail. eexists. split; [|split; [reflexivity|split]].
  - unfold _run_in_parallel.
    rewrite (launch_all_fails pre procs failing post [] 0 0 Hpre Hfail).
    rewrite terminate_running_eq. reflexivity.
  - apply Forall_app; split; [apply loop_free_map_call|apply loop_free_map_terminate].
  - intros i p Hi. rewrite terminate_calls_app, terminate_calls_calls.
    rewrite terminate_calls_finally, Hi. reflexivity.
Qed.

Lemma launch_error_aborts_witness :
  exists tr,
    _run_in_parallel steady_clock 0
      ([launcher runs_forever; launcher (exits_at 9 0)]
         ++ failing_launcher :: [launcher runs_forever])
    = (Raise, cleaned 3 [spawn runs_forever; spawn (exits_at 9 0)], tr)
    /\ tr = map EvCall (seq 0 3)
              ++ map EvTerminate
                   (running_indices 0 [spawn runs_forever; spawn (exits_at 9 0)])
    /\ Forall (fun e => is_loop_event e = false) tr
    /\ forall i p,
         nth_error [spawn runs_forever; spawn (exits_at 9 0)] i = Some p ->
         terminate_calls i tr = if is_running p then 1 else 0.
Proof.
  apply (launch_error_aborts steady_clock 0
           [launcher runs_forever; launcher (exits_at 9 0)]
           [spawn runs_forever; spawn (exits_at 9 0)]
           failing_launcher [launcher runs_forever]).
  - repeat constructor.
  - reflexivity.
Defined.

(** ** The remaining count *)

Lemma count_running_le_length procs : count_running procs <= length procs.
Proof. apply filter_length_le. Qed.

Lemma count_running_polled procs : forall now,
  count_running (polled now procs) <= count_running procs.
Proof.
  unfold count_running. induction procs as [|p ps IH]; intros now; simpl; [lia|].
  specialize (IH (S now)).
  destruct (is_running (poll now p)) eqn:E.
  - rewrite (is_running_poll now p E). simpl. lia.
  - destruct (is_running p); simpl; lia.
Qed.

Lemma status_updates_report due n :
  status_updates (report_events due n) = if due then [n] else [].
Proof. now destruct due. Qed.

Lemma status_updates_polls l : status_updates (map EvPoll l) = [].
Proof. induction l; simpl; auto. Qed.

Lemma status_updates_terminates l : status_updates (map EvTerminate l) = [].
Proof. induction l; simpl; auto. Qed.

Lemma status_updates_calls l : status_updates (map EvCall l) = [].
Proof. induction l; simpl; auto. Qed.

Lemma status_updates_finally exit procs :
  status_updates (finally_events exit procs) = [].
Proof. destruct exit; [apply status_updates_terminates|reflexivity]. Qed.

(** Within the loop, whether it has ended or not, every reported count is at
    most the number of handles that were running when the loop was entered,
    and the counts never go up. *)
Lemma supervise_status_updates
    wall fuel procs next_print now reads exit procs' now' evs :
  supervise wall fuel procs false (count_running procs) next_print now reads
  = (exit, procs', now', evs) ->
  Forall (fun r => r <= count_running procs) (status_updates evs)
  /\ StronglySorted ge (status_updates evs).
Proof.
  apply (supervise_rule wall (fun procs _ _ _ evs =>
    Forall (fun r => r <= count_running procs) (status_updates evs)
    /\ StronglySorted ge (status_updates evs))).
  - intros. split; constructor.
  - intros. split; constructor.
  - intros procs0 now0 due _ _.
    rewrite status_updates_app, status_updates_report. simpl.
    rewrite status_updates_app, status_updates_polls. simpl.
    rewrite status_updates_app, status_updates_terminates. simpl.
    rewrite app_nil_r. destruct due; split; repeat constructor.
  - intros procs0 now0 due exit0 procs0' evs0 _ _ [Hle Hsorted].
    rewrite status_updates_app, status_updates_report. simpl.
    rewrite !status_updates_app, !status_updates_polls. simpl.
    assert (Hle' : Forall (fun r => r <= count_running procs0) (status_updates evs0)).
    { eapply Forall_impl; [|exact Hle]. intros r Hr. cbv beta in Hr.
      pose proof (count_running_polled (polled (S now0) procs0)
                    (S now0 + length procs0)).
      pose proof (count_running_polled procs0 (S now0)). lia. }
    destruct due; simpl; split; try assumption.
    + constructor; [lia|assumption].
    + constructor; assumption.
Qed.

(** C7: in a run over [n] launchers, followed for any number of iterations
    and whether it has ended or not, the counts handed to [on_status_update]
    are all at most [n], and each is at least every count reported after
    it. *)
Theorem remaining_count_never_increases wall fuel calls o procs tr :
  _run_in_parallel wall fuel calls = (o, procs, tr) ->
  Forall (fun r => r <= length calls) (status_updates tr)
  /\ StronglySorted ge (status_updates tr).
Proof.
  intros H. destruct (run_cases _ _ _ _ _ _ H) as (procs0 & now0 & k & Hlen & C).
  destruct C as [(_ & _ & ->)|(exit & procs1 & now1 & evs & np & reads & R & _ & _ & ->)].
  - rewrite status_updates_app, status_updates_calls, status_updates_terminates.
    split; constructor.
  - rewrite !status_updates_app, status_updates_calls, status_updates_finally.
    rewrite app_nil_r. simpl.
    destruct (supervise_status_updates _ _ _ _ _ _ _ _ _ _ R) as [Hle Hsorted].
    split; [|exact Hsorted].
    eapply Forall_impl; [|exact Hle]. intros r Hr. cbv beta in Hr.
    pose proof (count_running_le_length procs0). lia.
Qed.

Lemma remaining_count_never_increases_witness :
  Forall (fun r => r <= 2) [2; 1; 1] /\ StronglySorted ge [2; 1; 1].
Proof.
  exact (remaining_count_never_increases coarse_clock 3
           [launcher (exits_at 12 0); launcher (exits_at 6 0)]
           (Return None)
           [mkPopen (exits_at 12 0) (Some 0%Z) 0; mkPopen (exits_at 6 0) (Some 0%Z) 0]
           [EvCall 0; EvCall 1; EvStatusUpdate 2; EvSleep;
            EvPoll 0; EvPoll 1; EvPoll 0; EvPoll 1;
            EvStatusUpdate 1; EvSleep; EvPoll 0; EvPoll 1;
            EvPoll 0; EvPoll 1; EvStatusUpdate 1; EvSleep;
            EvPoll 0; EvPoll 1; EvPoll 0; EvPoll 1]
           eq_refl).
Defined.

(** ** What is left behind *)

Lemma count_running_zero procs :
  count_running procs = 0 -> Forall (fun p => returncode p <> None) procs.
Proof.
  unfold count_running. induction procs as [|p ps IH]; simpl; [constructor|].
  unfold is_running at 1. destruct (returncode p) eqn:E; simpl; [|discriminate].
  intros H. constructor; [now rewrite E|now apply IH].
Qed.

Lemma cleaned_terminal procs : forall now,
  Forall (fun p => returncode p <> None) procs -> cleaned now procs = procs.
Proof.
  induction procs as [|p ps IH]; intros now H; [reflexivity|].
  inversion H as [|? ? Hp Hps]; subst. simpl.
  destruct (returncode p); [|now elim Hp]. now rewrite IH.
Qed.

Lemma cleaned_handle now procs i p :
  nth_error (cleaned now procs) i = Some p ->
  returncode p <> None
  \/ 1 <= terminate_calls i (map EvTerminate (running_indices 0 procs)).
Proof.
  intros H. rewrite terminate_calls_finally.
  destruct (nth_error procs i) as [q|] eqn:E.
  - rewrite (nth_error_cleaned procs now i q E) in H. injection H as <-.
    unfold is_running. destruct (returncode q) eqn:Eq; [left; now rewrite Eq|right; lia].
  - apply nth_error_None in E. rewrite <- (length_cleaned now) in E.
    apply nth_error_None in E. congruence.
Qed.

(** C4, as the code has it: when a call of [_run_in_parallel] completes, by
    a return or by the exception of a launcher, every handle either has its
    exit status observed or has had [terminate] called on it; after a return
    of [None] every exit status has been observed; and the supervisor never
    kills a child nor waits for one. *)
Theorem handles_observed_or_terminated wall fuel calls o procs tr :
  _run_in_parallel wall fuel calls = (o, procs, tr) ->
  o <> StillRunning ->
  (forall i p, nth_error procs i = Some p ->
     returncode p <> None \/ 1 <= terminate_calls i tr)
  /\ (o = Return None -> Forall (fun p => returncode p <> None) procs)
  /\ Forall (fun e => is_kill_or_wait e = false) tr.
Proof.
  intros H Hended. split; [|split].
  - destruct (run_cases _ _ _ _ _ _ H) as (procs0 & now0 & k & _ & C).
    intros i p Hi.
    destruct C as [(_ & -> & ->)|(exit & procs1 & now1 & evs & np & reads & _ & -> & -> & ->)].
    + destruct (cleaned_handle _ _ _ _ Hi) as [D|D]; [now left|right].
      rewrite !terminate_calls_app; lia.
    + destruct exit as [code|]; [|now elim Hended].
      destruct (cleaned_handle _ _ _ _ Hi) as [D|D]; [now left|right].
      simpl. rewrite !terminate_calls_app; lia.
  - destruct (run_cases _ _ _ _ _ _ H) as (procs0 & now0 & k & _ & C).
    intros ->.
    destruct C as [(D & _)|(exit & procs1 & now1 & evs & np & reads & R & E & -> & _)];
      [discriminate|].
    pose proof (supervise_code _ _ _ _ _ _ _ _ _ _ R) as Z.
    destruct exit as [[c|]|]; try discriminate E.
    apply count_running_zero in Z. simpl. now rewrite (cleaned_terminal _ _ Z).
  - apply supervisor_event_no_kill. exact (run_events _ _ _ _ _ _ H).
Qed.

Lemma handles_observed_or_terminated_witness :
  (forall i p,
     nth_error [mkPopen runs_forever None 2; mkPopen (exits_at 0 1) (Some 1%Z) 0] i
     = Some p ->
     returncode p <> None
     \/ 1 <= terminate_calls i
               [EvCall 0; EvCall 1; EvSleep; EvPoll 0; EvPoll 1;
                EvStderr msg_failed; EvTerminate 0; EvTerminate 1;
                EvStderr msg_terminated; EvTerminate 0])
  /\ (Return (Some 1%Z) = Return None ->
      Forall (fun p => returncode p <> None)
        [mkPopen runs_forever None 2; mkPopen (exits_at 0 1) (Some 1%Z) 0])
  /\ Forall (fun e => is_kill_or_wait e = false)
       [EvCall 0; EvCall 1; EvSleep; EvPoll 0; EvPoll 1;
        EvStderr msg_failed; EvTerminate 0; EvTerminate 1;
        EvStderr msg_terminated; EvTerminate 0].
Proof.
  apply (handles_observed_or_terminated steady_clock 1
           [launcher runs_forever; launcher (exits_at 0 1)]
           (Return (Some 1%Z))
           [mkPopen runs_forever None 2; mkPopen (exits_at 0 1) (Some 1%Z) 0]
           [EvCall 0; EvCall 1; EvSleep; EvPoll 0; EvPoll 1;
            EvStderr msg_failed; EvTerminate 0; EvTerminate 1;
            EvStderr msg_terminated; EvTerminate 0]).
  - reflexivity.
  - discriminate.
Defined.

(** C4, as the specification has it, fails: after one task has failed, the
    supervisor returns while the handle of a sibling that ignores SIGTERM has
    no exit status and its child is still running, and it has neither killed
    it nor waited for it. *)
Lemma sibling_left_running :
  exists p rest tr,
    _run_in_parallel steady_clock 1 [launcher runs_forever; launcher (exits_at 0 1)]
    = (Return (Some 1%Z), p :: rest, tr)
    /\ returncode p = None
    /\ (forall now s, child p now s = None)
    /\ Forall (fun e => is_kill_or_wait e = false) tr.
Proof.
  eexists. eexists. eexists. split; [reflexivity|].
  split; [reflexivity|]. split; [reflexivity|].
  repeat constructor.
Qed.

(** ** Cancellation and the end of the run *)

Lemma supervise_terminate_calls
    wall fuel procs next_print now reads exit procs' now' evs :
  supervise wall fuel procs false (count_running procs) next_print now reads
  = (exit, procs', now', evs) ->
  forall i, terminate_calls i evs
            = match exit with
              | Done (Some _) => if i <? length procs then 1 else 0
              | _ => 0
              end.
Proof.
  apply (supervise_rule wall (fun procs _ exit _ evs =>
    forall i, terminate_calls i evs
              = match exit with
                | Done (Some _) => if i <? length procs then 1 else 0
                | _ => 0
                end)).
  - reflexivity.
  - reflexivity.
  - intros procs0 now0 due _ _ i.
    rewrite terminate_calls_app, terminate_calls_report, terminate_calls_cons.
    rewrite terminate_calls_app, terminate_calls_polls, terminate_calls_cons.
    rewrite terminate_calls_app, terminate_calls_sweep. simpl.
    destruct (i <? length procs0); reflexivity.
  - intros procs0 now0 due exit0 procs0' evs0 _ _ IH i.
    rewrite terminate_calls_app, terminate_calls_report, terminate_calls_cons.
    rewrite !terminate_calls_app, !terminate_calls_polls. simpl.
    rewrite IH, !length_polled. reflexivity.
Qed.

Lemma terminate_calls_finally_le exit procs i :
  terminate_calls i (finally_events exit procs) <= 1.
Proof.
  destruct exit; simpl; [|unfold terminate_calls; simpl; lia].
  rewrite terminate_calls_finally.
  destruct (nth_error procs i) as [p|]; [destruct (is_running p)|]; lia.
Qed.

Lemma run_terminate_calls wall fuel calls o procs tr i :
  _run_in_parallel wall fuel calls = (o, procs, tr) ->
  terminate_calls i tr <= 2.
Proof.
  intros H. destruct (run_cases _ _ _ _ _ _ H) as (procs0 & now0 & k & _ & C).
  destruct C as [(_ & _ & ->)|(exit & procs1 & now1 & evs & np & reads & R & _ & _ & ->)];
    rewrite !terminate_calls_app, terminate_calls_calls.
  - pose proof (terminate_calls_finally_le (Done None) procs0 i) as F.
    simpl in F. lia.
  - rewrite (supervise_terminate_calls _ _ _ _ _ _ _ _ _ _ R).
    pose proof (terminate_calls_finally_le exit procs1 i).
    destruct exit as [[c|]|]; [destruct (i <? length procs0)| |]; lia.
Qed.

Lemma exits_by_polled T procs : forall now,
  Forall (fun p => exits_by T (child p)) procs ->
  Forall (fun p => exits_by T (child p)) (polled now procs).
Proof.
  induction procs as [|p ps IH]; intros now H; [constructor|].
  inversion H; subst. simpl. constructor; [now rewrite child_poll|now apply IH].
Qed.

Lemma count_running_exited T procs : forall now,
  Forall (fun p => exits_by T (child p)) procs -> T <= now ->
  count_running (polled now procs) = 0.
Proof.
  unfold count_running.
  induction procs as [|p ps IH]; intros now H Hle; [reflexivity|].
  inversion H; subst. simpl. rewrite (poll_exited T now p) by assumption.
  apply IH; [assumption|lia].
Qed.

(** Once every child has exited, one more iteration ends the loop. *)
Lemma supervise_terminates wall T : forall fuel procs next_print now reads,
  Forall (fun p => exits_by T (child p)) procs ->
  T <= S now + fuel ->
  exists code procs' now' evs,
    supervise wall (S fuel) procs false (count_running procs) next_print now reads
    = (Done code, procs', now', evs).
Proof.
  induction fuel as [|fuel IH]; intros procs next_print now reads Hex Hle;
    (destruct (Nat.eq_dec (count_running procs) 0) as [E|E];
     [rewrite E, supervise_done; now repeat eexists|]);
    rewrite (supervise_step _ _ _ _ _ _ _ _ E); cbn zeta; rewrite orb_false_l;
    (destruct (existsb has_failed (polled (S now) procs)); [now repeat eexists|]).
  - assert (Z : count_running (polled (S now + length procs) (polled (S now) procs)) = 0).
    { pose proof (count_running_polled (polled (S now) procs) (S now + length procs)).
      rewrite (count_running_exited T procs (S now)) in H by (assumption || lia).
      lia. }
    rewrite Z, supervise_done. now repeat eexists.
  - destruct (IH (polled (S now + length procs) (polled (S now) procs))
                (if Qlt_bool next_print (wall reads)
                 then (wall (S reads) + 15)%Q else next_print)
                (S now + length procs + length procs)
                (if Qlt_bool next_print (wall reads) then S (S reads) else S reads))
      as (code & procs3 & now4 & evs & R).
    + now apply exits_by_polled, exits_by_polled.
    + lia.
    + rewrite R. now repeat eexists.
Qed.

(** A lone task that never exits keeps the loop going for ever. *)
Lemma supervise_runs_forever wall : forall fuel next_print now reads,
  exists now' evs,
    supervise wall fuel [spawn runs_forever] false 1 next_print now reads
    = (Iterating, [spawn runs_forever], now', evs).
Proof.
  induction fuel as [|fuel IH]; intros next_print now reads;
    [now repeat eexists|].
  rewrite supervise_step by discriminate. cbn zeta.
  change (false || existsb has_failed (polled (S now) [spawn runs_forever]))
    with false.
  cbv iota.
  change (polled (S now + length [spawn runs_forever])
            (polled (S now) [spawn runs_forever]))
    with [spawn runs_forever].
  change (count_running [spawn runs_forever]) with 1.
  destruct (IH (if Qlt_bool next_print (wall reads)
                then (wall (S reads) + 15)%Q else next_print)
              (S now + length [spawn runs_forever] + length [spawn runs_forever])
              (if Qlt_bool next_print (wall reads) then S (S reads) else S reads))
    as (now' & evs & ->).
  now repeat eexists.
Qed.

(** ** One task fails, the others keep running *)

Lemma poll_failing T now p :
  never_succeeds (child p) ->
  returncode p = None \/ has_failed p = true ->
  (returncode (poll now p) = None \/ has_failed (poll now p) = true)
  /\ (exits_by T (child p) -> T <= now -> has_failed (poll now p) = true).
Proof.
  intros Hns [Hr|Hf].
  - unfold poll, has_failed. rewrite Hr. simpl.
    pose proof (Hns now (sigterms p)) as N.
    split.
    + destruct (child p now (sigterms p)) as [code|]; [right|now left].
      destruct (Z.eqb_spec code 0); [subst; now elim N|reflexivity].
    + intros Hex Hle. pose proof (Hex now (sigterms p) Hle) as E.
      destruct (child p now (sigterms p)) as [code|]; [|now elim E].
      destruct (Z.eqb_spec code 0); [subst; now elim N|reflexivity].
  - split; [right|intros _ _]; now apply has_failed_poll.
Qed.

Lemma poll_runner now p :
  returncode p = None -> sigterms p = 0 -> runs_until_cancelled (child p) ->
  poll now p = p.
Proof.
  intros Hr Hs Hc. unfold poll. rewrite Hr, Hs, Hc. destruct p; simpl in *.
  now subst.
Qed.

Lemma terminate_runner now p :
  returncode p = None -> sigterms p = 0 -> runs_until_cancelled (child p) ->
  is_running (terminate now p) = true.
Proof.
  intros Hr Hs Hc. unfold terminate. rewrite (poll_runner now p Hr Hs Hc), Hr.
  reflexivity.
Qed.

Lemma one_failing_polled T j procs now :
  one_failing T j procs -> one_failing T j (polled now procs).
Proof.
  intros [(pj & Hj & Hns & Hex & Hst) Hothers]. split.
  - exists (poll (now + j) pj). rewrite nth_error_polled, Hj, child_poll.
    repeat split; try assumption.
    now apply (poll_failing T (now + j) pj Hns Hst).
  - intros i p Hi Hp. rewrite nth_error_polled in Hp.
    destruct (nth_error procs i) as [q|] eqn:E; [|discriminate].
    injection Hp as <-. destruct (Hothers i q Hi E) as (Hr & Hs & Hc).
    now rewrite (poll_runner _ q Hr Hs Hc).
Qed.

Lemma one_failing_observed T j procs now :
  one_failing T j procs -> T <= now + j ->
  existsb has_failed (polled now procs) = true.
Proof.
  intros [(pj & Hj & Hns & Hex & Hst) _] Hle.
  apply existsb_exists. exists (poll (now + j) pj). split.
  - apply (nth_error_In _ j). now rewrite nth_error_polled, Hj.
  - now apply (proj2 (poll_failing T (now + j) pj Hns Hst)).
Qed.

Lemma count_running_nth procs i p :
  nth_error procs i = Some p -> is_running p = true -> count_running procs <> 0.
Proof.
  intros Hn Hr. apply nth_error_In in Hn.
  assert (Hin : In p (filter is_running procs)) by (apply filter_In; now split).
  unfold count_running. destruct (filter is_running procs); [elim Hin|discriminate].
Qed.

Lemma one_failing_running T j procs :
  one_failing T j procs -> (exists i, i <> j /\ i < length procs) ->
  count_running procs <> 0.
Proof.
  intros [_ Hothers] (i & Hi & Hlt).
  destruct (nth_error procs i) as [p|] eqn:E;
    [|apply nth_error_None in E; lia].
  destruct (Hothers i p Hi E) as (Hr & _).
  apply (count_running_nth procs i p E). unfold is_running. now rewrite Hr.
Qed.

(** The loop ends with the error code, in an iteration whose checking sweep
    sees the failed task, and leaves the siblings without an exit status. *)
Lemma supervise_one_failing wall T j : forall fuel procs next_print now reads,
  one_failing T j procs -> (exists i, i <> j /\ i < length procs) ->
  T <= S now + j + fuel ->
  exists procs' now' evs,
    supervise wall (S fuel) procs false (count_running procs) next_print now reads
    = (Done (Some 1%Z), procs', now', evs)
    /\ forall i p, i <> j -> nth_error procs' i = Some p -> is_running p = true.
Proof.
  assert (Hterm : forall procs now,
            one_failing T j procs ->
            forall i p, i <> j ->
              nth_error (terminated (S now + length procs) (polled (S now) procs)) i
              = Some p -> is_running p = true).
  { intros procs now H i p Hi Hp.
    destruct (one_failing_polled T j procs (S now) H) as [_ Hothers].
    rewrite nth_error_terminated in Hp.
    destruct (nth_error (polled (S now) procs) i) as [q|] eqn:E; [|discriminate].
    injection Hp as <-. destruct (Hothers i q Hi E) as (Hr & Hs & Hc).
    now apply terminate_runner. }
  induction fuel as [|fuel IH]; intros procs next_print now reads H Hsib Hle;
    rewrite (supervise_step _ _ _ _ _ _ _ _ (one_failing_running T j procs H Hsib));
    cbn zeta; rewrite orb_false_l.
  - rewrite (one_failing_observed T j procs (S now) H) by lia.
    eexists. eexists. eexists. split; [reflexivity|]. now apply Hterm.
  - destruct (existsb has_failed (polled (S now) procs)).
    + eexists. eexists. eexists. split; [reflexivity|]. now apply Hterm.
    + destruct (IH (polled (S now + length procs) (polled (S now) procs))
                  (if Qlt_bool next_print (wall reads)
                   then (wall (S reads) + 15)%Q else next_print)
                  (S now + length procs + length procs)
                  (if Qlt_bool next_print (wall reads) then S (S reads) else S reads))
        as (procs' & now' & evs & R & Hrun).
      * now apply one_failing_polled, one_failing_polled.
      * now rewrite !length_polled.
      * lia.
      * rewrite R. eexists. eexists. eexists. split; [reflexivity|exact Hrun].
Qed.

Lemma one_failing_spawned T j children cj :
  nth_error children j = Some cj -> never_succeeds cj -> exits_by T cj ->
  (forall i c, i <> j -> nth_error children i = Some c -> runs_until_cancelled c) ->
  one_failing T j (map spawn children).
Proof.
  intros Hj Hns Hex Hothers. split.
  - exists (spawn cj). rewrite nth_error_map, Hj. repeat split; try assumption.
    now left.
  - intros i p Hi Hp. rewrite nth_error_map in Hp.
    destruct (nth_error children i) as [c|] eqn:E; [|discriminate].
    injection Hp as <-. repeat split. exact (Hothers i c Hi E).
Qed.

(** C3, as the code has it: in a batch with at least two tasks in which one
    task never succeeds and has exited by tick [T], and every other task
    keeps running until it is cancelled, [terminate] is called exactly twice
    on the handle of every other task (once in the failure branch and once in
    the [finally] block), and the supervisor returns the error code 1. *)
Theorem one_failure_terminates_siblings_twice wall calls children j cj T :
  spawns calls (map spawn children) ->
  nth_error children j = Some cj -> never_succeeds cj -> exits_by T cj ->
  (forall i c, i <> j -> nth_error children i = Some c -> runs_until_cancelled c) ->
  (exists i, i <> j /\ i < length children) ->
  exists procs tr,
    _run_in_parallel wall (S T) calls = (Return (Some 1%Z), procs, tr)
    /\ forall i, i <> j -> i < length children -> terminate_calls i tr = 2.
Proof.
  intros Hsp Hj Hns Hex Hothers Hsib.
  pose proof (one_failing_spawned T j children cj Hj Hns Hex Hothers) as Hone.
  assert (Hsib' : exists i, i <> j /\ i < length (map spawn children))
    by now rewrite length_map.
  unfold _run_in_parallel.
  rewrite (launch_all_spawns calls (map spawn children) [] 0 0 Hsp). cbn [app].
  destruct (supervise_one_failing wall T j T (map spawn children)
              (wall 0%nat + 15)%Q (0 + length calls) 1 Hone Hsib')
    as (procs' & now' & evs & R & Hrun); [lia|].
  rewrite R, terminate_running_eq. eexists. eexists. split; [reflexivity|].
  intros i Hi Hlt.
  rewrite !terminate_calls_app, terminate_calls_calls, terminate_calls_finally.
  rewrite (supervise_terminate_calls _ _ _ _ _ _ _ _ _ _ R i), length_map.
  destruct (Nat.ltb_spec i (length children)); [|lia].
  pose proof (supervise_length _ _ _ _ _ _ _ _ _ _ R) as Hlen.
  rewrite length_map in Hlen.
  destruct (nth_error procs' i) as [p|] eqn:E;
    [|apply nth_error_None in E; lia].
  now rewrite (Hrun i p Hi E).
Qed.

Lemma one_failure_terminates_siblings_twice_witness :
  exists procs tr,
    _run_in_parallel steady_clock 1 [launcher until_sigterm; launcher (exits_at 0 1)]
    = (Return (Some 1%Z), procs, tr)
    /\ forall i, i <> 1 -> i < 2 -> terminate_calls i tr = 2.
Proof.
  apply (one_failure_terminates_siblings_twice steady_clock
           [launcher until_sigterm; launcher (exits_at 0 1)]
           [until_sigterm; exits_at 0 1] 1 (exits_at 0 1) 0).
  - repeat constructor.
  - reflexivity.
  - intros now s. discriminate.
  - intros now s _. discriminate.
  - intros [|[|i]] c Hi Hc; [|lia|destruct i; discriminate].
    injection Hc as <-. intros now. reflexivity.
  - exists 0. split; [discriminate|simpl; lia].
Defined.

(** C3, as the specification has it, fails: with one failed task and one
    sibling that runs until it is cancelled, [terminate] is called on the
    sibling's handle twice, not once. *)
Lemma sibling_terminated_twice :
  exists procs tr,
    _run_in_parallel steady_clock 1 [launcher until_sigterm; launcher (exits_at 0 1)]
    = (Return (Some 1%Z), procs, tr)
    /\ terminate_calls 0 tr = 2
    /\ terminate_calls 0 tr <> 1.
Proof.
  eexists. eexists. split; [reflexivity|]. split; [reflexivity|discriminate].
Qed.

(** ** Cancellation and the return of the call *)

(** A task that never succeeds and has exited by tick [T] ends the loop
    within [T + 1] iterations, whatever the other tasks do: either the
    checking sweep sees its exit status, or nothing is left running. *)
Lemma supervise_returns_after_failure wall T j :
  forall fuel procs next_print now reads pj,
  nth_error procs j = Some pj ->
  never_succeeds (child pj) -> exits_by T (child pj) ->
  returncode pj = None \/ has_failed pj = true ->
  T <= S now + fuel ->
  exists code procs' now' evs,
    supervise wall (S fuel) procs false (count_running procs) next_print now reads
    = (Done code, procs', now', evs).
Proof.
  induction fuel as [|fuel IH]; intros procs next_print now reads pj Hj Hns Hex Hst Hle;
    (destruct (Nat.eq_dec (count_running procs) 0) as [E|E];
     [rewrite E, supervise_done; now repeat eexists|]);
    rewrite (supervise_step _ _ _ _ _ _ _ _ E); cbn zeta; rewrite orb_false_l;
    (destruct (existsb has_failed (polled (S now) procs)) eqn:F;
     [now repeat eexists|]).
  - exfalso.
    assert (Hf : existsb has_failed (polled (S now) procs) = true).
    { apply existsb_exists. exists (poll (S now + j) pj). split.
      - apply (nth_error_In _ j). now rewrite nth_error_polled, Hj.
      - apply (proj2 (poll_failing T (S now + j) pj Hns Hst)); [exact Hex|lia]. }
    congruence.
  - destruct (IH (polled (S now + length procs) (polled (S now) procs))
                (if Qlt_bool next_print (wall reads)
                 then (wall (S reads) + 15)%Q else next_print)
                (S now + length procs + length procs)
                (if Qlt_bool next_print (wall reads) then S (S reads) else S reads)
                (poll (S now + length procs + j) (poll (S now + j) pj)))
      as (code & procs3 & now4 & evs & R).
    + now rewrite !nth_error_polled, Hj.
    + now rewrite !child_poll.
    + now rewrite !child_poll.
    + apply (poll_failing T); [now rewrite child_poll|].
      now apply (poll_failing T).
    + lia.
    + rewrite R. now repeat eexists.
Qed.

(** C5, as the code has it: in every run, ended or not, [terminate] is
    called at most twice on a handle (once in the failure branch and once in
    the [finally] block) and no child is ever killed or waited for.  The call
    returns all the same: within [T + 1] iterations when every child has
    exited by tick [T], and also when one task never exits with 0 and has
    exited by tick [T], whatever the other tasks do, those that ignore the
    termination request included. *)
Theorem cancellation_without_escalation wall calls :
  (forall fuel o procs tr,
     _run_in_parallel wall fuel calls = (o, procs, tr) ->
     (forall i, terminate_calls i tr <= 2)
     /\ Forall (fun e => is_kill_or_wait e = false) tr)
  /\ (forall procs T,
        spawns calls procs ->
        Forall (fun p => exits_by T (child p)) procs ->
        exists code procs' tr,
          _run_in_parallel wall (S T) calls = (Return code, procs', tr))
  /\ (forall procs T j pj,
        spawns calls procs ->
        nth_error procs j = Some pj ->
        returncode pj = None ->
        never_succeeds (child pj) -> exits_by T (child pj) ->
        exists code procs' tr,
          _run_in_parallel wall (S T) calls = (Return code, procs', tr)).
Proof.
  split; [|split].
  - intros fuel o procs tr H. split.
    + intros i. exact (run_terminate_calls _ _ _ _ _ _ i H).
    + apply supervisor_event_no_kill. exact (run_events _ _ _ _ _ _ H).
  - intros procs T Hsp Hex. unfold _run_in_parallel.
    rewrite (launch_all_spawns calls procs [] 0 0 Hsp). cbn [app].
    destruct (supervise_terminates wall T T procs (wall 0%nat + 15)%Q
                (0 + length calls) 1 Hex) as (code & procs1 & now1 & evs & R); [lia|].
    rewrite R, terminate_running_eq. now repeat eexists.
  - intros procs T j pj Hsp Hj Hr Hns Hex. unfold _run_in_parallel.
    rewrite (launch_all_spawns calls procs [] 0 0 Hsp). cbn [app].
    destruct (supervise_returns_after_failure wall T j T procs
                (wall 0%nat + 15)%Q (0 + length calls) 1 pj Hj Hns Hex)
      as (code & procs1 & now1 & evs & R); [now left|lia|].
    rewrite R, terminate_running_eq. now repeat eexists.
Qed.

Lemma cancellation_without_escalation_witness :
  exists code procs' tr,
    _run_in_parallel steady_clock 1 [launcher runs_forever; launcher (exits_at 0 1)]
    = (Return code, procs', tr).
Proof.
  apply (proj2 (proj2 (cancellation_without_escalation steady_clock
                         [launcher runs_forever; launcher (exits_at 0 1)]))
           [spawn runs_forever; spawn (exits_at 0 1)] 0 1 (spawn (exits_at 0 1))).
  - repeat constructor.
  - reflexivity.
  - reflexivity.
  - intros now s. discriminate.
  - intros now s _. discriminate.
Defined.

(** C5, as the specification has it, fails: a sibling of a failed task that
    ignores the termination request gets [terminate] twice, not once; it is
    still running when the call returns, and it has not been killed nor
    waited for. *)
Lemma cancelled_twice_and_never_killed :
  exists procs tr,
    _run_in_parallel steady_clock 1 [launcher runs_forever; launcher (exits_at 0 1)]
    = (Return (Some 1%Z), procs, tr)
    /\ terminate_calls 0 tr = 2
    /\ nth_error procs 0 = Some (mkPopen runs_forever None 2)
    /\ Forall (fun e => is_kill_or_wait e = false) tr.
Proof.
  eexists. eexists. split; [reflexivity|]. split; [reflexivity|].
  split; [reflexivity|repeat constructor].
Qed.

(** ** When every task succeeds *)

Lemma can_only_succeed_poll now p :
  can_only_succeed p -> can_only_succeed (poll now p).
Proof.
  intros [Hf Hn]. split; [|now rewrite child_poll].
  unfold poll, has_failed in *. destruct (returncode p) eqn:E.
  - now rewrite E.
  - simpl. destruct (Hn now (sigterms p)) as [-> | ->]; reflexivity.
Qed.

Lemma can_only_succeed_polled procs : forall now,
  Forall can_only_succeed procs -> Forall can_only_succeed (polled now procs).
Proof.
  induction procs as [|p ps IH]; intros now H; [constructor|].
  inversion H; subst. simpl.
  constructor; [now apply can_only_succeed_poll|now apply IH].
Qed.

Lemma can_only_succeed_not_failed procs :
  Forall can_only_succeed procs -> existsb has_failed procs = false.
Proof.
  induction 1 as [|p ps [Hf _] _ IH]; [reflexivity|]. simpl. now rewrite Hf, IH.
Qed.

Lemma cancelling_free_report due n :
  Forall (fun e => is_cancelling e = false) (report_events due n).
Proof. destruct due; repeat constructor. Qed.

(** With handles that can only succeed the loop never takes the failure
    branch, so it neither prints nor terminates. *)
Lemma supervise_can_only_succeed
    wall fuel procs next_print now reads exit procs' now' evs :
  supervise wall fuel procs false (count_running procs) next_print now reads
  = (exit, procs', now', evs) ->
  Forall can_only_succeed procs ->
  (forall code, exit <> Done (Some code))
  /\ Forall can_only_succeed procs'
  /\ Forall (fun e => is_cancelling e = false) evs.
Proof.
  apply (supervise_rule wall (fun procs _ exit procs' evs =>
    Forall can_only_succeed procs ->
    (forall code, exit <> Done (Some code))
    /\ Forall can_only_succeed procs'
    /\ Forall (fun e => is_cancelling e = false) evs)).
  - intros ? ? _ H. repeat split; [discriminate|assumption|constructor].
  - intros ? ? _ H. repeat split; [discriminate|assumption|constructor].
  - intros procs0 now0 due _ F H.
    rewrite (can_only_succeed_not_failed _ (can_only_succeed_polled _ (S now0) H)) in F.
    discriminate.
  - intros procs0 now0 due exit0 procs0' evs0 _ _ IH H.
    destruct IH as (He & Hp & Hq);
      [now apply can_only_succeed_polled, can_only_succeed_polled|].
    repeat split; [assumption..|].
    apply Forall_app; split; [apply cancelling_free_report|].
    constructor; [reflexivity|].
    repeat (apply Forall_app; split; [apply Forall_map_event; reflexivity|]).
    exact Hq.
Qed.

Lemma running_indices_none procs : forall i,
  count_running procs = 0 -> running_indices i procs = [].
Proof.
  unfold count_running. induction procs as [|p ps IH]; intros i; [reflexivity|].
  simpl. destruct (is_running p); [discriminate|]. apply IH.
Qed.

Lemma succeeded_handles procs :
  Forall can_only_succeed procs -> count_running procs = 0 ->
  Forall (fun p => returncode p = Some 0%Z) procs.
Proof.
  intros H Z. apply count_running_zero in Z. revert Z.
  induction H as [|p ps [Hf _] _ IH]; intros Z; [constructor|].
  inversion Z as [|? ? Hp Hps]; subst. constructor; [|now apply IH].
  unfold has_failed in Hf. destruct (returncode p) as [code|]; [|now elim Hp].
  destruct (Z.eqb_spec code 0); [now subst|discriminate].
Qed.

(** X1: when every launcher returns a handle that has not failed, on a child
    that never exits with a non-zero status and has exited by tick [T], the
    supervisor returns [None] within [T + 1] iterations; every handle is left
    with exit status 0, and nothing was terminated and nothing printed to the
    standard error. *)
Theorem all_succeed_no_cancel wall calls procs T :
  spawns calls procs ->
  Forall can_only_succeed procs ->
  Forall (fun p => exits_by T (child p)) procs ->
  exists procs' tr,
    _run_in_parallel wall (S T) calls = (Return None, procs', tr)
    /\ Forall (fun p => returncode p = Some 0%Z) procs'
    /\ Forall (fun e => is_cancelling e = false) tr.
Proof.
  intros Hsp Hok Hex. unfold _run_in_parallel.
  rewrite (launch_all_spawns calls procs [] 0 0 Hsp). cbn [app].
  destruct (supervise_terminates wall T T procs (wall 0%nat + 15)%Q
              (0 + length calls) 1 Hex) as (code & procs1 & now1 & evs & R); [lia|].
  rewrite R, terminate_running_eq.
  destruct (supervise_can_only_succeed _ _ _ _ _ _ _ _ _ _ R Hok) as (Hc & Hok1 & Hq).
  pose proof (supervise_code _ _ _ _ _ _ _ _ _ _ R) as Z.
  destruct code as [c|]; [now elim (Hc c)|].
  rewrite (running_indices_none _ 0 Z), (cleaned_terminal _ _ (count_running_zero _ Z)).
  eexists. eexists. split; [reflexivity|]. split.
  - now apply succeeded_handles.
  - apply Forall_app; split; [apply Forall_map_event; reflexivity|].
    rewrite app_nil_r. exact Hq.
Qed.

Lemma all_succeed_no_cancel_witness :
  exists procs' tr,
    _run_in_parallel steady_clock 4 [launcher (exits_at 3 0); launcher (exits_at 0 0)]
    = (Return None, procs', tr)
    /\ Forall (fun p => returncode p = Some 0%Z) procs'
    /\ Forall (fun e => is_cancelling e = false) tr.
Proof.
  apply (all_succeed_no_cancel steady_clock
           [launcher (exits_at 3 0); launcher (exits_at 0 0)]
           [spawn (exits_at 3 0); spawn (exits_at 0 0)] 3).
  - repeat constructor.
  - assert (N : forall T, never_fails (exits_at T 0)).
    { intros T now s. unfold exits_at. destruct (now <? T); auto. }
    constructor; [split; [reflexivity|apply N]|].
    constructor; [split; [reflexivity|apply N]|constructor].
  - repeat constructor; intros now s Hle; unfold exits_at; simpl.
    + destruct now as [|[|[|now]]]; [lia..|discriminate].
    + discriminate.
Defined.

(** ** The error code and the messages *)

Lemma not_in_map_event {A} (f : A -> event) (e : event) l :
  (forall a, f a <> e) -> ~ In e (map f l).
Proof. intros H Hin. apply in_map_iff in Hin. destruct Hin as (a & E & _). now elim (H a). Qed.

Lemma not_in_report e due n :
  (forall k, e <> EvStatusUpdate k) -> ~ In e (report_events due n).
Proof. intros H. destruct due; simpl; [|tauto]. intros [E|[]]. now elim (H n). Qed.

Lemma supervise_failure_message
    wall fuel procs next_print now reads exit procs' now' evs :
  supervise wall fuel procs false (count_running procs) next_print now reads
  = (exit, procs', now', evs) ->
  (In (EvStderr msg_failed) evs <-> exit = Done (Some 1%Z))
  /\ (In (EvStderr msg_terminated) evs <-> exit = Done (Some 1%Z)).
Proof.
  assert (Quiet : forall msg due n l1 l2 rest,
            In (EvStderr msg)
              (report_events due n ++ EvSleep :: map EvPoll l1 ++ map EvPoll l2 ++ rest)
            <-> In (EvStderr msg) rest).
  { intros msg due n l1 l2 rest. split.
    - intros H. apply in_app_or in H. destruct H as [H|H];
        [now apply not_in_report in H|].
      destruct H as [H|H]; [discriminate|].
      apply in_app_or in H. destruct H as [H|H];
        [now apply not_in_map_event in H|].
      apply in_app_or in H. destruct H as [H|H];
        [now apply not_in_map_event in H|assumption].
    - intros H. apply in_or_app. right. right. apply in_or_app. right.
      apply in_or_app. now right. }
  apply (supervise_rule wall (fun _ _ exit _ evs =>
    (In (EvStderr msg_failed) evs <-> exit = Done (Some 1%Z))
    /\ (In (EvStderr msg_terminated) evs <-> exit = Done (Some 1%Z)))).
  - intros. split; split; (contradiction || discriminate).
  - intros. split; split; (contradiction || discriminate).
  - intros procs0 now0 due _ _. split; (split; [reflexivity|intros _]).
    + apply in_or_app. right. right. apply in_or_app. right. now left.
    + apply in_or_app. right. right. apply in_or_app. right. right.
      apply in_or_app. right. now left.
  - intros procs0 now0 due exit0 procs0' evs0 _ _ [IH1 IH2].
    split; (etransitivity; [apply Quiet|assumption]).
Qed.

(** X2: in every run the message that processes failed is on the standard
    error exactly when the supervisor returns the error code 1, and so is the
    message that all were terminated; and when the error code is returned,
    [terminate] has been called on every handle of the batch. *)
Theorem error_code_iff_failure_message wall fuel calls o procs tr :
  _run_in_parallel wall fuel calls = (o, procs, tr) ->
  (In (EvStderr msg_failed) tr <-> o = Return (Some 1%Z))
  /\ (In (EvStderr msg_terminated) tr <-> o = Return (Some 1%Z))
  /\ (o = Return (Some 1%Z) ->
      forall i, i < length procs -> 1 <= terminate_calls i tr).
Proof.
  intros H. destruct (run_cases _ _ _ _ _ _ H) as (procs0 & now0 & k & _ & C).
  destruct C as [(-> & _ & ->)|(exit & procs1 & now1 & evs & np & reads & R & -> & -> & ->)].
  - split; [|split]; try discriminate; split; try discriminate;
      intros Hin; apply in_app_or in Hin;
      destruct Hin as [Hin|Hin]; now apply not_in_map_event in Hin.
  - destruct (supervise_failure_message _ _ _ _ _ _ _ _ _ _ R) as [F T].
    assert (Frame : forall msg,
              In (EvStderr msg)
                (map EvCall (seq 0 k) ++ evs ++ finally_events exit procs1)
              <-> In (EvStderr msg) evs).
    { intros msg. split.
      - intros Hin. apply in_app_or in Hin.
        destruct Hin as [Hin|Hin]; [now apply not_in_map_event in Hin|].
        apply in_app_or in Hin. destruct Hin as [Hin|Hin]; [assumption|].
        destruct exit; simpl in Hin; [now apply not_in_map_event in Hin|contradiction].
      - intros Hin. apply in_or_app. right. apply in_or_app. now left. }
    assert (Out : exit = Done (Some 1%Z) <-> outcome_of exit = Return (Some 1%Z)).
    { destruct exit as [[c|]|]; simpl; split; intros E; try discriminate;
        injection E as ->; reflexivity. }
    split; [|split].
    + rewrite Frame, F. exact Out.
    + rewrite Frame, T. exact Out.
    + intros E i Hi. apply Out in E. subst exit. simpl in Hi.
      rewrite length_cleaned in Hi.
      rewrite (supervise_length _ _ _ _ _ _ _ _ _ _ R) in Hi.
      rewrite !terminate_calls_app.
      rewrite (supervise_terminate_calls _ _ _ _ _ _ _ _ _ _ R i).
      destruct (Nat.ltb_spec i (length procs0)); lia.
Qed.

Lemma error_code_iff_failure_message_witness :
  In (EvStderr msg_failed)
    [EvCall 0; EvCall 1; EvSleep; EvPoll 0; EvPoll 1;
     EvStderr msg_failed; EvTerminate 0; EvTerminate 1;
     EvStderr msg_terminated; EvTerminate 0]
  <-> Return (Some 1%Z) = Return (Some 1%Z).
Proof.
  exact (proj1 (error_code_iff_failure_message steady_clock 1
                  [launcher runs_forever; launcher (exits_at 0 1)]
                  (Return (Some 1%Z))
                  [mkPopen runs_forever None 2; mkPopen (exits_at 0 1) (Some 1%Z) 0]
                  [EvCall 0; EvCall 1; EvSleep; EvPoll 0; EvPoll 1;
                   EvStderr msg_failed; EvTerminate 0; EvTerminate 1;
                   EvStderr msg_terminated; EvTerminate 0]
                  eq_refl)).
Defined.

(** ** What follows a [terminate] *)

Lemma cancelling_after_terminate a b tr1 i tr2 :
  Forall (fun e => is_terminate_event e = false) a ->
  Forall (fun e => is_cancelling e = true) b ->
  a ++ b = tr1 ++ EvTerminate i :: tr2 ->
  Forall (fun e => is_cancelling e = true) tr2.
Proof.
  intros Ha Hb E. apply app_eq_app in E. destruct E as (l & [[-> E]|[-> E]]).
  - destruct l as [|e l].
    + simpl in E. rewrite <- E in Hb. now inversion Hb.
    + injection E as <- E. apply Forall_app in Ha. destruct Ha as [_ Ha].
      inversion Ha as [|? ? He _]. discriminate He.
  - rewrite E in Hb. apply Forall_app in Hb. destruct Hb as [_ Hb].
    now inversion Hb.
Qed.

Lemma terminate_free_report due n :
  Forall (fun e => is_terminate_event e = false) (report_events due n).
Proof. destruct due; repeat constructor. Qed.

(** The trace of the loop is a part without any [terminate], followed by a
    part that only cancels. *)
Lemma supervise_cancels_last
    wall fuel procs next_print now reads exit procs' now' evs :
  supervise wall fuel procs false (count_running procs) next_print now reads
  = (exit, procs', now', evs) ->
  exists a b, evs = a ++ b
    /\ Forall (fun e => is_terminate_event e = false) a
    /\ Forall (fun e => is_cancelling e = true) b.
Proof.
  apply (supervise_rule wall (fun _ _ _ _ evs =>
    exists a b, evs = a ++ b
      /\ Forall (fun e => is_terminate_event e = false) a
      /\ Forall (fun e => is_cancelling e = true) b)).
  - intros. exists [], []. repeat split; constructor.
  - intros. exists [], []. repeat split; constructor.
  - intros procs0 now0 due _ _.
    exists (report_events due (count_running procs0)
              ++ EvSleep :: map EvPoll (seq 0 (length procs0))),
           (EvStderr msg_failed :: map EvTerminate (seq 0 (length procs0))
              ++ [EvStderr msg_terminated]).
    split; [now rewrite <- app_assoc|]. split.
    + apply Forall_app; split; [apply terminate_free_report|].
      constructor; [reflexivity|apply Forall_map_event; reflexivity].
    + constructor; [reflexivity|]. apply Forall_app; split;
        [apply Forall_map_event; reflexivity|repeat constructor].
  - intros procs0 now0 due exit0 procs0' evs0 _ _ (a & b & -> & Ha & Hb).
    exists (report_events due (count_running procs0)
              ++ EvSleep :: map EvPoll (seq 0 (length procs0))
              ++ map EvPoll (seq 0 (length procs0)) ++ a), b.
    split; [now rewrite <- !app_assoc, <- !app_comm_cons, <- !app_assoc|]. split; [|exact Hb].
    apply Forall_app; split; [apply terminate_free_report|].
    constructor; [reflexivity|].
    repeat (apply Forall_app; split; [apply Forall_map_event; reflexivity|]).
    exact Ha.
Qed.

(** X3: in every run, whatever follows a [terminate] call is another
    [terminate] call or a message on the standard error: once the supervisor
    has started to cancel, it never launches, sleeps, polls or reports
    again. *)
Theorem nothing_but_cancelling_after_terminate
    wall fuel calls o procs tr tr1 i tr2 :
  _run_in_parallel wall fuel calls = (o, procs, tr) ->
  tr = tr1 ++ EvTerminate i :: tr2 ->
  Forall (fun e => is_cancelling e = true) tr2.
Proof.
  intros H E. destruct (run_cases _ _ _ _ _ _ H) as (procs0 & now0 & k & _ & C).
  destruct C as [(_ & _ & ->)|(exit & procs1 & now1 & evs & np & reads & R & _ & _ & ->)].
  - apply (cancelling_after_terminate _ _ _ _ _
             (Forall_map_event EvCall _ (seq 0 k) (fun _ => eq_refl))
             (Forall_map_event EvTerminate _ (running_indices 0 procs0)
                (fun _ => eq_refl)) E).
  - destruct (supervise_cancels_last _ _ _ _ _ _ _ _ _ _ R) as (a & b & -> & Ha & Hb).
    rewrite <- app_assoc, app_assoc in E.
    apply (cancelling_after_terminate _ _ _ _ _) in E; [exact E| |].
    + apply Forall_app; split; [apply Forall_map_event; reflexivity|exact Ha].
    + apply Forall_app; split; [exact Hb|].
      destruct exit; simpl; [apply Forall_map_event; reflexivity|constructor].
Qed.

Lemma nothing_but_cancelling_after_terminate_witness :
  Forall (fun e => is_cancelling e = true)
    [EvTerminate 1; EvStderr msg_terminated; EvTerminate 0].
Proof.
  exact (nothing_but_cancelling_after_terminate steady_clock 1
           [launcher runs_forever; launcher (exits_at 0 1)]
           (Return (Some 1%Z))
           [mkPopen runs_forever None 2; mkPopen (exits_at 0 1) (Some 1%Z) 0]
           [EvCall 0; EvCall 1; EvSleep; EvPoll 0; EvPoll 1;
            EvStderr msg_failed; EvTerminate 0; EvTerminate 1;
            EvStderr msg_terminated; EvTerminate 0]
           [EvCall 0; EvCall 1; EvSleep; EvPoll 0; EvPoll 1; EvStderr msg_failed]
           0
           [EvTerminate 1; EvStderr msg_terminated; EvTerminate 0]
           eq_refl eq_refl).
Defined.

(** ** The launchers *)

Lemma launch_all_count calls : forall procs i now ok procs' now' evs,
  launch_all calls procs i now = (ok, procs', now', evs) ->
  exists k, evs = map EvCall (seq i k)
    /\ k <= length calls
    /\ if ok then k = length calls /\ length procs' = length procs + k
       else length procs' + 1 = length procs + k.
Proof.
  induction calls as [|call calls IH]; intros procs i now ok procs' now' evs H;
    simpl in H.
  - injection H as <- <- <- <-. exists 0. simpl. repeat split; lia.
  - destruct (call tt) as [proc|].
    + destruct (launch_all calls (procs ++ [proc]) (S i) (S now))
        as [[[ok1 procs1] now1] evs1] eqn:E.
      injection H as <- <- <- <-.
      destruct (IH _ _ _ _ _ _ _ E) as (k & -> & Hk & Hok).
      exists (S k). rewrite length_app in Hok. simpl in *.
      split; [reflexivity|]. split; [lia|]. destruct ok1; lia.
    + injection H as <- <- <- <-. exists 1. simpl. repeat split; lia.
Qed.

Lemma call_free_report due n :
  Forall (fun e => is_call e = false) (report_events due n).
Proof. destruct due; repeat constructor. Qed.

Lemma supervise_call_free
    wall fuel procs next_print now reads exit procs' now' evs :
  supervise wall fuel procs false (count_running procs) next_print now reads
  = (exit, procs', now', evs) ->
  Forall (fun e => is_call e = false) evs.
Proof.
  apply (supervise_rule wall (fun _ _ _ _ evs => Forall (fun e => is_call e = false) evs)).
  - constructor.
  - constructor.
  - intros. apply Forall_app; split; [apply call_free_report|].
    constructor; [reflexivity|].
    apply Forall_app; split; [apply Forall_map_event; reflexivity|].
    constructor; [reflexivity|].
    apply Forall_app; split; [apply Forall_map_event; reflexivity|repeat constructor].
  - intros ? ? ? ? ? ? _ _ H. apply Forall_app; split; [apply call_free_report|].
    constructor; [reflexivity|].
    repeat (apply Forall_app; split; [apply Forall_map_event; reflexivity|]).
    exact H.
Qed.

(** X4: in every run the launchers are called first, in input order and each
    at most once, and nothing is launched later.  When a launcher raises, it
    is the one after the handles obtained so far and the launchers after it
    are never called; otherwise all are called and there is one handle per
    launcher. *)
Theorem launchers_called_first_in_order wall fuel calls o procs tr :
  _run_in_parallel wall fuel calls = (o, procs, tr) ->
  exists k rest,
    tr = map EvCall (seq 0 k) ++ rest
    /\ Forall (fun e => is_call e = false) rest
    /\ k <= length calls
    /\ (o = Raise -> k = S (length procs))
    /\ (o <> Raise -> k = length calls /\ length procs = length calls).
Proof.
  unfold _run_in_parallel.
  destruct (launch_all calls [] 0 0) as [[[ok procs0] now0] ev0] eqn:L.
  destruct (launch_all_count _ _ _ _ _ _ _ _ L) as (k & -> & Hk & Hok).
  destruct ok.
  - destruct Hok as [-> Hlen]. simpl in Hlen.
    destruct (supervise wall fuel procs0 false (count_running procs0)
                (wall 0%nat + 15)%Q now0 1) as [[[exit procs1] now1] evs] eqn:R.
    pose proof (supervise_call_free _ _ _ _ _ _ _ _ _ _ R) as Hfree.
    pose proof (supervise_length _ _ _ _ _ _ _ _ _ _ R) as Hlen1.
    destruct exit as [code|].
    + rewrite terminate_running_eq. intros H. injection H as <- <- <-.
      eexists. eexists. split; [reflexivity|].
      split; [apply Forall_app; split;
              [exact Hfree|apply Forall_map_event; reflexivity]|].
      split; [lia|]. split; [discriminate|]. intros _.
      rewrite length_cleaned. split; lia.
    + intros H. injection H as <- <- <-.
      eexists. eexists. split; [reflexivity|]. split; [exact Hfree|].
      split; [lia|]. split; [discriminate|]. intros _. split; lia.
  - rewrite terminate_running_eq. intros H. injection H as <- <- <-.
    eexists. eexists. split; [reflexivity|].
    split; [apply Forall_map_event; reflexivity|]. split; [exact Hk|].
    simpl in Hok. rewrite length_cleaned.
    split; [intros _; lia|intros N; now elim N].
Qed.

Lemma launchers_called_first_in_order_witness :
  exists k rest,
    [EvCall 0; EvCall 1; EvCall 2; EvTerminate 0; EvTerminate 1]
    = map EvCall (seq 0 k) ++ rest
    /\ Forall (fun e => is_call e = false) rest
    /\ k <= 4
    /\ (Raise = Raise -> k = 3)
    /\ (Raise <> Raise -> k = 4 /\ 2 = 4).
Proof.
  exact (launchers_called_first_in_order steady_clock 0
           [launcher runs_forever; launcher (exits_at 9 0);
            failing_launcher; launcher runs_forever]
           Raise
           [mkPopen runs_forever None 1; mkPopen (exits_at 9 0) None 1]
           [EvCall 0; EvCall 1; EvCall 2; EvTerminate 0; EvTerminate 1]
           eq_refl).
Defined.

(** ** What happens to a handle *)

Lemma child_terminate now p : child (terminate now p) = child p.
Proof.
  unfold terminate. destruct (returncode (poll now p)); simpl; apply child_poll.
Qed.

Lemma evolves_refl p : evolves p p.
Proof. repeat split. lia. Qed.

Lemma evolves_trans p q r : evolves p q -> evolves q r -> evolves p r.
Proof.
  intros (C1 & S1 & K1) (C2 & S2 & K2). repeat split.
  - congruence.
  - lia.
  - intros code H. pose proof (K1 code H) as ->. exact (K2 code H).
Qed.

Lemma evolves_poll now p : evolves p (poll now p).
Proof.
  repeat split.
  - apply child_poll.
  - unfold poll. destruct (returncode p); simpl; lia.
  - intros code H. exact (poll_terminal now p code H).
Qed.

Lemma evolves_terminate now p : evolves p (terminate now p).
Proof.
  repeat split.
  - apply child_terminate.
  - unfold terminate, poll. destruct (returncode p); simpl.
    + destruct (returncode p); simpl; lia.
    + destruct (child p now (sigterms p)); simpl; lia.
  - intros code H. exact (terminate_terminal now p code H).
Qed.

Lemma Forall2_evolves_refl procs : Forall2 evolves procs procs.
Proof. induction procs; constructor; [apply evolves_refl|assumption]. Qed.

Lemma Forall2_evolves_trans ps : forall qs rs,
  Forall2 evolves ps qs -> Forall2 evolves qs rs -> Forall2 evolves ps rs.
Proof.
  induction ps as [|p ps IH]; intros qs rs H1 H2; inversion H1; subst;
    inversion H2; subst; constructor.
  - eapply evolves_trans; eassumption.
  - eapply IH; eassumption.
Qed.

Lemma evolves_polled procs : forall now, Forall2 evolves procs (polled now procs).
Proof.
  induction procs as [|p ps IH]; intros now; simpl; constructor;
    [apply evolves_poll|apply IH].
Qed.

Lemma evolves_terminated procs : forall now,
  Forall2 evolves procs (terminated now procs).
Proof.
  induction procs as [|p ps IH]; intros now; simpl; constructor;
    [apply evolves_terminate|apply IH].
Qed.

Lemma evolves_cleaned procs : forall now, Forall2 evolves procs (cleaned now procs).
Proof.
  induction procs as [|p ps IH]; intros now; simpl; [constructor|].
  destruct (returncode p); constructor;
    [apply evolves_refl|apply IH|apply evolves_terminate|apply IH].
Qed.

Lemma supervise_evolves
    wall fuel procs next_print now reads exit procs' now' evs :
  supervise wall fuel procs false (count_running procs) next_print now reads
  = (exit, procs', now', evs) ->
  Forall2 evolves procs procs'.
Proof.
  apply (supervise_rule wall (fun procs _ _ procs' _ => Forall2 evolves procs procs')).
  - intros. apply Forall2_evolves_refl.
  - intros. apply Forall2_evolves_refl.
  - intros. eapply Forall2_evolves_trans;
      [apply evolves_polled|apply evolves_terminated].
  - intros ? ? ? ? ? ? _ _ H.
    eapply Forall2_evolves_trans; [apply evolves_polled|].
    eapply Forall2_evolves_trans; [apply evolves_polled|exact H].
Qed.

(** X5: when every launcher returns a handle, the supervisor leaves behind
    the same handles in the same order: each is still a handle on the same
    child, signals have only been added, and a handle whose exit status was
    already known is left exactly as it was: a recorded exit status is never
    overwritten. *)
Theorem handles_kept_in_order wall fuel calls procs0 o procs tr :
  spawns calls procs0 ->
  _run_in_parallel wall fuel calls = (o, procs, tr) ->
  Forall2 evolves procs0 procs.
Proof.
  intros Hsp. unfold _run_in_parallel.
  rewrite (launch_all_spawns calls procs0 [] 0 0 Hsp). cbn [app].
  destruct (supervise wall fuel procs0 false (count_running procs0)
              (wall 0%nat + 15)%Q (0 + length calls) 1)
    as [[[exit procs1] now1] evs] eqn:R.
  pose proof (supervise_evolves _ _ _ _ _ _ _ _ _ _ R) as E.
  destruct exit as [code|].
  - rewrite terminate_running_eq. intros H. injection H as <- <- <-.
    eapply Forall2_evolves_trans; [exact E|apply evolves_cleaned].
  - intros H. injection H as <- <- <-. exact E.
Qed.

Lemma handles_kept_in_order_witness :
  Forall2 evolves
    [spawn runs_forever; spawn (exits_at 0 1)]
    [mkPopen runs_forever None 2; mkPopen (exits_at 0 1) (Some 1%Z) 0].
Proof.
  apply (handles_kept_in_order steady_clock 1
           [launcher runs_forever; launcher (exits_at 0 1)]
           [spawn runs_forever; spawn (exits_at 0 1)]
           (Return (Some 1%Z)) _
           [EvCall 0; EvCall 1; EvSleep; EvPoll 0; EvPoll 1;
            EvStderr msg_failed; EvTerminate 0; EvTerminate 1;
            EvStderr msg_terminated; EvTerminate 0]).
  - repeat constructor.
  - reflexivity.
Defined.

(** ** The first report *)

Lemma supervise_no_early_report wall : forall fuel procs failure remaining now reads
    exit procs' now' evs,
  (forall k, k < reads + fuel -> (wall k <= wall 0%nat + 15)%Q) ->
  supervise wall fuel procs failure remaining (wall 0%nat + 15)%Q now reads
  = (exit, procs', now', evs) ->
  status_updates evs = [].
Proof.
  induction fuel as [|fuel IH];
    intros procs failure remaining now reads exit procs' now' evs Hwall H;
    (destruct (Nat.eq_dec remaining 0) as [->|E];
     [rewrite supervise_done in H; now injection H as <- <- <- <-|]).
  - rewrite (supervise_out _ _ _ _ _ _ _ E) in H. now injection H as <- <- <- <-.
  - rewrite (supervise_step _ _ _ _ _ _ _ _ E) in H. cbn zeta in H.
    assert (D : Qlt_bool (wall 0%nat + 15)%Q (wall reads) = false).
    { unfold Qlt_bool. apply negb_false_iff, Qle_bool_iff, Hwall. lia. }
    rewrite D in H. cbn [report_events app] in H.
    destruct (failure || existsb has_failed (polled (S now) procs)).
    + injection H as <- <- <- <-. simpl.
      rewrite status_updates_app, status_updates_polls. simpl.
      rewrite status_updates_app, status_updates_terminates. reflexivity.
    + match type of H with
      | context [supervise wall fuel ?a ?b ?c ?d ?e ?f] =>
          destruct (supervise wall fuel a b c d e f)
            as [[[exit3 procs3] now4] evs3] eqn:R
      end.
      injection H as <- <- <- <-. simpl.
      rewrite !status_updates_app, !status_updates_polls. simpl.
      apply (IH _ _ _ _ _ _ _ _ _) in R; [exact R|].
      intros k Hk. apply Hwall. lia.
Qed.

(** X6: [on_status_update] is not called as long as the clock has not gone
    past fifteen seconds after its first reading: in a run followed for
    [fuel] iterations in which none of the readings [0 .. fuel] is later than
    the first one plus 15, nothing is reported. *)
Theorem no_report_before_fifteen_seconds wall fuel calls o procs tr :
  (forall k, k <= fuel -> (wall k <= wall 0%nat + 15)%Q) ->
  _run_in_parallel wall fuel calls = (o, procs, tr) ->
  status_updates tr = [].
Proof.
  intros Hwall. unfold _run_in_parallel.
  destruct (launch_all calls [] 0 0) as [[[ok procs0] now0] ev0] eqn:L.
  destruct (launch_all_inv _ _ _ _ _ _ _ _ L) as [_ [k ->]].
  destruct ok.
  - destruct (supervise wall fuel procs0 false (count_running procs0)
                (wall 0%nat + 15)%Q now0 1) as [[[exit procs1] now1] evs] eqn:R.
    apply supervise_no_early_report in R; [|intros j Hj; apply Hwall; lia].
    destruct exit as [code|].
    + rewrite terminate_running_eq. intros H. injection H as <- <- <-.
      now rewrite !status_updates_app, status_updates_calls, R,
        status_updates_terminates.
    + intros H. injection H as <- <- <-.
      now rewrite status_updates_app, status_updates_calls, R.
  - rewrite terminate_running_eq. intros H. injection H as <- <- <-.
    now rewrite status_updates_app, status_updates_calls, status_updates_terminates.
Qed.

Lemma no_report_before_fifteen_seconds_witness :
  status_updates
    [EvCall 0; EvCall 1; EvSleep; EvPoll 0; EvPoll 1; EvPoll 0; EvPoll 1]
  = [].
Proof.
  apply (no_report_before_fifteen_seconds steady_clock 4
           [launcher (exits_at 3 0); launcher (exits_at 0 0)]
           (Return None)
           [mkPopen (exits_at 3 0) (Some 0%Z) 0; mkPopen (exits_at 0 0) (Some 0%Z) 0]).
  - intros k Hk. unfold steady_clock, Qle. simpl. lia.
  - reflexivity.
Defined.

(** ** Stripping and splitting *)

Lemma lstrip_empty s : lstrip s = EmptyString <-> blank s = true.
Proof.
  induction s as [|c s IH]; simpl; [tauto|].
  destruct (isspace c); simpl; [exact IH|]. split; discriminate.
Qed.

Lemma rstrip_empty s : rstrip s = EmptyString <-> blank s = true.
Proof.
  induction s as [|c s IH]; simpl; [tauto|].
  destruct (rstrip s) eqn:R.
  - destruct (isspace c); simpl.
    + split; [intros _; now apply IH|reflexivity].
    + split; discriminate.
  - split; [discriminate|]. intros H. apply andb_true_iff in H.
    destruct H as [_ H]. apply IH in H. discriminate.
Qed.

Lemma blank_lstrip s : blank (lstrip s) = blank s.
Proof.
  induction s as [|c s IH]; simpl; [reflexivity|].
  destruct (isspace c) eqn:E; simpl; [exact IH|now rewrite E].
Qed.

(** Stripping leaves nothing exactly of the texts of white space only. *)
Lemma strip_empty s : strip s = EmptyString <-> blank s = true.
Proof. unfold strip. now rewrite rstrip_empty, blank_lstrip. Qed.

Lemma splitlines_from_line line : forall s,
  line <> EmptyString -> splitlines_from line false s <> [].
Proof.
  intros s. revert line. induction s as [|c s IH]; intros line Hline; simpl.
  - destruct line; [now elim Hline|discriminate].
  - destruct (is_linebreak c); [discriminate|]. apply IH. discriminate.
Qed.

(** Only the empty text has no lines. *)
Lemma splitlines_empty s : splitlines s = [] <-> s = EmptyString.
Proof.
  unfold splitlines. destruct s as [|c s]; simpl; [tauto|].
  split; [|discriminate]. destruct (is_linebreak c); [discriminate|].
  intros H. now apply splitlines_from_line in H.
Qed.

Lemma has_lines_iff_not_blank output :
  (0 <? length (splitlines (strip output))) = negb (blank output).
Proof.
  destruct (blank output) eqn:B.
  - apply strip_empty in B. rewrite B. reflexivity.
  - destruct (splitlines (strip output)) eqn:S; [|reflexivity].
    apply splitlines_empty, strip_empty in S. congruence.
Qed.

(** ** The check for changed files *)

(** X7: [_make_sure_no_changed_files] raises when [git diff] cannot be run
    or exits with a non-zero status; otherwise it returns [None] exactly when
    the output of [git diff] consists of white space only, and 1 as soon as
    the output has one other character. *)
Theorem changed_files_iff_output_not_blank h repo_dir expected_branch :
  snd (_make_sure_no_changed_files h repo_dir expected_branch)
  = match run_process h
            ["git"; "diff"; "--name-status"; expected_branch]%string repo_dir with
    | Exited code output =>
        if (code =? 0)%Z
        then Returns (if blank output then None else Some 1%Z)
        else Raises
    | NotStarted => Raises
    end.
Proof.
  unfold _make_sure_no_changed_files, check_output, bind.
  destruct (run_process h _ repo_dir) as [code output|]; [|reflexivity].
  destruct (code =? 0)%Z; [|reflexivity].
  rewrite has_lines_iff_not_blank. destruct (blank output); reflexivity.
Qed.

(** ** The code generator *)

(** X8: [_regenerate_code] never returns an error code.  Since the generator
    is run with [check=True], a non-zero exit status raises, and the test of
    the return code after it only ever sees zero: the function returns
    [None] when the generator exits with 0 and raises otherwise. *)
Theorem regenerate_code_returns_no_code h reading our_repo :
  snd (_regenerate_code h reading our_repo)
  = match run_process h
            [executable h; "codegen.py"; "--meta_model";
             joinpath h (joinpath h our_repo "dev_scripts/codegen") "meta_model.py";
             "--target"; our_repo]%string
            (joinpath h our_repo "dev_scripts/codegen") with
    | Exited code _ => if (code =? 0)%Z then Returns None else Raises
    | NotStarted => Raises
    end.
Proof.
  unfold _regenerate_code, run_checked, print, bind. cbn zeta.
  destruct (run_process h _ _) as [code output|]; [|reflexivity].
  destruct (code =? 0)%Z eqn:E; [|reflexivity]. now rewrite E.
Qed.

(** ** Matching *)

Lemma take_drop k : forall s, (take k s ++ drop k s)%string = s.
Proof.
  induction k as [|k IH]; intros [|c s]; simpl; try reflexivity. now rewrite IH.
Qed.

Lemma span_le_length class s : span class s <= String.length s.
Proof.
  induction s as [|c s IH]; simpl; [lia|]. destruct (class c); lia.
Qed.

Lemma length_take k : forall s, k <= String.length s -> String.length (take k s) = k.
Proof.
  induction k as [|k IH]; intros [|c s] H; simpl in *; try lia.
  rewrite IH; lia.
Qed.

Lemma all_chars_take class k : forall s,
  k <= span class s -> all_chars class (take k s) = true.
Proof.
  induction k as [|k IH]; intros [|c s] H; simpl in *; try reflexivity; try lia.
  destruct (class c); [|lia]. simpl. apply IH. lia.
Qed.

Lemma all_chars_take_any class k : forall s,
  all_chars class s = true -> all_chars class (take k s) = true.
Proof.
  induction k as [|k IH]; intros [|c s] H; simpl in *; try reflexivity.
  apply andb_true_iff in H. destruct H as [-> H]. simpl. now apply IH.
Qed.

Lemma span_drop class s : span class (drop (span class s) s) = 0.
Proof.
  induction s as [|c s IH]; simpl; [reflexivity|].
  destruct (class c) eqn:E; simpl; [exact IH|now rewrite E].
Qed.

Lemma span_app class s : forall after,
  all_chars class s = true -> span class after = 0 ->
  span class (s ++ after) = String.length s.
Proof.
  induction s as [|c s IH]; intros after H Ha; simpl in *; [exact Ha|].
  apply andb_true_iff in H. destruct H as [-> H]. now rewrite IH.
Qed.

Lemma take_app s : forall after, take (String.length s) (s ++ after) = s.
Proof. induction s as [|c s IH]; intros after; simpl; [now destruct after|now rewrite IH]. Qed.

Lemma drop_app s : forall after, drop (String.length s) (s ++ after) = after.
Proof. induction s as [|c s IH]; intros after; simpl; [reflexivity|apply IH]. Qed.

Lemma length_take_le k : forall s, String.length (take k s) <= k.
Proof. induction k as [|k IH]; intros [|c s]; simpl; try lia. specialize (IH s). lia. Qed.

(** What a repetition that matched has taken. *)
Lemma backtrack_inv rest capture least s : forall k group,
  backtrack rest capture least s k = Some group ->
  exists k' inner,
    k' <= k /\ least <= k' /\ rest (drop k' s) = Some inner
    /\ group = if capture then take k' s else inner.
Proof.
  induction k as [|k IH]; intros group H; cbn [backtrack] in H.
  - destruct (Nat.ltb_spec 0 least); [discriminate|].
    destruct (rest (drop 0 s)) as [inner|] eqn:R; [|discriminate].
    injection H as <-. exists 0, inner. repeat split; try lia. exact R.
  - destruct (Nat.ltb_spec (S k) least); [discriminate|].
    destruct (rest (drop (S k) s)) as [inner|] eqn:R.
    + injection H as <-. exists (S k), inner. repeat split; try lia. exact R.
    + destruct (IH group H) as (k' & inner & Hk & Hl & Hr & Hg).
      exists k', inner. repeat split; try lia; assumption.
Qed.

(** A repetition matches as soon as the rest matches after one of the
    lengths it tries. *)
Lemma backtrack_complete rest capture least s : forall k k' inner,
  k' <= k -> least <= k' -> rest (drop k' s) = Some inner ->
  exists group, backtrack rest capture least s k = Some group.
Proof.
  induction k as [|k IH]; intros k' inner Hk Hl R.
  - assert (k' = 0) by lia. subst. assert (least = 0) by lia. subst.
    cbn [backtrack Nat.ltb Nat.leb]. rewrite R. eexists; reflexivity.
  - cbn [backtrack]. destruct (Nat.ltb_spec (S k) least); [lia|].
    destruct (rest (drop (S k) s)) as [g|] eqn:R'; [eexists; reflexivity|].
    destruct (Nat.eq_dec k' (S k)) as [->|N]; [congruence|].
    apply (IH k' inner); [lia|assumption..].
Qed.

(** A repetition keeps the longest run when the rest matches after it. *)
Lemma backtrack_greedy rest capture least s k inner :
  least <= k -> rest (drop k s) = Some inner ->
  backtrack rest capture least s k = Some (if capture then take k s else inner).
Proof.
  intros Hl R. destruct k as [|k]; cbn [backtrack].
  - destruct (Nat.ltb_spec 0 least); [lia|]. now rewrite R.
  - destruct (Nat.ltb_spec (S k) least); [lia|]. now rewrite R.
Qed.

Lemma lits_cons c w : lits (String c w) = Lit c :: lits w.
Proof. reflexivity. Qed.

Lemma match_here_lits w : forall pattern s group,
  match_here (lits w ++ pattern) s = Some group ->
  exists s', s = (w ++ s')%string /\ match_here pattern s' = Some group.
Proof.
  induction w as [|c w IH]; intros pattern s group H.
  - exists s. split; [reflexivity|exact H].
  - rewrite lits_cons in H. cbn [app match_here] in H.
    destruct s as [|a s]; [discriminate|].
    destruct (Ascii.eqb_spec a c) as [->|]; [|discriminate].
    destruct (IH _ _ _ H) as (s' & -> & R). exists s'. split; [reflexivity|exact R].
Qed.

Lemma match_here_lits_app w : forall pattern s,
  match_here (lits w ++ pattern) (w ++ s) = match_here pattern s.
Proof.
  induction w as [|c w IH]; intros pattern s; [reflexivity|].
  rewrite lits_cons. cbn [app match_here append]. now rewrite Ascii.eqb_refl, IH.
Qed.

Lemma match_here_any pattern s group :
  match_here (AnyChar :: pattern) s = Some group ->
  exists dot s', s = String dot s' /\ not_newline dot = true
                 /\ match_here pattern s' = Some group.
Proof.
  destruct s as [|a s]; simpl; [discriminate|].
  destruct (not_newline a) eqn:E; [|discriminate]. intros H.
  exists a, s. repeat split; assumption.
Qed.

Lemma search_inv pattern : forall s group,
  search pattern s = Some group ->
  exists before s', s = (before ++ s')%string /\ match_here pattern s' = Some group.
Proof.
  induction s as [|c s IH]; intros group H; simpl in H.
  - destruct (match_here pattern EmptyString) eqn:E; [|discriminate].
    injection H as <-. exists EmptyString, EmptyString. split; [reflexivity|exact E].
  - destruct (match_here pattern (String c s)) eqn:E.
    + injection H as <-. exists EmptyString, (String c s). split; [reflexivity|exact E].
    + destruct (IH _ H) as (before & s' & -> & R).
      exists (String c before), s'. split; [reflexivity|exact R].
Qed.

Lemma scan_lines_inv sha_re : forall lines group os_error,
  scan_lines sha_re lines = (Some group, os_error) ->
  os_error = None
  /\ exists line, In (Line line) lines /\ search sha_re line = Some group.
Proof.
  induction lines as [|[line|e] lines IH]; intros group os_error H; simpl in H;
    try discriminate.
  destruct (search sha_re line) as [g|] eqn:S.
  - injection H as <- <-. split; [reflexivity|]. exists line. split; [now left|exact S].
  - destruct (IH _ _ H) as [-> (l & Hin & Hs)]. split; [reflexivity|].
    exists l. split; [now right|exact Hs].
Qed.

Lemma scan_lines_first sha_re before : forall line group after,
  no_match sha_re before -> search sha_re line = Some group ->
  scan_lines sha_re (before ++ Line line :: after) = (Some group, None).
Proof.
  induction before as [|item before IH]; intros line group after Hno Hs; simpl.
  - now rewrite Hs.
  - inversion Hno as [|? ? (l & -> & Hl) Hrest]; subst. rewrite Hl. now apply IH.
Qed.

Lemma scan_lines_error sha_re before : forall os_error after,
  no_match sha_re before ->
  scan_lines sha_re (before ++ ReadError os_error :: after) = (None, Some os_error).
Proof.
  induction before as [|item before IH]; intros os_error after Hno; simpl;
    [reflexivity|].
  inversion Hno as [|? ? (l & -> & Hl) Hrest]; subst. rewrite Hl. now apply IH.
Qed.

Lemma scan_lines_none sha_re lines :
  no_match sha_re lines -> scan_lines sha_re lines = (None, None).
Proof.
  induction 1 as [|item lines (l & -> & Hl) _ IH]; simpl; [reflexivity|].
  now rewrite Hl.
Qed.

(** A match of the pattern of the code generator, taken apart. *)
Lemma match_codegen_sha s group :
  match_here _AAS_CORE_CODEGEN_SHA_RE s = Some group ->
  exists dot after,
    s = ("aas-core-codegen@git+https://github"
           ++ String dot ("com/aas-core-works/aas-core-codegen@" ++ group ++ after))%string
    /\ not_newline dot = true
    /\ 1 <= String.length group
    /\ all_chars alnum group = true
    /\ span alnum after = 0.
Proof.
  unfold _AAS_CORE_CODEGEN_SHA_RE. intros H.
  apply match_here_lits in H. destruct H as (s1 & -> & H).
  apply match_here_any in H. destruct H as (dot & s2 & -> & Hdot & H).
  apply match_here_lits in H. destruct H as (s3 & -> & H).
  cbn [match_here] in H.
  destruct (Nat.eq_dec (span alnum s3) 0) as [Z|N];
    [rewrite Z in H; discriminate H|].
  rewrite (backtrack_greedy _ true 1 s3 (span alnum s3) EmptyString) in H;
    [|lia|reflexivity].
  injection H as <-.
  exists dot, (drop (span alnum s3) s3). rewrite take_drop.
  repeat split; try assumption.
  - rewrite length_take; [lia|]. apply span_le_length.
  - now apply all_chars_take.
  - apply span_drop.
Qed.

(** A match of the pattern of the meta-model, taken apart. *)
Lemma match_meta_sha s group :
  match_here _AAS_CORE_META_SHA_RE s = Some group ->
  exists dot1 dot2 after,
    s = ("https://raw"
           ++ String dot1
                ("githubusercontent"
                   ++ String dot2
                        ("com/aas-core-works/aas-core-meta/" ++ group
                           ++ "/aas_core_meta/v" ++ after)))%string
    /\ 1 <= String.length group
    /\ all_chars alnum group = true.
Proof.
  unfold _AAS_CORE_META_SHA_RE. intros H.
  apply match_here_lits in H. destruct H as (s1 & -> & H).
  apply match_here_any in H. destruct H as (dot1 & s2 & -> & _ & H).
  apply match_here_lits in H. destruct H as (s3 & -> & H).
  apply match_here_any in H. destruct H as (dot2 & s4 & -> & _ & H).
  apply match_here_lits in H. destruct H as (s5 & -> & H).
  cbn [app match_here] in H.
  apply backtrack_inv in H. destruct H as (k & inner & Hk & Hl & R & ->).
  apply match_here_lits in R. destruct R as (after & E & _).
  exists dot1, dot2, after. rewrite <- E, take_drop.
  repeat split.
  - rewrite length_take; [lia|]. pose proof (span_le_length alnum s5). lia.
  - now apply all_chars_take.
Qed.

(** ** The revisions *)

Lemma get_codegen_revision_snd h our_repo :
  snd (_get_codegen_revision h our_repo)
  = Returns (fst (scan_lines _AAS_CORE_CODEGEN_SHA_RE
                    (open_lines h (joinpath h our_repo "dev_scripts/pyproject.toml")))).
Proof.
  unfold _get_codegen_revision.
  destruct (scan_lines _ _) as [[sha|] [e|]]; reflexivity.
Qed.

Lemma get_meta_model_revision_snd h our_repo :
  snd (_get_meta_model_revision h our_repo)
  = Returns (option_map (take 8)
               (fst (scan_lines _AAS_CORE_META_SHA_RE
                       (open_lines h
                          (joinpath h our_repo "dev_scripts/codegen/meta_model.py"))))).
Proof.
  unfold _get_meta_model_revision.
  destruct (scan_lines _ _) as [[sha|] [e|]]; reflexivity.
Qed.

Lemma scan_codegen_sha lines sha os_error :
  scan_lines _AAS_CORE_CODEGEN_SHA_RE lines = (Some sha, os_error) ->
  1 <= String.length sha /\ all_chars alnum sha = true.
Proof.
  intros S. apply scan_lines_inv in S. destruct S as [_ (line & _ & Hs)].
  apply search_inv in Hs. destruct Hs as (before & s' & _ & Hm).
  apply match_codegen_sha in Hm.
  destruct Hm as (dot & after & _ & _ & Hlen & Halnum & _). now split.
Qed.

Lemma scan_meta_sha lines group os_error :
  scan_lines _AAS_CORE_META_SHA_RE lines = (Some group, os_error) ->
  1 <= String.length group /\ all_chars alnum group = true.
Proof.
  intros S. apply scan_lines_inv in S. destruct S as [_ (line & _ & Hs)].
  apply search_inv in Hs. destruct Hs as (before & s' & _ & Hm).
  apply match_meta_sha in Hm.
  destruct Hm as (dot1 & dot2 & after & _ & Hlen & Halnum). now split.
Qed.

(** X9: a revision that [_get_codegen_revision] returns is a non-empty text
    of letters and digits; it stands in a line of [dev_scripts/pyproject.toml]
    right after the address of the code generator (with any character in the
    place of the dot), and it is all of the letters and digits there. *)
Theorem codegen_revision_is_alphanumeric h our_repo sha :
  snd (_get_codegen_revision h our_repo) = Returns (Some sha) ->
  1 <= String.length sha
  /\ all_chars alnum sha = true
  /\ exists line before dot after,
       In (Line line)
         (open_lines h (joinpath h our_repo "dev_scripts/pyproject.toml"))
       /\ line = (before ++ "aas-core-codegen@git+https://github"
                    ++ String dot ("com/aas-core-works/aas-core-codegen@"
                                     ++ sha ++ after))%string
       /\ span alnum after = 0.
Proof.
  rewrite get_codegen_revision_snd. intros H. injection H as H.
  destruct (scan_lines _ _) as [group e] eqn:S. simpl in H. subst group.
  apply scan_lines_inv in S. destruct S as [_ (line & Hin & Hs)].
  apply search_inv in Hs. destruct Hs as (before & s' & -> & Hm).
  apply match_codegen_sha in Hm.
  destruct Hm as (dot & after & -> & _ & Hlen & Halnum & Hspan).
  split; [exact Hlen|]. split; [exact Halnum|].
  eexists. exists before, dot, after.
  split; [exact Hin|]. split; [reflexivity|exact Hspan].
Qed.

Lemma codegen_revision_is_alphanumeric_witness :
  1 <= String.length "c414f32" /\ all_chars alnum "c414f32" = true.
Proof.
  destruct (codegen_revision_is_alphanumeric example_host "/repo" "c414f32" eq_refl)
    as (Hlen & Halnum & _).
  split; [exact Hlen|exact Halnum].
Defined.

(** X10: a revision that [_get_meta_model_revision] returns has between one
    and eight characters, all letters or digits: it is the first eight
    characters of a run of letters and digits that stands in a line of
    [dev_scripts/codegen/meta_model.py] between the address of the meta-model
    and [/aas_core_meta/v]. *)
Theorem meta_model_revision_is_short_alphanumeric h our_repo sha :
  snd (_get_meta_model_revision h our_repo) = Returns (Some sha) ->
  1 <= String.length sha <= 8
  /\ all_chars alnum sha = true
  /\ exists line before dot1 dot2 run after,
       In (Line line)
         (open_lines h (joinpath h our_repo "dev_scripts/codegen/meta_model.py"))
       /\ line = (before ++ "https://raw"
                    ++ String dot1
                         ("githubusercontent"
                            ++ String dot2
                                 ("com/aas-core-works/aas-core-meta/" ++ run
                                    ++ "/aas_core_meta/v" ++ after)))%string
       /\ all_chars alnum run = true
       /\ sha = take 8 run.
Proof.
  rewrite get_meta_model_revision_snd. intros H. injection H as H.
  destruct (scan_lines _ _) as [[group|] e] eqn:S; [|discriminate H].
  cbn [fst option_map] in H. injection H as <-.
  apply scan_lines_inv in S. destruct S as [_ (line & Hin & Hs)].
  apply search_inv in Hs. destruct Hs as (before & s' & -> & Hm).
  apply match_meta_sha in Hm.
  destruct Hm as (dot1 & dot2 & after & -> & Hlen & Halnum).
  split; [|split].
  - split; [|exact (length_take_le 8 group)].
    destruct group as [|c group]; [simpl in Hlen; lia|].
    cbn [take String.length]. lia.
  - exact (all_chars_take_any alnum 8 group Halnum).
  - eexists. exists before, dot1, dot2, group, after.
    repeat split; [exact Hin|exact Halnum].
Qed.

Lemma meta_model_revision_is_short_alphanumeric_witness :
  1 <= String.length "79314c63" <= 8 /\ all_chars alnum "79314c63" = true.
Proof.
  destruct (meta_model_revision_is_short_alphanumeric example_host "/repo"
              "79314c63" eq_refl) as (Hlen & Halnum & _).
  split; [exact Hlen|exact Halnum].
Defined.

(** X11: the first line on which the pattern is found decides: the revision
    is read off it and nothing is printed, whatever follows that line, be it
    other matching lines or a file that cannot be read any further.  The
    revision of the meta-model is cut to eight characters. *)
Theorem revision_of_first_matching_line h our_repo :
  (forall before line group after,
     no_match _AAS_CORE_CODEGEN_SHA_RE before ->
     search _AAS_CORE_CODEGEN_SHA_RE line = Some group ->
     open_lines h (joinpath h our_repo "dev_scripts/pyproject.toml")
     = before ++ Line line :: after ->
     _get_codegen_revision h our_repo = ([], Returns (Some group)))
  /\ (forall before line group after,
        no_match _AAS_CORE_META_SHA_RE before ->
        search _AAS_CORE_META_SHA_RE line = Some group ->
        open_lines h (joinpath h our_repo "dev_scripts/codegen/meta_model.py")
        = before ++ Line line :: after ->
        _get_meta_model_revision h our_repo = ([], Returns (Some (take 8 group)))).
Proof.
  split; intros before line group after Hno Hs Hopen.
  - unfold _get_codegen_revision.
    now rewrite Hopen, (scan_lines_first _ _ _ _ after Hno Hs).
  - unfold _get_meta_model_revision.
    now rewrite Hopen, (scan_lines_first _ _ _ _ after Hno Hs).
Qed.

Lemma revision_of_first_matching_line_witness :
  _get_codegen_revision example_host "/repo" = ([], Returns (Some "c414f32"%string)).
Proof.
  apply (proj1 (revision_of_first_matching_line example_host "/repo")
           [Line "[project]"]
           "  aas-core-codegen@git+https://github.com/aas-core-works/aas-core-codegen@c414f32,"%string
           "c414f32"%string
           [Line "# https://raw.githubusercontent.com/aas-core-works/aas-core-meta/79314c6369b235fb1bcbad843cf4ab34fe4e4b4f/aas_core_meta/v3_1.py"]).
  - constructor; [|constructor]. eexists. split; reflexivity.
  - reflexivity.
  - reflexivity.
Defined.

(** X12: when no line matches, no revision is returned and the failure is
    printed: once when the file was read to its end, twice (first with the
    error) when an [OSError] ended the reading, also when the file could not
    be opened at all. *)
Theorem no_revision_without_matching_line h our_repo :
  (forall lines,
     no_match _AAS_CORE_CODEGEN_SHA_RE lines ->
     (open_lines h (joinpath h our_repo "dev_scripts/pyproject.toml") = lines ->
      _get_codegen_revision h our_repo
      = ([Print "Cannot read codegen revision."], Returns None))
     /\ (forall os_error after,
           open_lines h (joinpath h our_repo "dev_scripts/pyproject.toml")
           = lines ++ ReadError os_error :: after ->
           _get_codegen_revision h our_repo
           = ([Print ("Cannot read codegen revision: " ++ os_error ++ ".");
               Print "Cannot read codegen revision."], Returns None)))
  /\ (forall lines,
        no_match _AAS_CORE_META_SHA_RE lines ->
        (open_lines h (joinpath h our_repo "dev_scripts/codegen/meta_model.py")
         = lines ->
         _get_meta_model_revision h our_repo
         = ([Print "Cannot read meta model revision."], Returns None))
        /\ (forall os_error after,
              open_lines h (joinpath h our_repo "dev_scripts/codegen/meta_model.py")
              = lines ++ ReadError os_error :: after ->
              _get_meta_model_revision h our_repo
              = ([Print ("Cannot read meta model revision: " ++ os_error ++ ".");
                  Print "Cannot read meta model revision."], Returns None))).
Proof.
  split; intros lines Hno; split.
  - intros Hopen. unfold _get_codegen_revision.
    now rewrite Hopen, (scan_lines_none _ _ Hno).
  - intros os_error after Hopen. unfold _get_codegen_revision.
    now rewrite Hopen, (scan_lines_error _ _ os_error after Hno).
  - intros Hopen. unfold _get_meta_model_revision.
    now rewrite Hopen, (scan_lines_none _ _ Hno).
  - intros os_error after Hopen. unfold _get_meta_model_revision.
    now rewrite Hopen, (scan_lines_error _ _ os_error after Hno).
Qed.

Lemma no_revision_without_matching_line_witness :
  _get_codegen_revision unreadable_host "/repo"
  = ([Print "Cannot read codegen revision: Permission denied.";
      Print "Cannot read codegen revision."], Returns None).
Proof.
  apply (proj2 (proj1 (no_revision_without_matching_line unreadable_host "/repo")
                  [Line "[project]"]
                  (Forall_cons _ (ex_intro _ "[project]"%string
                                    (conj eq_refl eq_refl))
                     (Forall_nil _)))
           "Permission denied"%string []).
  reflexivity.
Defined.

(** ** Writing a revision and reading it back *)

Lemma search_here pattern s group :
  match_here pattern s = Some group -> search pattern s = Some group.
Proof. intros H. destruct s; simpl; now rewrite H. Qed.

(** The search skips the characters that cannot start a match. *)
Lemma search_skip c0 pattern before : forall s,
  all_chars (fun c => negb (Ascii.eqb c c0)) before = true ->
  search (Lit c0 :: pattern) (before ++ s) = search (Lit c0 :: pattern) s.
Proof.
  induction before as [|c before IH]; intros s H; [reflexivity|].
  simpl in H. apply andb_true_iff in H. destruct H as [Hc H].
  apply negb_true_iff in Hc. cbn [append search match_here]. rewrite Hc.
  now apply IH.
Qed.

Lemma span_ge_length class s : forall after,
  all_chars class s = true -> String.length s <= span class (s ++ after).
Proof.
  induction s as [|c s IH]; intros after H; simpl in *; [lia|].
  apply andb_true_iff in H. destruct H as [-> H]. specialize (IH after H). lia.
Qed.

Lemma match_codegen_sha_written sha after :
  1 <= String.length sha -> all_chars alnum sha = true -> span alnum after = 0 ->
  match_here _AAS_CORE_CODEGEN_SHA_RE
    ("aas-core-codegen@git+https://github.com/aas-core-works/aas-core-codegen@"
       ++ sha ++ after)
  = Some sha.
Proof.
  intros Hlen Halnum Hafter. unfold _AAS_CORE_CODEGEN_SHA_RE.
  change ("aas-core-codegen@git+https://github.com/aas-core-works/aas-core-codegen@"
            ++ sha ++ after)%string
    with ("aas-core-codegen@git+https://github"
            ++ String "." ("com/aas-core-works/aas-core-codegen@" ++ sha ++ after))%string.
  rewrite match_here_lits_app. cbn [app match_here].
  change (not_newline ".") with true. cbv iota.
  rewrite match_here_lits_app. cbn [match_here].
  rewrite (span_app alnum sha after Halnum Hafter).
  rewrite (backtrack_greedy _ true 1 _ _ EmptyString); [|lia|reflexivity].
  now rewrite take_app.
Qed.

Lemma match_meta_sha_written sha version after :
  1 <= String.length sha -> all_chars alnum sha = true ->
  all_chars not_newline version = true ->
  match_here _AAS_CORE_META_SHA_RE
    ("https://raw.githubusercontent.com/aas-core-works/aas-core-meta/"
       ++ sha ++ "/aas_core_meta/v" ++ version ++ ".py" ++ after)
  = Some sha.
Proof.
  intros Hlen Halnum Hversion. unfold _AAS_CORE_META_SHA_RE.
  change ("https://raw.githubusercontent.com/aas-core-works/aas-core-meta/"
            ++ sha ++ "/aas_core_meta/v" ++ version ++ ".py" ++ after)%string
    with ("https://raw"
            ++ String "."
                 ("githubusercontent"
                    ++ String "."
                         ("com/aas-core-works/aas-core-meta/"
                            ++ sha ++ "/aas_core_meta/v" ++ version
                            ++ ".py" ++ after)))%string.
  rewrite match_here_lits_app. cbn [app match_here].
  change (not_newline ".") with true. cbv iota.
  rewrite match_here_lits_app. cbn [app match_here].
  change (not_newline ".") with true. cbv iota.
  rewrite match_here_lits_app. cbn [app match_here].
  rewrite (span_app alnum sha _ Halnum) by reflexivity.
  destruct (backtrack_complete
              (match_here (AnyChar :: lits "py")) false 0
              (version ++ ".py" ++ after)
              (span not_newline (version ++ ".py" ++ after))
              (String.length version) EmptyString) as [inner Hinner].
  - now apply span_ge_length.
  - lia.
  - rewrite drop_app. reflexivity.
  - rewrite (backtrack_greedy _ true 1 _ _ inner); [now rewrite take_app|lia|].
    rewrite drop_app, match_here_lits_app. exact Hinner.
Qed.

(** X13: a revision written into a line of [dev_scripts/pyproject.toml] is
    read back as it was written: when the lines before do not match, the line
    has no letter [a] before the address of the code generator, and the
    revision is a non-empty text of letters and digits that is followed by
    none, [_get_codegen_revision] returns exactly that revision. *)
Theorem codegen_revision_round_trip h our_repo lines before sha after rest :
  no_match _AAS_CORE_CODEGEN_SHA_RE lines ->
  all_chars (fun c => negb (Ascii.eqb c "a")) before = true ->
  1 <= String.length sha -> all_chars alnum sha = true -> span alnum after = 0 ->
  open_lines h (joinpath h our_repo "dev_scripts/pyproject.toml")
  = lines
      ++ Line (before
                 ++ "aas-core-codegen@git+https://github.com/aas-core-works/aas-core-codegen@"
                 ++ sha ++ after)
      :: rest ->
  _get_codegen_revision h our_repo = ([], Returns (Some sha)).
Proof.
  intros Hno Hbefore Hlen Halnum Hafter Hopen.
  unfold _get_codegen_revision. rewrite Hopen.
  rewrite (scan_lines_first _ _ _ sha rest Hno); [reflexivity|].
  pose proof (match_codegen_sha_written sha after Hlen Halnum Hafter) as Hm.
  apply search_here in Hm. revert Hm. unfold _AAS_CORE_CODEGEN_SHA_RE.
  rewrite lits_cons. cbn [app]. intros Hm.
  now rewrite (search_skip _ _ before _ Hbefore).
Qed.

Lemma codegen_revision_round_trip_witness :
  _get_codegen_revision example_host "/repo" = ([], Returns (Some "c414f32"%string)).
Proof.
  apply (codegen_revision_round_trip example_host "/repo"
           [Line "[project]"] "  " "c414f32" ","
           [Line "# https://raw.githubusercontent.com/aas-core-works/aas-core-meta/79314c6369b235fb1bcbad843cf4ab34fe4e4b4f/aas_core_meta/v3_1.py"]).
  - constructor; [|constructor]. eexists. split; reflexivity.
  - reflexivity.
  - simpl. lia.
  - reflexivity.
  - reflexivity.
  - reflexivity.
Defined.

(** X14: a revision written into a line of
    [dev_scripts/codegen/meta_model.py] is read back cut to its first eight
    characters: when the lines before do not match, the line has no letter
    [h] before the address of the meta-model, the revision is a non-empty
    text of letters and digits, and the name of the module after
    [/aas_core_meta/v] ends in [.py], [_get_meta_model_revision] returns the
    first eight characters of that revision. *)
Theorem meta_model_revision_round_trip
    h our_repo lines before sha version after rest :
  no_match _AAS_CORE_META_SHA_RE lines ->
  all_chars (fun c => negb (Ascii.eqb c "h")) before = true ->
  1 <= String.length sha -> all_chars alnum sha = true ->
  all_chars not_newline version = true ->
  open_lines h (joinpath h our_repo "dev_scripts/codegen/meta_model.py")
  = lines
      ++ Line (before
                 ++ "https://raw.githubusercontent.com/aas-core-works/aas-core-meta/"
                 ++ sha ++ "/aas_core_meta/v" ++ version ++ ".py" ++ after)
      :: rest ->
  _get_meta_model_revision h our_repo = ([], Returns (Some (take 8 sha))).
Proof.
  intros Hno Hbefore Hlen Halnum Hversion Hopen.
  unfold _get_meta_model_revision. rewrite Hopen.
  rewrite (scan_lines_first _ _ _ sha rest Hno).
  - cbn [option_map]. destruct sha as [|c sha]; [simpl in Hlen; lia|reflexivity].
  - pose proof (match_meta_sha_written sha version after Hlen Halnum Hversion) as Hm.
    apply search_here in Hm. revert Hm. unfold _AAS_CORE_META_SHA_RE.
    rewrite lits_cons. cbn [app]. intros Hm.
    now rewrite (search_skip _ _ before _ Hbefore).
Qed.

Lemma meta_model_revision_round_trip_witness :
  _get_meta_model_revision example_host "/repo"
  = ([], Returns (Some "79314c63"%string)).
Proof.
  apply (meta_model_revision_round_trip example_host "/repo"
           [Line "[project]";
            Line "  aas-core-codegen@git+https://github.com/aas-core-works/aas-core-codegen@c414f32,"]
           "# " "79314c6369b235fb1bcbad843cf4ab34fe4e4b4f" "3_1" EmptyString []).
  - constructor; [|constructor; [|constructor]]; eexists; split; reflexivity.
  - reflexivity.
  - simpl. lia.
  - reflexivity.
  - reflexivity.
  - reflexivity.
Defined.

(** ** The whole update *)

Lemma in_effects_of_events h argv cwd tr :
  ~ In (Subprocess argv cwd) (map (effect_of_event h) tr).
Proof.
  intros H. apply in_map_iff in H. destruct H as (e & E & _).
  destruct e; discriminate E.
Qed.

(** If the supervisor returns a code, the code is 1. *)
Lemma run_returns_one wall fuel calls code procs tr :
  _run_in_parallel wall fuel calls = (Return (Some code), procs, tr) -> code = 1%Z.
Proof.
  intros H. destruct (run_cases _ _ _ _ _ _ H) as (procs0 & now0 & k & _ & C).
  destruct C as [(D & _)|(exit & procs1 & now1 & evs & np & reads & R & E & _)];
    [discriminate|].
  pose proof (supervise_code _ _ _ _ _ _ _ _ _ _ R) as S.
  destruct exit as [[c|]|]; try discriminate E.
  injection E as ->. now destruct S.
Qed.

Lemma not_publishing_rev_parse :
  ~ is_publishing ["git"; "rev-parse"; "--abbrev-ref"; "HEAD"]%string.
Proof. intros [[b E]|[E|[[f E]|E]]]; discriminate E. Qed.

Lemma not_publishing_diff branch :
  ~ is_publishing ["git"; "diff"; "--name-status"; branch]%string.
Proof. intros [[b E]|[E|[[f E]|E]]]; discriminate E. Qed.

Lemma not_publishing_five a b c d e : ~ is_publishing [a; b; c; d; e].
Proof. intros [[x E]|[E|[[f E]|E]]]; discriminate E. Qed.

Lemma not_publishing_six a b c d e f : ~ is_publishing [a; b; c; d; e; f].
Proof. intros [[x E]|[E|[[y E]|E]]]; discriminate E. Qed.

Lemma bind_eq {A B} (m : M A) (k : A -> M B) :
  bind m k
  = match snd m with
    | Returns a => (fst m ++ fst (k a), snd (k a))
    | Raises => (fst m, Raises)
    | Hangs => (fst m, Hangs)
    end.
Proof.
  destruct m as [tr [a| |]]; simpl; try reflexivity. now destruct (k a).
Qed.

(** What the steps of [main] before the revisions do and return. *)

Lemma make_sure_no_changed_files_spec h repo_dir expected_branch tr res :
  _make_sure_no_changed_files h repo_dir expected_branch = (tr, res) ->
  (forall argv cwd, In (Subprocess argv cwd) tr -> ~ is_publishing argv)
  /\ (res = Returns None <->
      exists output,
        run_process h ["git"; "diff"; "--name-status"; expected_branch]%string
          repo_dir = Exited 0 output
        /\ blank output = true)
  /\ (res = Returns None \/ res = Returns (Some 1%Z) \/ res = Raises).
Proof.
  unfold _make_sure_no_changed_files, check_output, print_err, ret, bind.
  destruct (run_process h _ repo_dir) as [code output|] eqn:E.
  - destruct (Z.eqb_spec code 0) as [->|N].
    + rewrite has_lines_iff_not_blank. destruct (blank output) eqn:B; simpl;
        intros H; injection H as <- <-; (split; [|split]).
      * intros argv cwd [Hin|[]]. injection Hin as <- <-. apply not_publishing_diff.
      * split; [intros _; now exists output|reflexivity].
      * now left.
      * intros argv cwd [Hin|[Hin|[]]]; [|discriminate Hin].
        injection Hin as <- <-. apply not_publishing_diff.
      * split; [discriminate|]. intros (o & Eo & Bo). congruence.
      * right. now left.
    + intros H; injection H as <- <-. split; [|split].
      * intros argv cwd [Hin|[]]. injection Hin as <- <-. apply not_publishing_diff.
      * split; [discriminate|]. intros (o & Eo & _). congruence.
      * right. now right.
  - intros H; injection H as <- <-. split; [|split].
    + intros argv cwd [Hin|[]]. injection Hin as <- <-. apply not_publishing_diff.
    + split; [discriminate|]. intros (o & Eo & _). congruence.
    + right. now right.
Qed.

Lemma regenerate_code_spec h reading our_repo tr res :
  _regenerate_code h reading our_repo = (tr, res) ->
  (forall argv cwd, In (Subprocess argv cwd) tr -> ~ is_publishing argv)
  /\ (res = Returns None <->
      succeeds h
        [executable h; "codegen.py"; "--meta_model";
         joinpath h (joinpath h our_repo "dev_scripts/codegen") "meta_model.py";
         "--target"; our_repo]%string
        (joinpath h our_repo "dev_scripts/codegen"))
  /\ (res = Returns None \/ res = Raises).
Proof.
  unfold _regenerate_code, run_checked, print, ret, bind, succeeds. cbn zeta.
  destruct (run_process h _ _) as [code output|] eqn:E.
  - destruct (Z.eqb_spec code 0) as [->|N]; simpl;
      intros H; injection H as <- <-; (split; [|split]).
    + intros argv cwd [Hin|[Hin|[Hin|[]]]]; try discriminate Hin.
      injection Hin as <- <-. apply not_publishing_six.
    + split; [intros _; now exists output|reflexivity].
    + now left.
    + intros argv cwd [Hin|[Hin|[]]]; try discriminate Hin.
      injection Hin as <- <-. apply not_publishing_six.
    + split; [discriminate|]. intros (o & Eo). congruence.
    + now right.
  - intros H; injection H as <- <-. split; [|split].
    + intros argv cwd [Hin|[Hin|[]]]; try discriminate Hin.
      injection Hin as <- <-. apply not_publishing_six.
    + split; [discriminate|]. intros (o & Eo). congruence.
    + now right.
Qed.

Lemma reformat_code_spec h our_repo tr res :
  _reformat_code h our_repo = (tr, res) ->
  (forall argv cwd, In (Subprocess argv cwd) tr -> ~ is_publishing argv)
  /\ (res = Returns tt <->
      succeeds h
        [executable h; joinpath h our_repo "continuous_integration/precommit.py";
         "--select"; "reformat"; "--overwrite"]%string
        our_repo)
  /\ (res = Returns tt \/ res = Raises).
Proof.
  unfold _reformat_code, check_call, print, bind, succeeds. cbn zeta.
  destruct (run_process h _ _) as [code output|] eqn:E.
  - destruct (Z.eqb_spec code 0) as [->|N]; simpl;
      intros H; injection H as <- <-; (split; [|split]);
      try (intros argv cwd [Hin|[Hin|[]]]; try discriminate Hin;
           injection Hin as <- <-; apply not_publishing_five).
    + split; [intros _; now exists output|reflexivity].
    + now left.
    + split; [discriminate|]. intros (o & Eo). congruence.
    + now right.
  - intros H; injection H as <- <-. split; [|split].
    + intros argv cwd [Hin|[Hin|[]]]; try discriminate Hin.
      injection Hin as <- <-. apply not_publishing_five.
    + split; [discriminate|]. intros (o & Eo). congruence.
    + now right.
Qed.

Lemma run_tests_and_rerecord_spec h fuel reading our_repo tr res :
  _run_tests_and_rerecord h fuel reading our_repo = (tr, res) ->
  (forall argv cwd, ~ In (Subprocess argv cwd) tr)
  /\ (res = Returns None <->
      exists procs evs,
        _run_in_parallel (time_time h) fuel
          (test_calls (popen h) (executable h) our_repo
             (test_env (environ h) (pathsep h) our_repo)
             (sorted_glob h (joinpath h our_repo "tests") "**/test_*.py"))
        = (Return None, procs, evs))
  /\ (res = Returns None \/ res = Returns (Some 1%Z) \/ res = Raises \/ res = Hangs).
Proof.
  unfold _run_tests_and_rerecord, supervised, print, ret. cbn zeta.
  destruct (_run_in_parallel _ fuel _) as [[o procs] evs] eqn:R.
  rewrite !bind_eq. cbn [fst snd].
  destruct o as [[code|]| |]; rewrite ?bind_eq; cbn [fst snd];
    intros H; injection H as <- <-; (split; [|split]);
    try (intros argv cwd Hin; cbn [app In] in Hin;
         repeat (destruct Hin as [Hin|Hin]; [discriminate Hin|]);
         try (apply in_app_or in Hin; destruct Hin as [Hin|Hin]);
         try (now apply in_effects_of_events in Hin);
         cbn [In] in Hin;
         repeat (destruct Hin as [Hin|Hin]; [discriminate Hin|]);
         exact Hin).
  - split; [discriminate|]. intros (p & e & E). discriminate E.
  - right. left. now rewrite (run_returns_one _ _ _ _ _ _ R).
  - split; [intros _; now exists procs, evs|reflexivity].
  - now left.
  - split; [discriminate|]. intros (p & e & E). discriminate E.
  - right. right. now left.
  - split; [discriminate|]. intros (p & e & E). discriminate E.
  - right. right. now right.
Qed.

Lemma get_codegen_revision_spec h our_repo :
  (forall argv cwd, ~ In (Subprocess argv cwd) (fst (_get_codegen_revision h our_repo)))
  /\ exists sha, snd (_get_codegen_revision h our_repo) = Returns sha.
Proof.
  unfold _get_codegen_revision.
  destruct (scan_lines _ _) as [[sha|] [e|]]; simpl;
    (split; [intros argv cwd Hin;
             repeat (destruct Hin as [Hin|Hin]; try discriminate Hin); exact Hin
            |eexists; reflexivity]).
Qed.

Lemma get_meta_model_revision_spec h our_repo :
  (forall argv cwd,
     ~ In (Subprocess argv cwd) (fst (_get_meta_model_revision h our_repo)))
  /\ exists sha, snd (_get_meta_model_revision h our_repo) = Returns sha.
Proof.
  unfold _get_meta_model_revision.
  destruct (scan_lines _ _) as [[sha|] [e|]]; simpl;
    (split; [intros argv cwd Hin;
             repeat (destruct Hin as [Hin|Hin]; try discriminate Hin); exact Hin
            |eexists; reflexivity]).
Qed.

Lemma check_output_spec h argv cwd tr res :
  check_output h argv cwd = (tr, res) ->
  tr = [Subprocess argv cwd]
  /\ (forall output, res = Returns output <-> run_process h argv cwd = Exited 0 output)
  /\ (res = Raises \/ exists output, res = Returns output).
Proof.
  unfold check_output. destruct (run_process h argv cwd) as [code output|].
  - destruct (Z.eqb_spec code 0) as [->|N]; intros H; injection H as <- <-;
      (split; [reflexivity|split]).
    + intros o. split; intros E; injection E as ->; reflexivity.
    + right. now exists output.
    + intros o. split; intros E; [discriminate|]. injection E as E _. now elim N.
    + now left.
  - intros H; injection H as <- <-. split; [reflexivity|split].
    + intros o. split; discriminate.
    + now left.
Qed.

Lemma never_publishes_app tr1 tr2 :
  never_publishes tr1 -> never_publishes tr2 -> never_publishes (tr1 ++ tr2).
Proof.
  intros H1 H2 argv cwd Hin. apply in_app_or in Hin.
  destruct Hin as [Hin|Hin]; [now apply (H1 argv cwd)|now apply (H2 argv cwd)].
Qed.

Lemma never_publishes_quiet tr :
  (forall argv cwd, ~ In (Subprocess argv cwd) tr) -> never_publishes tr.
Proof. intros H argv cwd Hin. now apply H in Hin. Qed.

Lemma never_publishes_nil : never_publishes [].
Proof. intros argv cwd []. Qed.

Lemma never_publishes_rev_parse cwd :
  never_publishes [Subprocess ["git"; "rev-parse"; "--abbrev-ref"; "HEAD"]%string cwd].
Proof.
  intros argv c [Hin|[]]. injection Hin as <- <-. apply not_publishing_rev_parse.
Qed.

Lemma never_publishes_print_err text : never_publishes [PrintErr text].
Proof. intros argv c [Hin|[]]. discriminate Hin. Qed.

Ltac np_solve :=
  repeat first
    [ assumption
    | apply never_publishes_rev_parse
    | apply never_publishes_print_err
    | apply never_publishes_nil
    | apply never_publishes_app
    | apply never_publishes_quiet; assumption ].

(** [main] either passes every check, finds both revisions and goes on to
    publish, or it publishes nothing and ends with 1, an exception or a
    supervisor that is still running. *)
Lemma main_cases h fuel our_repo expected_our_branch :
  (exists meta codegen before,
      checks_pass h fuel our_repo expected_our_branch
      /\ revisions_found h our_repo meta codegen
      /\ fst (main h fuel our_repo expected_our_branch)
         = before ++ fst (_create_branch_commit_and_push h our_repo meta codegen)
      /\ never_publishes before
      /\ snd (main h fuel our_repo expected_our_branch)
         = match snd (_create_branch_commit_and_push h our_repo meta codegen) with
           | Returns _ => Returns 0%Z
           | Raises => Raises
           | Hangs => Hangs
           end)
  \/ (~ (checks_pass h fuel our_repo expected_our_branch
         /\ exists meta codegen, revisions_found h our_repo meta codegen)
      /\ never_publishes (fst (main h fuel our_repo expected_our_branch))
      /\ (snd (main h fuel our_repo expected_our_branch) = Returns 1%Z
          \/ snd (main h fuel our_repo expected_our_branch) = Raises
          \/ snd (main h fuel our_repo expected_our_branch) = Hangs)).
Proof.
  unfold main. rewrite bind_eq.
  destruct (check_output h _ our_repo) as [tr1 res1] eqn:E1.
  apply check_output_spec in E1. destruct E1 as (-> & Hres1 & Hcase1).
  cbn [fst snd].
  destruct res1 as [out1| |].
  2: { right. cbn [fst snd]. split; [|split; [apply never_publishes_rev_parse|auto]].
       intros [(G1 & _) _]. destruct G1 as (o & Eo & _).
       apply Hres1 in Eo. discriminate Eo. }
  2: { destruct Hcase1 as [D|[o D]]; discriminate D. }
  pose proof (proj1 (Hres1 out1) eq_refl) as Erun1. clear Hres1 Hcase1.
  destruct (String.eqb_spec (strip out1) expected_our_branch) as [Eb|Nb]; cbn [negb].
  2: { right. rewrite bind_eq. cbn [fst snd print_err ret app].
       split; [|split; [|auto]].
       - intros [(G1 & _) _]. destruct G1 as (o & Eo & So). congruence.
       - apply (never_publishes_app [_] [_]);
           [apply never_publishes_rev_parse|apply never_publishes_print_err]. }
  rewrite bind_eq.
  destruct (_make_sure_no_changed_files h our_repo expected_our_branch)
    as [tr2 res2] eqn:E2.
  apply make_sure_no_changed_files_spec in E2. destruct E2 as (NP2 & Hres2 & Hcase2).
  fold (never_publishes tr2) in NP2. cbn [fst snd].
  destruct Hcase2 as [-> | [-> | ->]].
  2,3: right; cbn [fst snd ret]; (split; [|split; [np_solve|auto]]);
       intros [(_ & G2 & _) _]; apply Hres2 in G2; discriminate G2.
  pose proof (proj1 Hres2 eq_refl) as G2. clear Hres2.
  cbn [fst snd]. rewrite bind_eq.
  destruct (_regenerate_code h 0 our_repo) as [tr3 res3] eqn:E3.
  apply regenerate_code_spec in E3. destruct E3 as (NP3 & Hres3 & Hcase3).
  fold (never_publishes tr3) in NP3. cbn [fst snd].
  destruct Hcase3 as [-> | ->].
  2: right; cbn [fst snd]; (split; [|split; [np_solve|auto]]);
     intros [(_ & _ & G3 & _) _]; apply Hres3 in G3; discriminate G3.
  pose proof (proj1 Hres3 eq_refl) as G3. clear Hres3.
  cbn [fst snd]. rewrite bind_eq.
  destruct (_reformat_code h our_repo) as [tr4 res4] eqn:E4.
  apply reformat_code_spec in E4. destruct E4 as (NP4 & Hres4 & Hcase4).
  fold (never_publishes tr4) in NP4. cbn [fst snd].
  destruct Hcase4 as [-> | ->].
  2: right; cbn [fst snd]; (split; [|split; [np_solve|auto]]);
     intros [(_ & _ & _ & G4 & _) _]; apply Hres4 in G4; discriminate G4.
  pose proof (proj1 Hres4 eq_refl) as G4. clear Hres4.
  cbn [fst snd]. rewrite bind_eq.
  destruct (_run_tests_and_rerecord h fuel 2 our_repo) as [tr5 res5] eqn:E5.
  apply run_tests_and_rerecord_spec in E5. destruct E5 as (Q5 & Hres5 & Hcase5).
  cbn [fst snd].
  destruct Hcase5 as [->|[-> | [-> | ->]]].
  2,3,4: right; cbn [fst snd ret]; (split; [|split; [np_solve|auto]]);
         intros [(_ & _ & _ & _ & G5) _]; apply Hres5 in G5; discriminate G5.
  pose proof (proj1 Hres5 eq_refl) as G5. clear Hres5.
  cbn [fst snd]. rewrite bind_eq.
  destruct (get_codegen_revision_spec h our_repo) as (Q6 & sha6 & S6).
  rewrite S6. cbn [fst snd].
  destruct sha6 as [codegen|].
  2: { right. cbn [fst snd ret]. split; [|split; [np_solve|auto]].
       intros [_ (m & c & R1 & _)]. rewrite S6 in R1. discriminate R1. }
  rewrite bind_eq.
  destruct (get_meta_model_revision_spec h our_repo) as (Q7 & sha7 & S7).
  rewrite S7. cbn [fst snd].
  destruct sha7 as [meta|].
  2: { right. cbn [fst snd ret]. split; [|split; [np_solve|auto]].
       intros [_ (m & c & _ & R2)]. rewrite S7 in R2. discriminate R2. }
  left. rewrite bind_eq.
  exists meta, codegen,
    ([Subprocess ["git"; "rev-parse"; "--abbrev-ref"; "HEAD"]%string our_repo]
       ++ tr2 ++ tr3 ++ tr4 ++ tr5
       ++ fst (_get_codegen_revision h our_repo)
       ++ fst (_get_meta_model_revision h our_repo)).
  split; [|split; [|split; [|split]]].
  - repeat split; try assumption. now exists out1.
  - split; assumption.
  - rewrite <- !app_assoc. repeat f_equal.
    destruct (snd (_create_branch_commit_and_push h our_repo meta codegen));
      cbn [fst snd ret]; now rewrite ?app_nil_r.
  - np_solve.
  - destruct (snd (_create_branch_commit_and_push h our_repo meta codegen));
      reflexivity.
Qed.

(** ** Publishing *)

Lemma check_call_dec h argv cwd :
  (succeeds h argv cwd /\ check_call h argv cwd = ([Subprocess argv cwd], Returns tt))
  \/ (~ succeeds h argv cwd /\ check_call h argv cwd = ([Subprocess argv cwd], Raises)).
Proof.
  unfold check_call, succeeds.
  destruct (run_process h argv cwd) as [code output|].
  - destruct (Z.eqb_spec code 0) as [->|N].
    + left. split; [now exists output|reflexivity].
    + right. split; [|reflexivity]. intros (o & E). injection E as E _. now elim N.
  - right. split; [|reflexivity]. intros (o & E). discriminate E.
Qed.

Ltac not_in_trace :=
  match goal with
  | Hin : In _ _ |- _ =>
      exfalso; cbn [In app] in Hin;
      repeat (destruct Hin as [Hin|Hin]; [discriminate Hin|]); exact Hin
  end.

Ltac steps_prefix :=
  first [exists 1; reflexivity | exists 2; reflexivity | exists 3; reflexivity
        |exists 4; reflexivity | exists 5; reflexivity].

(** X15: [_create_branch_commit_and_push] runs [git checkout -b], [git add],
    the writing of the commit message, [git commit] and [git push] in this
    order and stops at the first that fails: the steps that it takes are,
    in order, the first [k] of these five; it returns exactly when all of
    them succeed and raises otherwise, and each step is taken exactly when
    everything before it has succeeded.  The commit is made from the file
    into which the message was written. *)
Theorem publishing_stops_at_first_failure
    h our_repo aas_core_meta_revision aas_core_codegen_revision :
  let branch := branch_name aas_core_meta_revision aas_core_codegen_revision in
  let tmp_file := joinpath h (temporary_directory h) "commit-message.txt" in
  let message := commit_message aas_core_meta_revision aas_core_codegen_revision in
  let checkout := succeeds h ["git"; "checkout"; "-b"; branch]%string our_repo in
  let add := succeeds h ["git"; "add"; "."]%string our_repo in
  let written := write_text h tmp_file message = true in
  let commit := succeeds h ["git"; "commit"; "--file"; tmp_file]%string our_repo in
  let push := succeeds h ["git"; "push"; "-u"]%string our_repo in
  let tr := fst (_create_branch_commit_and_push h our_repo
                   aas_core_meta_revision aas_core_codegen_revision) in
  let res := snd (_create_branch_commit_and_push h our_repo
                    aas_core_meta_revision aas_core_codegen_revision) in
  (exists k,
      steps_taken tr
      = firstn k
          [Subprocess ["git"; "checkout"; "-b"; branch]%string our_repo;
           Subprocess ["git"; "add"; "."]%string our_repo;
           WriteText tmp_file message;
           Subprocess ["git"; "commit"; "--file"; tmp_file]%string our_repo;
           Subprocess ["git"; "push"; "-u"]%string our_repo])
  /\ (res = Returns tt <-> checkout /\ add /\ written /\ commit /\ push)
  /\ (res = Returns tt \/ res = Raises)
  /\ In (Subprocess ["git"; "checkout"; "-b"; branch]%string our_repo) tr
  /\ (In (Subprocess ["git"; "add"; "."]%string our_repo) tr <-> checkout)
  /\ (In (WriteText tmp_file message) tr <-> checkout /\ add)
  /\ (In (Subprocess ["git"; "commit"; "--file"; tmp_file]%string our_repo) tr
      <-> checkout /\ add /\ written)
  /\ (In (Subprocess ["git"; "push"; "-u"]%string our_repo) tr
      <-> checkout /\ add /\ written /\ commit).
Proof.
  cbn zeta. unfold _create_branch_commit_and_push. cbn zeta.
  set (branch := branch_name aas_core_meta_revision aas_core_codegen_revision).
  set (tmp_file := joinpath h (temporary_directory h) "commit-message.txt").
  set (message := commit_message aas_core_meta_revision aas_core_codegen_revision).
  unfold print, write.
  destruct (check_call_dec h ["git"; "checkout"; "-b"; branch]%string our_repo)
    as [[S1 E1]|[N1 E1]]; rewrite E1.
  2: { cbn [bind fst snd app]. split; [steps_prefix|].
       repeat split; try tauto; try discriminate; auto;
         try (now cbn [In]; auto); try not_in_trace; try (intro; not_in_trace). }
  destruct (check_call_dec h ["git"; "add"; "."]%string our_repo)
    as [[S2 E2]|[N2 E2]]; rewrite E2.
  2: { cbn [bind fst snd app]. split; [steps_prefix|].
       repeat split; try tauto; try discriminate; auto;
         try (now cbn [In]; auto); try not_in_trace; try (intro; not_in_trace). }
  destruct (check_call_dec h ["git"; "commit"; "--file"; tmp_file]%string our_repo)
    as [[S3 E3]|[N3 E3]]; rewrite E3;
  destruct (check_call_dec h ["git"; "push"; "-u"]%string our_repo)
    as [[S4 E4]|[N4 E4]]; rewrite E4;
  destruct (write_text h tmp_file message) eqn:W;
  cbn [bind fst snd app with_cleanup];
  (split; [steps_prefix|]);
  (repeat split; try tauto; try discriminate; auto;
   try (now cbn [In]; auto 12);
   try (intros (_ & _ & D & _); discriminate D);
   try (intros (_ & _ & D); discriminate D);
   try not_in_trace; try (intro; not_in_trace)).
Qed.

(** ** What [main] publishes *)

Lemma all_chars_app class s1 s2 :
  all_chars class (s1 ++ s2) = all_chars class s1 && all_chars class s2.
Proof.
  induction s1 as [|c s1 IH]; simpl; [reflexivity|].
  rewrite IH. now rewrite andb_assoc.
Qed.

Lemma all_chars_weaken (class class' : ascii -> bool) :
  (forall c, class c = true -> class' c = true) ->
  forall s, all_chars class s = true -> all_chars class' s = true.
Proof.
  intros Hc. induction s as [|c s IH]; simpl; [reflexivity|].
  intros H. apply andb_true_iff in H. destruct H as [H1 H2].
  now rewrite (Hc c H1), (IH H2).
Qed.

Lemma alnum_branch_char c : alnum c = true -> branch_char c = true.
Proof. unfold branch_char. now intros ->. Qed.

(** The commands of [_create_branch_commit_and_push]. *)
Lemma create_trace_commands h our_repo meta codegen argv cwd :
  In (Subprocess argv cwd)
    (fst (_create_branch_commit_and_push h our_repo meta codegen)) ->
  cwd = our_repo
  /\ (argv = ["git"; "checkout"; "-b"; branch_name meta codegen]%string
      \/ argv = ["git"; "add"; "."]%string
      \/ argv = ["git"; "commit"; "--file";
                 joinpath h (temporary_directory h) "commit-message.txt"]%string
      \/ argv = ["git"; "push"; "-u"]%string).
Proof.
  unfold _create_branch_commit_and_push. cbn zeta. unfold print, write.
  set (branch := branch_name meta codegen).
  set (tmp_file := joinpath h (temporary_directory h) "commit-message.txt").
  destruct (check_call_dec h ["git"; "checkout"; "-b"; branch]%string our_repo)
    as [[_ E1]|[_ E1]]; rewrite E1;
  destruct (check_call_dec h ["git"; "add"; "."]%string our_repo)
    as [[_ E2]|[_ E2]]; rewrite E2;
  destruct (check_call_dec h ["git"; "commit"; "--file"; tmp_file]%string our_repo)
    as [[_ E3]|[_ E3]]; rewrite E3;
  destruct (check_call_dec h ["git"; "push"; "-u"]%string our_repo)
    as [[_ E4]|[_ E4]]; rewrite E4;
  destruct (write_text h tmp_file (commit_message meta codegen));
  cbn [bind fst snd app with_cleanup In];
  intros Hin;
  repeat (destruct Hin as [Hin|Hin];
          [first [discriminate Hin | injection Hin as <- <-; tauto]|]);
  destruct Hin.
Qed.

Lemma revisions_found_unique h our_repo meta codegen meta' codegen' :
  revisions_found h our_repo meta codegen ->
  revisions_found h our_repo meta' codegen' ->
  meta = meta' /\ codegen = codegen'.
Proof.
  intros [C M] [C' M']. rewrite C in C'. rewrite M in M'.
  injection C' as ->. injection M' as ->. now split.
Qed.

Ltac in_trace := cbn; repeat first [left; reflexivity | right].

(** X16: [main] runs a publishing command ([git checkout -b], [git add],
    [git commit], [git push]) only after every check has passed (the branch is
    the expected one, no file is modified, the code generator and the
    reformatting succeeded, the supervisor of the tests returned [None]) and
    both revisions have been found. *)
Theorem publishes_only_after_all_checks
    h fuel our_repo expected_our_branch argv cwd :
  In (Subprocess argv cwd) (fst (main h fuel our_repo expected_our_branch)) ->
  is_publishing argv ->
  checks_pass h fuel our_repo expected_our_branch
  /\ exists meta codegen, revisions_found h our_repo meta codegen.
Proof.
  intros Hin Hpub.
  destruct (main_cases h fuel our_repo expected_our_branch)
    as [(meta & codegen & before & Hc & Hr & _)|(_ & NP & _)].
  - split; [exact Hc|now exists meta, codegen].
  - now elim (NP argv cwd Hin).
Qed.

Lemma publishes_only_after_all_checks_witness :
  checks_pass example_host 1 "/repo" "main"
  /\ exists meta codegen, revisions_found example_host "/repo" meta codegen.
Proof.
  apply (publishes_only_after_all_checks example_host 1 "/repo" "main"
           ["git"; "push"; "-u"]%string "/repo"%string).
  - in_trace.
  - right. right. right. reflexivity.
Defined.

(** X17: [main] returns 0 exactly when every check has passed, both
    revisions have been found and [_create_branch_commit_and_push] has
    returned; every other code that it returns is 1 (whatever the codes of
    the commands and of the test modules were). *)
Theorem main_exit_code h fuel our_repo expected_our_branch :
  (snd (main h fuel our_repo expected_our_branch) = Returns 0%Z
   <-> checks_pass h fuel our_repo expected_our_branch
       /\ exists meta codegen,
            revisions_found h our_repo meta codegen
            /\ snd (_create_branch_commit_and_push h our_repo meta codegen)
               = Returns tt)
  /\ (forall code,
        snd (main h fuel our_repo expected_our_branch) = Returns code ->
        code = 0%Z \/ code = 1%Z).
Proof.
  destruct (main_cases h fuel our_repo expected_our_branch)
    as [(meta & codegen & before & Hc & Hr & _ & _ & Hs)
       |(Hn & _ & [Hs|[Hs|Hs]])]; rewrite Hs.
  - split.
    + split.
      * intros H. split; [exact Hc|]. exists meta, codegen. split; [exact Hr|].
        destruct (snd (_create_branch_commit_and_push h our_repo meta codegen))
          as [[]| |]; [reflexivity|discriminate H|discriminate H].
      * intros (_ & meta' & codegen' & Hr' & Hp).
        destruct (revisions_found_unique _ _ _ _ _ _ Hr Hr') as [-> ->].
        now rewrite Hp.
    + intros code H.
      destruct (snd (_create_branch_commit_and_push h our_repo meta codegen));
        [injection H as <-; now left|discriminate H|discriminate H].
  - split.
    + split; [discriminate|].
      intros (Hc & meta & codegen & Hr & _). elim Hn.
      split; [exact Hc|now exists meta, codegen].
    + intros code H. injection H as <-. now right.
  - split.
    + split; [discriminate|].
      intros (Hc & meta & codegen & Hr & _). elim Hn.
      split; [exact Hc|now exists meta, codegen].
    + intros code H. discriminate H.
  - split.
    + split; [discriminate|].
      intros (Hc & meta & codegen & Hr & _). elim Hn.
      split; [exact Hc|now exists meta, codegen].
    + intros code H. discriminate H.
Qed.

(** X18: the branch that [main] creates is named
    [Update-to-aas-core-meta-codegen-<meta>-<codegen>], where [<meta>] is one
    to eight letters and digits and [<codegen>] is a non-empty text of
    letters and digits: the name holds letters, digits and [-] only, whatever
    the two files contain.  The branch is created in the repository of the
    script. *)
Theorem created_branch_name_is_clean
    h fuel our_repo expected_our_branch branch cwd :
  In (Subprocess ["git"; "checkout"; "-b"; branch]%string cwd)
    (fst (main h fuel our_repo expected_our_branch)) ->
  cwd = our_repo
  /\ all_chars branch_char branch = true
  /\ exists meta codegen,
       branch = ("Update-to-aas-core-meta-codegen-" ++ meta ++ "-" ++ codegen)%string
       /\ 1 <= String.length meta <= 8
       /\ 1 <= String.length codegen
       /\ revisions_found h our_repo meta codegen.
Proof.
  intros Hin.
  destruct (main_cases h fuel our_repo expected_our_branch)
    as [(meta & codegen & before & _ & Hr & Htr & NP & _)|(_ & NP & _)].
  2: { elim (NP _ _ Hin). left. now exists branch. }
  rewrite Htr in Hin. apply in_app_or in Hin. destruct Hin as [Hin|Hin].
  { elim (NP _ _ Hin). left. now exists branch. }
  apply create_trace_commands in Hin.
  destruct Hin as [-> [E|[E|[E|E]]]]; try discriminate E.
  injection E as ->.
  pose proof Hr as [Hcg Hm].
  rewrite get_codegen_revision_snd in Hcg. injection Hcg as Hcg.
  rewrite get_meta_model_revision_snd in Hm. injection Hm as Hm.
  destruct (scan_lines _AAS_CORE_CODEGEN_SHA_RE _) as [cg e1] eqn:S1.
  cbn [fst] in Hcg. subst cg.
  destruct (scan_lines _AAS_CORE_META_SHA_RE _) as [[group|] e2] eqn:S2;
    [|discriminate Hm].
  cbn [fst option_map] in Hm.
  change (Some (take 8 group) = Some meta) in Hm.
  assert (Em : take 8 group = meta) by congruence. clear Hm. rename Em into Hm.
  apply scan_codegen_sha in S1. destruct S1 as [L1 A1].
  apply scan_meta_sha in S2. destruct S2 as [L2 A2].
  assert (Lm : 1 <= String.length meta <= 8).
  { subst meta. split; [|apply length_take_le].
    destruct group as [|c group]; [simpl in L2; lia|simpl; lia]. }
  assert (Am : all_chars alnum meta = true).
  { subst meta. exact (all_chars_take_any alnum 8 group A2). }
  split; [reflexivity|]. split.
  - unfold branch_name. rewrite !all_chars_app.
    rewrite (all_chars_weaken alnum branch_char alnum_branch_char meta Am).
    rewrite (all_chars_weaken alnum branch_char alnum_branch_char codegen A1).
    reflexivity.
  - exists meta, codegen. repeat split; try assumption; try lia; apply Hr.
Qed.

Lemma created_branch_name_is_clean_witness :
  "/repo"%string = "/repo"%string
  /\ all_chars branch_char "Update-to-aas-core-meta-codegen-79314c63-c414f32" = true
  /\ exists meta codegen,
       "Update-to-aas-core-meta-codegen-79314c63-c414f32"%string
       = ("Update-to-aas-core-meta-codegen-" ++ meta ++ "-" ++ codegen)%string
       /\ 1 <= String.length meta <= 8
       /\ 1 <= String.length codegen
       /\ revisions_found example_host "/repo" meta codegen.
Proof.
  apply (created_branch_name_is_clean example_host 1 "/repo" "main"
           "Update-to-aas-core-meta-codegen-79314c63-c414f32" "/repo"%string).
  in_trace.
Defined.

(** ** The directory of the commit message *)

(** X19: once the branch is created and the files are added,
    [_create_branch_commit_and_push] writes the commit message into a
    temporary directory and removes that directory again whether or not the
    writing and the commit succeed: the removal comes right after the commit
    (or right after the writing, when that failed), the directory is removed
    once, and nothing is written to it nor committed from it afterwards. *)
Theorem commit_message_directory_is_removed
    h our_repo aas_core_meta_revision aas_core_codegen_revision :
  let tmp_dir := temporary_directory h in
  let tmp_file := joinpath h tmp_dir "commit-message.txt" in
  let message := commit_message aas_core_meta_revision aas_core_codegen_revision in
  succeeds h ["git"; "checkout"; "-b";
              branch_name aas_core_meta_revision aas_core_codegen_revision]%string
    our_repo ->
  succeeds h ["git"; "add"; "."]%string our_repo ->
  exists before attempt after,
    fst (_create_branch_commit_and_push h our_repo
           aas_core_meta_revision aas_core_codegen_revision)
    = before ++ WriteText tmp_file message :: attempt ++ RemoveTree tmp_dir :: after
    /\ attempt = (if write_text h tmp_file message
                  then [Subprocess ["git"; "commit"; "--file"; tmp_file]%string
                          our_repo]
                  else [])
    /\ (forall path, ~ In (RemoveTree path) (before ++ after))
    /\ (forall path text, ~ In (WriteText path text) (before ++ after))
    /\ (forall file cwd,
          ~ In (Subprocess ["git"; "commit"; "--file"; file]%string cwd)
              (before ++ after)).
Proof.
  cbn zeta. intros S1 S2.
  unfold _create_branch_commit_and_push. cbn zeta. unfold print, write.
  set (branch := branch_name aas_core_meta_revision aas_core_codegen_revision) in *.
  set (tmp_file := joinpath h (temporary_directory h) "commit-message.txt").
  set (message := commit_message aas_core_meta_revision aas_core_codegen_revision).
  destruct (check_call_dec h ["git"; "checkout"; "-b"; branch]%string our_repo)
    as [[_ E1]|[N1 _]]; [rewrite E1|contradiction].
  destruct (check_call_dec h ["git"; "add"; "."]%string our_repo)
    as [[_ E2]|[N2 _]]; [rewrite E2|contradiction].
  destruct (check_call_dec h ["git"; "commit"; "--file"; tmp_file]%string our_repo)
    as [[_ E3]|[_ E3]]; rewrite E3;
  destruct (check_call_dec h ["git"; "push"; "-u"]%string our_repo)
    as [[_ E4]|[_ E4]]; rewrite E4;
  (destruct (write_text h tmp_file message);
   cbn [bind fst snd app with_cleanup];
   [eexists [_; _; _; _; _], [_], _|eexists [_; _; _; _; _], [], _]);
  (split; [reflexivity|]); (split; [reflexivity|]);
  (repeat split; intros; intro; not_in_trace).
Qed.

Lemma commit_message_directory_is_removed_witness :
  exists before attempt after,
    fst (_create_branch_commit_and_push example_host "/repo" "79314c63" "c414f32")
    = before
        ++ WriteText "/tmp/tmp0/commit-message.txt"
             (commit_message "79314c63" "c414f32")
        :: attempt ++ RemoveTree "/tmp/tmp0" :: after
    /\ attempt = [Subprocess ["git"; "commit"; "--file";
                              "/tmp/tmp0/commit-message.txt"]%string "/repo"%string]
    /\ (forall path, ~ In (RemoveTree path) (before ++ after))
    /\ (forall path text, ~ In (WriteText path text) (before ++ after))
    /\ (forall file cwd,
          ~ In (Subprocess ["git"; "commit"; "--file"; file]%string cwd)
              (before ++ after)).
Proof.
  apply (commit_message_directory_is_removed example_host "/repo" "79314c63" "c414f32").
  - exists EmptyString. reflexivity.
  - exists EmptyString. reflexivity.
Defined.

(** ** The environment of the test modules, variable by variable *)

(** X20: the environment that [_run_tests_and_rerecord] hands to the test
    modules is the environment of the script with two variables set: the
    record mode is ["true"], [PYTHONPATH] is the repository, put after the
    old value and the path separator when there was one; every other
    variable is as in the environment of the script. *)
Theorem test_env_changes_two_variables os_environ pathsep our_repo key :
  env_get key (test_env os_environ pathsep our_repo)
  = if String.eqb key AAS_RECORD_MODE then Some "true"%string
    else if String.eqb key "PYTHONPATH" then
      Some (match env_get "PYTHONPATH" os_environ with
            | None => our_repo
            | Some python_path => (python_path ++ pathsep ++ our_repo)%string
            end)
    else env_get key os_environ.
Proof.
  destruct (String.eqb_spec key AAS_RECORD_MODE) as [->|N1].
  - apply test_env_record_mode.
  - destruct (String.eqb_spec key "PYTHONPATH") as [->|N2].
    + apply test_env_record_mode.
    + unfold test_env. now rewrite !env_get_set_other by assumption.
Qed.

(** ** The guards of [main] *)

(** X21: when the repository is not on the expected branch, or files are
    modified with respect to it, [main] returns 1 and has done nothing but
    run [git rev-parse] and [git diff] and print one message on the standard
    error: the code generator and the reformatting are not run, no test
    module is started, nothing is written and nothing is published. *)
Theorem unexpected_state_leaves_repository_alone
    h fuel our_repo expected_our_branch output :
  run_process h ["git"; "rev-parse"; "--abbrev-ref"; "HEAD"]%string our_repo
  = Exited 0 output ->
  strip output <> expected_our_branch
  \/ (exists diff,
        run_process h ["git"; "diff"; "--name-status"; expected_our_branch]%string
          our_repo
        = Exited 0 diff
        /\ blank diff = false) ->
  snd (main h fuel our_repo expected_our_branch) = Returns 1%Z
  /\ exists message,
       fst (main h fuel our_repo expected_our_branch)
       = [Subprocess ["git"; "rev-parse"; "--abbrev-ref"; "HEAD"]%string our_repo;
          PrintErr message]
       \/ fst (main h fuel our_repo expected_our_branch)
          = [Subprocess ["git"; "rev-parse"; "--abbrev-ref"; "HEAD"]%string our_repo;
             Subprocess ["git"; "diff"; "--name-status"; expected_our_branch]%string
               our_repo;
             PrintErr message].
Proof.
  intros Hrev Hstate.
  assert (Hmain : exists tr message,
             main h fuel our_repo expected_our_branch = (tr, Returns 1%Z)
             /\ (tr = [Subprocess ["git"; "rev-parse"; "--abbrev-ref"; "HEAD"]%string
                         our_repo;
                       PrintErr message]
                 \/ tr = [Subprocess ["git"; "rev-parse"; "--abbrev-ref";
                                      "HEAD"]%string our_repo;
                          Subprocess ["git"; "diff"; "--name-status";
                                      expected_our_branch]%string our_repo;
                          PrintErr message])).
  { unfold main, check_output at 1. rewrite Hrev. cbn [Z.eqb bind].
    destruct (String.eqb_spec (strip output) expected_our_branch) as [Eb|Nb];
      cbn [negb].
    - destruct Hstate as [N|(diff & Hdiff & Hblank)]; [contradiction|].
      unfold _make_sure_no_changed_files, check_output. rewrite Hdiff.
      cbn [Z.eqb bind]. rewrite has_lines_iff_not_blank, Hblank.
      cbn [negb bind print_err ret app]. eexists _, _.
      split; [reflexivity|]. right. reflexivity.
    - cbn [bind print_err ret app]. eexists _, _.
      split; [reflexivity|]. left. reflexivity. }
  destruct Hmain as (tr & message & -> & Htr). cbn [fst snd].
  split; [reflexivity|]. now exists message.
Qed.

Lemma unexpected_state_leaves_repository_alone_witness :
  snd (main example_host 1 "/repo" "master") = Returns 1%Z
  /\ exists message,
       fst (main example_host 1 "/repo" "master")
       = [Subprocess ["git"; "rev-parse"; "--abbrev-ref"; "HEAD"]%string
            "/repo"%string;
          PrintErr message]
       \/ fst (main example_host 1 "/repo" "master")
          = [Subprocess ["git"; "rev-parse"; "--abbrev-ref"; "HEAD"]%string
               "/repo"%string;
             Subprocess ["git"; "diff"; "--name-status"; "master"]%string
               "/repo"%string;
             PrintErr message].
Proof.
  apply (unexpected_state_leaves_repository_alone example_host 1 "/repo" "master"
           ("main" ++ nl)%string).
  - reflexivity.
  - left. vm_compute. discriminate.
Defined.

(** * The pre-commit script *)

Section PrecommitFacts.

Import Precommit.

Lemma all_passed_nil p : all_passed p [].
Proof. intros cmd cwd env []. Qed.

Lemma all_passed_app p tr1 tr2 :
  all_passed p tr1 -> all_passed p tr2 -> all_passed p (tr1 ++ tr2).
Proof.
  intros H1 H2 cmd cwd env Hin. apply in_app_or in Hin.
  destruct Hin as [Hin|Hin]; [now apply H1|now apply H2].
Qed.

Lemma all_passed_say p text tr : all_passed p tr -> all_passed p (Say text :: tr).
Proof.
  intros H cmd cwd env [Hin|Hin]; [discriminate Hin|now apply H].
Qed.

Lemma all_passed_read p path tr :
  all_passed p tr -> all_passed p (ReadText path :: tr).
Proof.
  intros H cmd cwd env [Hin|Hin]; [discriminate Hin|now apply H].
Qed.

Lemma all_passed_call p cmd cwd env tr :
  call p cmd cwd env = ExitCode 0 -> all_passed p tr ->
  all_passed p (Call cmd cwd env :: tr).
Proof.
  intros E H cmd' cwd' env' [Hin|Hin]; [now injection Hin as <- <- <-|now apply H].
Qed.

Lemma failed_last_app p tr1 tr2 :
  all_passed p tr1 -> failed_last p tr2 -> failed_last p (tr1 ++ tr2).
Proof.
  intros H1 (before & cmd & cwd & env & status & message & -> & E & N & H2).
  exists (tr1 ++ before), cmd, cwd, env, status, message.
  rewrite app_assoc. repeat split; try assumption. now apply all_passed_app.
Qed.

Lemma raised_last_app p tr1 tr2 :
  all_passed p tr1 -> raised_last p tr2 -> raised_last p (tr1 ++ tr2).
Proof.
  intros H1 (before & last & -> & H2 & L).
  exists (tr1 ++ before), last.
  rewrite app_assoc. repeat split; try assumption. now apply all_passed_app.
Qed.

Lemma bind_run_eq {A B} (m : run A) (k : A -> run B) :
  bind m k
  = match snd m with
    | Some a => (fst m ++ fst (k a), snd (k a))
    | None => (fst m, None)
    end.
Proof.
  destruct m as [tr [a|]]; simpl; [now destruct (k a)|reflexivity].
Qed.

(** What [call_and_report] does. *)
Lemma call_and_report_eq p verb cmd cwd env :
  exists text,
    call_and_report p verb cmd cwd env
    = match call p cmd cwd env with
      | ExitCode code =>
          ([Say text; Call cmd cwd env]
             ++ (if (code =? 0)%Z then []
                 else [SayErr ("Failed to " ++ verb ++ " with exit code "
                                 ++ str_of_int p code ++ ": "
                                 ++ join " " (map (quote p) cmd))%string]),
           Some code)
      | CannotStart => ([Say text; Call cmd cwd env], None)
      end.
Proof.
  unfold call_and_report, subprocess_call, say, say_err.
  destruct cwd as [cwd|]; eexists; cbn [bind app];
    (destruct (call p cmd _ env) as [code|]; [|reflexivity]);
    (destruct (code =? 0)%Z; reflexivity).
Qed.

Lemma call_and_report_calls p verb cmd cwd env cmd' cwd' env' :
  In (Call cmd' cwd' env') (fst (call_and_report p verb cmd cwd env)) ->
  cmd' = cmd /\ cwd' = cwd /\ env' = env.
Proof.
  destruct (call_and_report_eq p verb cmd cwd env) as (text & ->).
  destruct (call p cmd cwd env) as [code|]; [destruct (code =? 0)%Z|];
    cbn [fst app In]; intros Hin;
    repeat (destruct Hin as [Hin|Hin];
            [first [discriminate Hin|injection Hin as <- <- <-; auto]|]);
    destruct Hin.
Qed.

(** A command that is run and checked: [exit_code = call_and_report(...)],
    then [if exit_code != 0: return 1], then the rest of the block. *)
Lemma checked_call_ends p verb cmd cwd env (rest : run (option Z)) :
  block_ends p rest ->
  block_ends p
    (bind (call_and_report p verb cmd cwd env)
       (fun exit_code =>
          if negb (exit_code =? 0)%Z then ret (Some 1%Z) else rest)).
Proof.
  intros Hrest. rewrite bind_run_eq.
  destruct (call_and_report_eq p verb cmd cwd env) as (text & ->).
  destruct (call p cmd cwd env) as [code|] eqn:E; cbn [fst snd].
  - destruct (Z.eqb_spec code 0) as [->|N]; cbn [negb app].
    + unfold block_ends in *. cbn [fst snd].
      assert (Hp : all_passed p [Say text; Call cmd cwd env])
        by (apply all_passed_say, all_passed_call; [exact E|apply all_passed_nil]).
      destruct (snd rest) as [[c|]|].
      * destruct Hrest as [-> Hf]. split; [reflexivity|].
        now apply (failed_last_app p [_; _]).
      * now apply (all_passed_app p [_; _]).
      * now apply (raised_last_app p [_; _]).
    + unfold block_ends. cbn [fst snd ret app]. split; [reflexivity|].
      eexists [Say text], cmd, cwd, env, code, _. cbn [app].
      repeat split; try assumption.
      apply all_passed_say, all_passed_nil.
  - unfold block_ends. cbn [fst snd].
    exists [Say text], (Call cmd cwd env). repeat split; [|exact E].
    apply all_passed_say, all_passed_nil.
Qed.

Lemma checked_call_calls p verb cmd cwd env (rest : run (option Z)) cmd' cwd' env' :
  In (Call cmd' cwd' env')
    (fst (bind (call_and_report p verb cmd cwd env)
            (fun exit_code =>
               if negb (exit_code =? 0)%Z then ret (Some 1%Z) else rest))) ->
  (cmd' = cmd /\ cwd' = cwd /\ env' = env)
  \/ In (Call cmd' cwd' env') (fst rest).
Proof.
  rewrite bind_run_eq.
  destruct (snd (call_and_report p verb cmd cwd env)) as [code|].
  - cbn [fst]. intros Hin. apply in_app_or in Hin.
    destruct Hin as [Hin|Hin]; [left; now apply call_and_report_calls in Hin|].
    destruct (negb (code =? 0)%Z); [destruct Hin|now right].
  - cbn [fst]. intros Hin. left. now apply call_and_report_calls in Hin.
Qed.

Lemma return_1_if_failed_eq exit_code :
  return_1_if_failed exit_code
  = if negb (exit_code =? 0)%Z then ret (Some 1%Z) else ret None.
Proof. reflexivity. Qed.

Lemma block_ends_ret_None p : block_ends p (ret None).
Proof. apply all_passed_nil. Qed.

Lemma block_ends_say p text (b : run (option Z)) :
  block_ends p b -> block_ends p (bind (say text) (fun _ => b)).
Proof.
  intros H. rewrite bind_run_eq. unfold block_ends in *. cbn [say fst snd].
  assert (Hp : all_passed p [Say text]) by apply all_passed_say, all_passed_nil.
  destruct (snd b) as [[c|]|].
  - destruct H as [-> Hf]. split; [reflexivity|]. now apply failed_last_app.
  - now apply all_passed_app.
  - now apply raised_last_app.
Qed.

Lemma say_calls text (b : run (option Z)) a :
  In a (fst (bind (say text) (fun _ => b))) -> a = Say text \/ In a (fst b).
Proof.
  rewrite bind_run_eq. cbn [say fst snd app In]. intros [H|H]; auto.
Qed.

(** ** The blocks of [main] *)

Ltac block_ends_solve :=
  repeat first
    [ apply block_ends_ret_None
    | apply block_ends_say
    | apply (checked_call_ends _ _ _ _ _ (ret None))
    | apply checked_call_ends ].

Lemma reformat_ends p overwrite selects skips :
  block_ends p (reformat p overwrite selects skips).
Proof.
  unfold reformat. destruct (_ && _); [|block_ends_solve].
  destruct overwrite; block_ends_solve.
Qed.

Lemma mypy_ends p selects skips : block_ends p (mypy p selects skips).
Proof. unfold mypy. destruct (_ && _); cbn zeta; block_ends_solve. Qed.

Lemma pylint_ends p selects skips : block_ends p (pylint p selects skips).
Proof. unfold pylint. destruct (_ && _); cbn zeta; block_ends_solve. Qed.

Lemma test_ends p selects skips : block_ends p (test p selects skips).
Proof. unfold test. destruct (_ && _); cbn zeta; block_ends_solve. Qed.

Lemma check_init_ends p selects skips : block_ends p (check_init p selects skips).
Proof. unfold check_init. destruct (_ && _); cbn zeta; block_ends_solve. Qed.

Lemma doctest_modules_ends p : forall modules,
  (forall m, In m modules -> In m (py_files p)) ->
  block_ends p (doctest_modules p modules).
Proof.
  induction modules as [|m modules IH]; intros Hsub; cbn [doctest_modules].
  - apply block_ends_ret_None.
  - assert (IH' : block_ends p (doctest_modules p modules))
      by (apply IH; intros m' Hin; apply Hsub; now right).
    destruct (name m =? "__main__.py")%string; [exact IH'|].
    rewrite bind_run_eq. unfold read_text. cbn [fst snd].
    destruct (text m) as [text|] eqn:T.
    + assert (Hgoal : block_ends p
                (if contains ">>>" text
                 then bind (call_and_report p "doctest"
                              [executable p; "-m"; "doctest"; pth m]%string
                              (Some (repo_root p)) None)
                        (fun exit_code =>
                           if negb (exit_code =? 0)%Z then ret (Some 1%Z)
                           else doctest_modules p modules)
                 else doctest_modules p modules)).
      { destruct (contains ">>>" text); [now apply checked_call_ends|exact IH']. }
      revert Hgoal. unfold block_ends. cbn [fst snd].
      assert (Hp : all_passed p [ReadText (pth m)])
        by apply all_passed_read, all_passed_nil.
      match goal with |- context [snd ?b] => destruct (snd b) as [[c|]|] end.
      * intros [-> Hf]. split; [reflexivity|]. now apply failed_last_app.
      * intros Ha. now apply all_passed_app.
      * intros Hr. now apply raised_last_app.
    + unfold block_ends. cbn [fst snd].
      exists [], (ReadText (pth m)). repeat split; [apply all_passed_nil|].
      exists m. repeat split; [apply Hsub; now left|exact T].
Qed.

Lemma doctest_ends p selects skips : block_ends p (doctest p selects skips).
Proof.
  unfold doctest. destruct (_ && _); cbn zeta; [|block_ends_solve].
  apply block_ends_say, checked_call_ends, doctest_modules_ends. auto.
Qed.

(** ** The whole of [main] *)

Lemma and_then_ends p (block : run (option Z)) (rest : run Z) :
  block_ends p block -> main_ends p rest -> main_ends p (and_then block rest).
Proof.
  unfold and_then, block_ends, main_ends. rewrite bind_run_eq.
  destruct (snd block) as [[code|]|]; cbn [fst snd ret].
  - intros [-> Hf] _. right. split; [reflexivity|]. now rewrite app_nil_r.
  - intros Ha. destruct (snd rest) as [code|].
    + intros [[-> Hr]|[-> Hr]]; [left|right]; (split; [reflexivity|]).
      * now apply all_passed_app.
      * now apply failed_last_app.
    + intros Hr. now apply raised_last_app.
  - auto.
Qed.

Lemma main_ends_ret_0 p : main_ends p (ret 0%Z).
Proof. left. split; [reflexivity|apply all_passed_nil]. Qed.

(** ** The commands of the blocks *)

Ltac calls_solve :=
  repeat match goal with
    | H : In _ (fst (bind (say _) _)) |- _ =>
        apply say_calls in H; destruct H as [H|H]; [discriminate H|]
    | H : In _ (fst (bind (call_and_report _ _ _ _ _) _)) |- _ =>
        first [apply (checked_call_calls _ _ _ _ _ (ret None)) in H
              |apply checked_call_calls in H];
        destruct H as [(-> & -> & ->)|H]
    | H : In _ (fst (ret _)) |- _ => destruct H
    end.

Lemma reformat_calls p overwrite selects skips cmd cwd env :
  In (Call cmd cwd env) (fst (reformat p overwrite selects skips)) ->
  member REFORMAT selects = true /\ member REFORMAT skips = false
  /\ cwd = Some (repo_root p) /\ env = None
  /\ cmd = [executable p; "-m"%string; "black"%string]
             ++ (if overwrite then [] else ["--check"%string])
             ++ reformat_targets ++ ["--exclude"%string; reformat_exclude].
Proof.
  unfold reformat.
  destruct (member REFORMAT selects); [|cbn [andb negb]; intros Hin; calls_solve; fail].
  destruct (member REFORMAT skips); [cbn [andb negb]; intros Hin; calls_solve; fail|].
  cbn [andb negb]. destruct overwrite; intros Hin; calls_solve; auto.
Qed.

Lemma mypy_calls p selects skips cmd cwd env :
  In (Call cmd cwd env) (fst (mypy p selects skips)) ->
  member MYPY selects = true /\ member MYPY skips = false
  /\ cwd = Some (repo_root p) /\ env = None /\ step_of cmd = Some MYPY.
Proof.
  unfold mypy.
  destruct (member MYPY selects); [|cbn [andb negb]; intros Hin; calls_solve; fail].
  destruct (member MYPY skips); [cbn [andb negb]; intros Hin; calls_solve; fail|].
  cbn [andb negb]. cbn zeta. intros Hin; calls_solve; auto.
Qed.

Lemma pylint_calls p selects skips cmd cwd env :
  In (Call cmd cwd env) (fst (pylint p selects skips)) ->
  member PYLINT selects = true /\ member PYLINT skips = false
  /\ cwd = Some (repo_root p) /\ env = None /\ step_of cmd = Some PYLINT.
Proof.
  unfold pylint.
  destruct (member PYLINT selects); [|cbn [andb negb]; intros Hin; calls_solve; fail].
  destruct (member PYLINT skips); [cbn [andb negb]; intros Hin; calls_solve; fail|].
  cbn [andb negb]. cbn zeta. intros Hin; calls_solve; auto.
Qed.

Lemma test_calls_of_step p selects skips cmd cwd env :
  In (Call cmd cwd env) (fst (test p selects skips)) ->
  member TEST selects = true /\ member TEST skips = false
  /\ cwd = Some (repo_root p) /\ step_of cmd = Some TEST
  /\ (env = None
      \/ env = Some (env_set "ICONTRACT_SLOW" "true" (environ p))
         /\ nth_error cmd 3 = Some "run"%string).
Proof.
  unfold test.
  destruct (member TEST selects); [|cbn [andb negb]; intros Hin; calls_solve; fail].
  destruct (member TEST skips); [cbn [andb negb]; intros Hin; calls_solve; fail|].
  cbn [andb negb]. cbn zeta. intros Hin; calls_solve; auto 10.
Qed.

Lemma check_init_calls p selects skips cmd cwd env :
  In (Call cmd cwd env) (fst (check_init p selects skips)) ->
  member CHECK_INIT_AND_PYPROJECT_TOML_CONSISTENT selects = true
  /\ member CHECK_INIT_AND_PYPROJECT_TOML_CONSISTENT skips = false
  /\ cwd = Some (repo_root p) /\ env = None
  /\ step_of cmd = Some CHECK_INIT_AND_PYPROJECT_TOML_CONSISTENT.
Proof.
  unfold check_init.
  destruct (member _ selects); [|cbn [andb negb]; intros Hin; calls_solve; fail].
  destruct (member _ skips); [cbn [andb negb]; intros Hin; calls_solve; fail|].
  cbn [andb negb]. cbn zeta. intros Hin; calls_solve; auto.
Qed.

Lemma doctest_modules_calls p cmd cwd env : forall modules,
  In (Call cmd cwd env) (fst (doctest_modules p modules)) ->
  cwd = Some (repo_root p) /\ env = None
  /\ exists m, In m modules /\ has_doctest m = true /\ cmd = doctest_of p m.
Proof.
  induction modules as [|m modules IH]; cbn [doctest_modules]; [intros []|].
  assert (IH' : In (Call cmd cwd env) (fst (doctest_modules p modules)) ->
                cwd = Some (repo_root p) /\ env = None
                /\ exists m', In m' (m :: modules) /\ has_doctest m' = true
                             /\ cmd = doctest_of p m').
  { intros Hin. destruct (IH Hin) as (-> & -> & m' & Hm & Hd & ->).
    repeat split. exists m'. repeat split; [now right|exact Hd]. }
  destruct (name m =? "__main__.py")%string eqn:N; [exact IH'|].
  rewrite bind_run_eq. unfold read_text. cbn [fst snd].
  destruct (text m) as [text|] eqn:T; cbn [fst app In];
    [|intros [Hin|[]]; discriminate Hin].
  intros [Hin|Hin]; [discriminate Hin|].
  destruct (contains ">>>" text) eqn:C; [|now apply IH'].
  calls_solve; [|now apply IH'].
  repeat split. exists m. repeat split; [now left|].
  unfold has_doctest. now rewrite N, T, C.
Qed.

Lemma doctest_calls p selects skips cmd cwd env :
  In (Call cmd cwd env) (fst (doctest p selects skips)) ->
  member DOCTEST selects = true /\ member DOCTEST skips = false
  /\ cwd = Some (repo_root p) /\ env = None /\ step_of cmd = Some DOCTEST.
Proof.
  unfold doctest.
  destruct (member DOCTEST selects); [|cbn [andb negb]; intros Hin; calls_solve; fail].
  destruct (member DOCTEST skips); [cbn [andb negb]; intros Hin; calls_solve; fail|].
  cbn [andb negb]. cbn zeta. intros Hin; calls_solve; auto.
  apply doctest_modules_calls in Hin. destruct Hin as (-> & -> & m & _ & _ & ->).
  auto.
Qed.

Lemma and_then_in (block : run (option Z)) (rest : run Z) a :
  In a (fst (and_then block rest)) -> In a (fst block) \/ In a (fst rest).
Proof.
  unfold and_then. rewrite bind_run_eq.
  destruct (snd block) as [[code|]|]; cbn [fst ret]; intros Hin; auto.
  - rewrite app_nil_r in Hin. auto.
  - apply in_app_or in Hin. exact Hin.
Qed.

(** Every command of [main] is a command of one of its blocks. *)
Lemma main_calls p overwrite select skip a :
  In a (fst (main p overwrite select skip)) ->
  In a (fst (reformat p overwrite (selects_of select) (skips_of skip)))
  \/ In a (fst (mypy p (selects_of select) (skips_of skip)))
  \/ In a (fst (pylint p (selects_of select) (skips_of skip)))
  \/ In a (fst (test p (selects_of select) (skips_of skip)))
  \/ In a (fst (doctest p (selects_of select) (skips_of skip)))
  \/ In a (fst (check_init p (selects_of select) (skips_of skip))).
Proof.
  unfold main. cbn zeta. fold (selects_of select). fold (skips_of skip).
  intros Hin.
  repeat (apply and_then_in in Hin; destruct Hin as [Hin|Hin]; [tauto|]).
  destruct Hin.
Qed.

Lemma main_ends_main p overwrite select skip :
  main_ends p (main p overwrite select skip).
Proof.
  unfold main. cbn zeta.
  apply and_then_ends; [apply reformat_ends|].
  apply and_then_ends; [apply mypy_ends|].
  apply and_then_ends; [apply pylint_ends|].
  apply and_then_ends; [apply test_ends|].
  apply and_then_ends; [apply doctest_ends|].
  apply and_then_ends; [apply check_init_ends|].
  apply main_ends_ret_0.
Qed.

Lemma and_then_zero p (block : run (option Z)) (rest : run Z) :
  block_ends p block ->
  snd (and_then block rest) = Some 0%Z ->
  snd block = Some None /\ snd rest = Some 0%Z
  /\ fst (and_then block rest) = fst block ++ fst rest.
Proof.
  unfold and_then, block_ends. rewrite bind_run_eq.
  destruct (snd block) as [[code|]|]; cbn [fst snd ret].
  - intros [-> _] H. discriminate H.
  - auto.
  - intros _ H. discriminate H.
Qed.

(** When [main] returns 0, every block has let it go on, and what [main] did
    is what the blocks did, one after the other. *)
Lemma main_zero p overwrite select skip :
  snd (main p overwrite select skip) = Some 0%Z ->
  let selects := selects_of select in
  let skips := skips_of skip in
  fst (main p overwrite select skip)
  = fst (reformat p overwrite selects skips) ++ fst (mypy p selects skips)
      ++ fst (pylint p selects skips) ++ fst (test p selects skips)
      ++ fst (doctest p selects skips) ++ fst (check_init p selects skips)
  /\ snd (doctest p selects skips) = Some None.
Proof.
  unfold main. cbn zeta. fold (selects_of select). fold (skips_of skip).
  intros H.
  apply (and_then_zero p) in H; [|apply reformat_ends]. destruct H as (_ & H & ->).
  apply (and_then_zero p) in H; [|apply mypy_ends]. destruct H as (_ & H & ->).
  apply (and_then_zero p) in H; [|apply pylint_ends]. destruct H as (_ & H & ->).
  apply (and_then_zero p) in H; [|apply test_ends]. destruct H as (_ & H & ->).
  apply (and_then_zero p) in H; [|apply doctest_ends]. destruct H as (D & H & ->).
  apply (and_then_zero p) in H; [|apply check_init_ends]. destruct H as (_ & H & ->).
  cbn [ret fst]. rewrite app_nil_r. now split.
Qed.

Lemma call_and_report_in {B} p verb cmd cwd env (k : Z -> run B) :
  In (Call cmd cwd env) (fst (bind (call_and_report p verb cmd cwd env) k)).
Proof.
  rewrite bind_run_eq.
  destruct (call_and_report_eq p verb cmd cwd env) as (text & ->).
  destruct (call p cmd cwd env) as [code|]; cbn [fst snd];
    [apply in_or_app; left; destruct (code =? 0)%Z|]; cbn [app In]; auto.
Qed.

Lemma say_in {B} text (b : run B) a :
  In a (fst b) -> In a (fst (bind (say text) (fun _ => b))).
Proof. rewrite bind_run_eq. cbn [say fst snd app In]. auto. Qed.

(** A block that is selected and not skipped runs a command of its step. *)
Lemma first_call_of_step p overwrite selects skips step :
  member step selects = true -> member step skips = false ->
  exists cmd cwd env,
    step_of cmd = Some step
    /\ In (Call cmd cwd env)
         (fst (reformat p overwrite selects skips) ++ fst (mypy p selects skips)
            ++ fst (pylint p selects skips) ++ fst (test p selects skips)
            ++ fst (doctest p selects skips) ++ fst (check_init p selects skips)).
Proof.
  intros Hs Hk.
  destruct step.
  - destruct overwrite; eexists _, _, _;
      (split; [|apply in_or_app; left;
                unfold reformat; rewrite Hs, Hk; cbn [andb negb];
                apply say_in, call_and_report_in]); reflexivity.
  - eexists _, _, _.
    split; [|do 1 (apply in_or_app; right); apply in_or_app; left;
             unfold mypy; rewrite Hs, Hk; cbn [andb negb];
             apply say_in, call_and_report_in]; reflexivity.
  - eexists _, _, _.
    split; [|do 2 (apply in_or_app; right); apply in_or_app; left;
             unfold pylint; rewrite Hs, Hk; cbn [andb negb];
             apply say_in, call_and_report_in]; reflexivity.
  - eexists _, _, _.
    split; [|do 3 (apply in_or_app; right); apply in_or_app; left;
             unfold test; rewrite Hs, Hk; cbn [andb negb];
             apply say_in, call_and_report_in]; reflexivity.
  - eexists _, _, _.
    split; [|do 4 (apply in_or_app; right); apply in_or_app; left;
             unfold doctest; rewrite Hs, Hk; cbn [andb negb];
             apply say_in, call_and_report_in]; reflexivity.
  - eexists _, _, _.
    split; [|do 5 (apply in_or_app; right);
             unfold check_init; rewrite Hs, Hk; cbn [andb negb];
             apply say_in, call_and_report_in]; reflexivity.
Qed.

End PrecommitFacts.

(** ** What the pre-commit script guarantees *)

Section PrecommitGuarantees.

Import Precommit.

Lemma calls_of_app tr1 tr2 : calls_of (tr1 ++ tr2) = calls_of tr1 ++ calls_of tr2.
Proof. apply flat_map_app. Qed.

Lemma filter_calls_none step tr :
  (forall cmd cwd env, In (Call cmd cwd env) tr -> is_step step cmd = false) ->
  filter (is_step step) (calls_of tr) = [].
Proof.
  induction tr as [|a tr IH]; intros H; [reflexivity|].
  assert (IH' : filter (is_step step) (calls_of tr) = [])
    by (apply IH; intros cmd cwd env Hin; apply (H cmd cwd env); now right).
  destruct a as [text|text|cmd cwd env|path]; cbn [calls_of flat_map app];
    try exact IH'.
  cbn [filter]. rewrite (H cmd cwd env) by now left. exact IH'.
Qed.

Lemma is_step_of step step' cmd :
  step_of cmd = Some step' -> step' <> step -> is_step step cmd = false.
Proof.
  unfold is_step. intros -> N. destruct step', step; try reflexivity; now elim N.
Qed.

Lemma and_then_eq (block : run (option Z)) (rest : run Z) :
  and_then block rest
  = match snd block with
    | Some (Some code) => (fst block, Some code)
    | Some None => (fst block ++ fst rest, snd rest)
    | None => (fst block, None)
    end.
Proof.
  unfold and_then. rewrite bind_run_eq.
  destruct (snd block) as [[code|]|]; cbn [ret fst snd]; [|reflexivity..].
  now rewrite app_nil_r.
Qed.

Lemma checked_call_calls_of p verb cmd cwd env :
  calls_of (fst (bind (call_and_report p verb cmd cwd env) return_1_if_failed))
  = [cmd].
Proof.
  rewrite bind_run_eq.
  destruct (call_and_report_eq p verb cmd cwd env) as (said & ->).
  destruct (call p cmd cwd env) as [code|]; cbn [fst snd]; [|reflexivity].
  unfold return_1_if_failed. destruct (code =? 0)%Z; reflexivity.
Qed.

(** What the loop over the modules runs when it lets [main] go on. *)
Lemma doctest_modules_passed p : forall modules,
  snd (doctest_modules p modules) = Some None ->
  calls_of (fst (doctest_modules p modules))
  = map (doctest_of p) (filter has_doctest modules).
Proof.
  induction modules as [|m modules IH]; cbn [doctest_modules]; [reflexivity|].
  unfold has_doctest at 1. cbn [filter].
  destruct (name m =? "__main__.py")%string; cbn [negb andb]; [exact IH|].
  rewrite bind_run_eq. unfold read_text. cbn [fst snd].
  destruct (text m) as [text|]; [|discriminate].
  destruct (contains ">>>" text); cbn [fst snd].
  - rewrite bind_run_eq.
    destruct (call_and_report_eq p "doctest"
                [executable p; "-m"; "doctest"; pth m]%string
                (Some (repo_root p)) None) as (said & ->).
    destruct (call p _ _ _) as [code|]; cbn [fst snd]; [|discriminate].
    destruct (Z.eqb_spec code 0) as [->|N]; cbn [negb fst snd ret];
      [|discriminate].
    intros H. cbn [app calls_of flat_map map]. f_equal. now apply IH.
  - intros H. cbn [app calls_of flat_map]. now apply IH.
Qed.

(** X22: the pre-commit script stops at the first failure.  It returns 0
    only when every command that it ran exited with 0; it returns 1 right
    after the first command that exits with another status, which it reports
    on the standard error, and it returns no other code; it raises only where
    a command cannot be started or a module cannot be read.  In both cases
    nothing is run after the failure, and every command before it exited
    with 0. *)
Theorem precommit_stops_at_first_failure p overwrite select skip :
  match snd (main p overwrite select skip) with
  | Some code =>
      (code = 0%Z /\ all_passed p (fst (main p overwrite select skip)))
      \/ (code = 1%Z /\ failed_last p (fst (main p overwrite select skip)))
  | None => raised_last p (fst (main p overwrite select skip))
  end.
Proof.
  change (main_ends p (main p overwrite select skip)).
  unfold main. cbn zeta.
  apply and_then_ends; [apply reformat_ends|].
  apply and_then_ends; [apply mypy_ends|].
  apply and_then_ends; [apply pylint_ends|].
  apply and_then_ends; [apply test_ends|].
  apply and_then_ends; [apply doctest_ends|].
  apply and_then_ends; [apply check_init_ends|].
  left. split; [reflexivity|]. intros cmd cwd env [].
Qed.

(** X23: the pre-commit script runs the commands of a step only when the
    step is selected (all steps are when [--select] is not given) and not
    skipped; a step that is both selected and skipped is not run.  Every
    command is run from the root of the repository, and only the unit tests
    are given an environment of their own, with [ICONTRACT_SLOW] set. *)
Theorem precommit_runs_selected_steps_only p overwrite select skip cmd cwd env :
  In (Call cmd cwd env) (fst (main p overwrite select skip)) ->
  cwd = Some (repo_root p)
  /\ (exists step,
        step_of cmd = Some step
        /\ member step (selects_of select) = true
        /\ member step (skips_of skip) = false)
  /\ (env = None
      \/ env = Some (env_set "ICONTRACT_SLOW" "true" (environ p))
         /\ step_of cmd = Some TEST).
Proof.
  intros Hin. apply main_calls in Hin.
  destruct Hin as [Hin|[Hin|[Hin|[Hin|[Hin|Hin]]]]].
  - apply reformat_calls in Hin. destruct Hin as (Hs & Hk & -> & -> & ->).
    split; [reflexivity|]. split; [|now left].
    exists REFORMAT. split; [now destruct overwrite|now split].
  - apply mypy_calls in Hin. destruct Hin as (Hs & Hk & -> & -> & E).
    split; [reflexivity|]. split; [|now left]. now exists MYPY.
  - apply pylint_calls in Hin. destruct Hin as (Hs & Hk & -> & -> & E).
    split; [reflexivity|]. split; [|now left]. now exists PYLINT.
  - apply test_calls_of_step in Hin. destruct Hin as (Hs & Hk & -> & E & He).
    split; [reflexivity|]. split; [now exists TEST|].
    destruct He as [->|[-> _]]; [now left|now right].
  - apply doctest_calls in Hin. destruct Hin as (Hs & Hk & -> & -> & E).
    split; [reflexivity|]. split; [|now left]. now exists DOCTEST.
  - apply check_init_calls in Hin. destruct Hin as (Hs & Hk & -> & -> & E).
    split; [reflexivity|]. split; [|now left].
    now exists CHECK_INIT_AND_PYPROJECT_TOML_CONSISTENT.
Qed.

Lemma precommit_runs_selected_steps_only_witness :
  Some "/repo"%string = Some (repo_root example_platform)
  /\ (exists step,
        step_of ["python3"; "-m"; "coverage"; "report"]%string = Some step
        /\ member step (selects_of (Some [TEST; MYPY])) = true
        /\ member step (skips_of (Some [MYPY])) = false)
  /\ (@None (list (string * string)) = None
      \/ None = Some (env_set "ICONTRACT_SLOW" "true" (environ example_platform))
         /\ step_of ["python3"; "-m"; "coverage"; "report"]%string = Some TEST).
Proof.
  apply (precommit_runs_selected_steps_only example_platform false
           (Some [TEST; MYPY]) (Some [MYPY])
           ["python3"; "-m"; "coverage"; "report"]%string (Some "/repo"%string) None).
  cbn. repeat first [left; reflexivity | right].
Defined.

(** X24: when the pre-commit script returns 0, every step that is selected
    and not skipped has run a command, and that command exited with 0: the
    exit code 0 tells that each of these steps was carried out and passed. *)
Theorem precommit_success_covers_selected_steps p overwrite select skip step :
  snd (main p overwrite select skip) = Some 0%Z ->
  member step (selects_of select) = true ->
  member step (skips_of skip) = false ->
  exists cmd cwd env,
    In (Call cmd cwd env) (fst (main p overwrite select skip))
    /\ step_of cmd = Some step
    /\ call p cmd cwd env = ExitCode 0.
Proof.
  intros H0 Hs Hk.
  pose proof (main_ends_main p overwrite select skip) as He.
  unfold main_ends in He. rewrite H0 in He.
  destruct He as [[_ Hall]|[D _]]; [|discriminate D].
  destruct (main_zero p overwrite select skip H0) as [Htr _].
  destruct (first_call_of_step p overwrite _ _ step Hs Hk)
    as (cmd & cwd & env & Hstep & Hin).
  rewrite <- Htr in Hin.
  exists cmd, cwd, env. repeat split; [exact Hin|exact Hstep|].
  now apply Hall.
Qed.

Lemma precommit_success_covers_selected_steps_witness :
  exists cmd cwd env,
    In (Call cmd cwd env) (fst (main example_platform true (Some [REFORMAT]) None))
    /\ step_of cmd = Some REFORMAT
    /\ call example_platform cmd cwd env = ExitCode 0.
Proof.
  apply (precommit_success_covers_selected_steps example_platform true
           (Some [REFORMAT]) None REFORMAT); reflexivity.
Defined.

(** X25: the pre-commit script lets [black] rewrite files only when
    [--overwrite] is given: the command of the reformatting step is [black]
    on the four source directories with [--check] exactly when [--overwrite]
    is not given.  With [--select reformat --overwrite], as
    [_reformat_code] calls the script, it is the only command. *)
Theorem black_checks_unless_overwrite p overwrite select skip cmd cwd env :
  In (Call cmd cwd env) (fst (main p overwrite select skip)) ->
  step_of cmd = Some REFORMAT ->
  cmd = [executable p; "-m"%string; "black"%string]
          ++ (if overwrite then [] else ["--check"%string])
          ++ ["aas_core3_1"; "dev/continuous_integration"; "dev/tests";
              "dev/dev_scripts"; "--exclude";
              "dev/dev_scripts/codegen/(snippets|meta_model.py)"]%string
  /\ (select = Some [REFORMAT] ->
      calls_of (fst (main p overwrite select skip)) = [cmd]).
Proof.
  intros Hin Hstep. pose proof Hin as Hin'. apply main_calls in Hin.
  destruct Hin as [Hin|[Hin|[Hin|[Hin|[Hin|Hin]]]]].
  2: apply mypy_calls in Hin; destruct Hin as (_ & _ & _ & _ & E); congruence.
  2: apply pylint_calls in Hin; destruct Hin as (_ & _ & _ & _ & E); congruence.
  2: apply test_calls_of_step in Hin; destruct Hin as (_ & _ & _ & E & _);
     congruence.
  2: apply doctest_calls in Hin; destruct Hin as (_ & _ & _ & _ & E); congruence.
  2: apply check_init_calls in Hin; destruct Hin as (_ & _ & _ & _ & E);
     congruence.
  apply reformat_calls in Hin. destruct Hin as (Hs & Hk & -> & -> & ->).
  split; [reflexivity|].
  intros ->. clear Hs Hstep Hin'. unfold main. cbn zeta.
  fold (skips_of skip). rewrite and_then_eq.
  assert (Href : calls_of (fst (reformat p overwrite [REFORMAT] (skips_of skip)))
                 = [[executable p; "-m"%string; "black"%string]
                      ++ (if overwrite then [] else ["--check"%string])
                      ++ reformat_targets ++ ["--exclude"%string; reformat_exclude]]).
  { unfold reformat. cbn [member existsb Step_eqb orb]. rewrite Hk.
    cbn [andb negb]. rewrite bind_run_eq. cbn [say fst snd].
    destruct overwrite; cbn [app calls_of flat_map];
      apply checked_call_calls_of. }
  destruct (snd (reformat p overwrite [REFORMAT] (skips_of skip))) as [[code|]|];
    cbn [fst]; rewrite ?calls_of_app, ?app_nil_r; exact Href.
Qed.

Lemma black_checks_unless_overwrite_witness :
  ["python3"; "-m"; "black"; "aas_core3_1"; "dev/continuous_integration";
   "dev/tests"; "dev/dev_scripts"; "--exclude";
   "dev/dev_scripts/codegen/(snippets|meta_model.py)"]%string
  = [executable example_platform; "-m"%string; "black"%string]
      ++ (if true then [] else ["--check"%string])
      ++ ["aas_core3_1"; "dev/continuous_integration"; "dev/tests";
          "dev/dev_scripts"; "--exclude";
          "dev/dev_scripts/codegen/(snippets|meta_model.py)"]%string
  /\ (Some [REFORMAT] = Some [REFORMAT] ->
      calls_of (fst (main example_platform true (Some [REFORMAT]) None))
      = [["python3"; "-m"; "black"; "aas_core3_1"; "dev/continuous_integration";
          "dev/tests"; "dev/dev_scripts"; "--exclude";
          "dev/dev_scripts/codegen/(snippets|meta_model.py)"]%string]).
Proof.
  apply (black_checks_unless_overwrite example_platform true (Some [REFORMAT]) None
           _ (Some "/repo"%string) None).
  - cbn. repeat first [left; reflexivity | right].
  - reflexivity.
Defined.

(** X26: when the pre-commit script returns 0 and the examples were to be
    tested, [doctest] was run once on [README.rst] and the documentation,
    sorted, and then once on each module, in the order of [glob], that is
    not a [__main__.py] and holds [>>>], and on no other module. *)
Theorem doctest_runs_on_modules_with_examples p overwrite select skip :
  snd (main p overwrite select skip) = Some 0%Z ->
  member DOCTEST (selects_of select) = true ->
  member DOCTEST (skips_of skip) = false ->
  filter (is_step DOCTEST) (calls_of (fst (main p overwrite select skip)))
  = ([executable p; "-m"; "doctest"]%string
       ++ sorted ("README.rst"%string :: rst_files p))
      :: map (doctest_of p) (filter has_doctest (py_files p)).
Proof.
  intros H0 Hs Hk.
  destruct (main_zero p overwrite select skip H0) as [-> Hd].
  cbn zeta in Hd.
  rewrite !calls_of_app, !filter_app.
  rewrite (filter_calls_none DOCTEST (fst (reformat _ _ _ _))).
  2: { intros cmd cwd env Hin. apply reformat_calls in Hin.
       destruct Hin as (_ & _ & _ & _ & ->). now destruct overwrite. }
  rewrite (filter_calls_none DOCTEST (fst (mypy _ _ _))).
  2: { intros cmd cwd env Hin. apply mypy_calls in Hin.
       destruct Hin as (_ & _ & _ & _ & E).
       now apply (is_step_of _ _ _ E). }
  rewrite (filter_calls_none DOCTEST (fst (pylint _ _ _))).
  2: { intros cmd cwd env Hin. apply pylint_calls in Hin.
       destruct Hin as (_ & _ & _ & _ & E).
       now apply (is_step_of _ _ _ E). }
  rewrite (filter_calls_none DOCTEST (fst (test _ _ _))).
  2: { intros cmd cwd env Hin. apply test_calls_of_step in Hin.
       destruct Hin as (_ & _ & _ & E & _).
       now apply (is_step_of _ _ _ E). }
  rewrite (filter_calls_none DOCTEST (fst (check_init _ _ _))).
  2: { intros cmd cwd env Hin. apply check_init_calls in Hin.
       destruct Hin as (_ & _ & _ & _ & E).
       now apply (is_step_of _ _ _ E). }
  cbn [app]. rewrite app_nil_r.
  revert Hd. unfold doctest. rewrite Hs, Hk. cbn [andb negb]. cbn zeta.
  rewrite !bind_run_eq. cbn [say fst snd].
  destruct (call_and_report_eq p "doctest"
              ([executable p; "-m"; "doctest"]%string
                 ++ sorted (["README.rst"%string] ++ rst_files p))
              (Some (repo_root p)) None) as (said & ->).
  destruct (call p _ _ _) as [code|]; cbn [fst snd]; [|discriminate].
  destruct (Z.eqb_spec code 0) as [->|N]; cbn [negb fst snd ret];
    [|discriminate].
  intros Hd.
  change ([Say "Doctest'ing..."] ++
          ([Say said;
            Call ([executable p; "-m"%string; "doctest"%string]
                    ++ sorted (["README.rst"%string] ++ rst_files p))
              (Some (repo_root p)) None] ++ [])
          ++ fst (doctest_modules p (py_files p)))
    with ([Say "Doctest'ing..."; Say said;
           Call ([executable p; "-m"%string; "doctest"%string]
                   ++ sorted (["README.rst"%string] ++ rst_files p))
             (Some (repo_root p)) None]
            ++ fst (doctest_modules p (py_files p))).
  rewrite calls_of_app, (doctest_modules_passed p _ Hd).
  change (calls_of [Say "Doctest'ing..."; Say said;
                    Call ([executable p; "-m"%string; "doctest"%string]
                            ++ sorted (["README.rst"%string] ++ rst_files p))
                      (Some (repo_root p)) None])
    with [[executable p; "-m"%string; "doctest"%string]
            ++ sorted ("README.rst"%string :: rst_files p)].
  rewrite filter_app.
  change (filter (is_step DOCTEST)
            [[executable p; "-m"%string; "doctest"%string]
               ++ sorted ("README.rst"%string :: rst_files p)])
    with [[executable p; "-m"%string; "doctest"%string]
            ++ sorted ("README.rst"%string :: rst_files p)].
  cbn [app]. f_equal.
  induction (filter has_doctest (py_files p)) as [|m l IH]; [reflexivity|].
  cbn [map filter].
  change (is_step DOCTEST (doctest_of p m)) with true. cbn iota.
  now rewrite IH.
Qed.

Lemma doctest_runs_on_modules_with_examples_witness :
  filter (is_step DOCTEST)
    (calls_of (fst (main example_platform false None (Some [MYPY]))))
  = ([executable example_platform; "-m"; "doctest"]%string
       ++ sorted ("README.rst"%string :: rst_files example_platform))
      :: map (doctest_of example_platform)
           (filter has_doctest (py_files example_platform)).
Proof.
  apply (doctest_runs_on_modules_with_examples example_platform false None
           (Some [MYPY])); reflexivity.
Defined.

End PrecommitGuarantees.

(** * The package and its distribution *)

Section CheckInitFacts.

Import CheckInit.

Lemma equals_true text v : equals text v = true <-> v = TStr text.
Proof.
  destruct v as [text'| | |]; simpl; try (split; [discriminate|discriminate]).
  split.
  - intros H. apply String.eqb_eq in H. now subst.
  - intros H. injection H as ->. apply String.eqb_refl.
Qed.

Lemma existsb_equals text names :
  existsb (equals text) names = true <-> In (TStr text) names.
Proof.
  rewrite existsb_exists. split.
  - intros (v & Hin & E). apply equals_true in E. now subst.
  - intros Hin. exists (TStr text). split; [exact Hin|now apply equals_true].
Qed.

Lemma check_author_eq p entries success :
  check_author p (TTable entries) success
  = match author_names_of entries with
    | None => ([], None)
    | Some author_names =>
        if existsb (equals __author__) author_names then ([], Some success)
        else
          match lookup "authors" entries with
          | None => ([], None)
          | Some authors =>
              ([Err ("The author aas_core_codegen/__init__.py is not part of authors in pyproject.toml. "
                       ++ "authors in pyproject.toml is " ++ str p authors ++ ", "
                       ++ "while the author in aas_core_codegen/__init__.py is: "
                       ++ __author__)%string],
               Some false)
          end
    end.
Proof.
  unfold check_author, author_names_of, of_option. cbn [item].
  destruct (lookup "project" entries) as [project|]; [|reflexivity].
  cbn [bind app].
  destruct (item project "authors") as [authors|]; [|reflexivity].
  cbn [bind app].
  destruct (iterate authors) as [items|]; [|reflexivity].
  cbn [bind app].
  destruct (comprehension _ items) as [author_names|]; [|reflexivity].
  cbn [bind app].
  destruct (existsb (equals __author__) author_names); [reflexivity|].
  cbn [negb]. destruct (lookup "authors" entries); reflexivity.
Qed.

Lemma check_license_eq p entries success :
  check_license p (TTable entries) success
  = match project_field entries "license" with
    | None => ([], None)
    | Some license =>
        if equals __license__ license then ([], Some success)
        else
          ([Err ("The license in the pyproject.toml is " ++ str p license ++ ", "
                   ++ "while the license in aas_core_codegen/__init__.py is: "
                   ++ __license__)%string],
           Some false)
    end.
Proof.
  unfold check_license, project_field, of_option. cbn [item].
  destruct (lookup "project" entries) as [project|]; [|reflexivity].
  cbn [bind app].
  destruct (item project "license") as [license|]; [|reflexivity].
  cbn [bind app]. destruct (equals __license__ license); reflexivity.
Qed.

Lemma check_description_eq p entries success :
  check_description p (TTable entries) success
  = match project_field entries "description" with
    | None => ([], None)
    | Some description =>
        if equals __doc__ description then ([], Some success)
        else
          ([Err ("The description in the pyproject.toml is "
                   ++ str p description ++ ", "
                   ++ "while the description in aas_core_codegen/__init__.py is: "
                   ++ __doc__)%string],
           Some false)
    end.
Proof.
  unfold check_description, project_field, of_option. cbn [item].
  destruct (lookup "project" entries) as [project|]; [|reflexivity].
  cbn [bind app].
  destruct (item project "description") as [description|]; [|reflexivity].
  cbn [bind app]. destruct (equals __doc__ description); reflexivity.
Qed.

Lemma check_status_eq entries success :
  check_status (TTable entries) success
  = match project_field entries "classifiers" with
    | None => ([], None)
    | Some classifiers =>
        match iterate classifiers with
        | None => ([], None)
        | Some items =>
            match find_status items with
            | None => ([], None)
            | Some None =>
                ([Err ("Expected a status classifier in pyproject.toml "
                         ++ "(e.g., 'Development Status :: 3 - Alpha'), but found none.")%string],
                 Some false)
            | Some (Some expected) =>
                if (expected =? __status__)%string then ([], Some success)
                else
                  ([Out ("Expected status " ++ expected ++ " "
                           ++ "according to pyproject.toml in aas_core3_1/__init__.py, "
                           ++ "but found: " ++ __status__)%string],
                   Some false)
            end
        end
    end.
Proof.
  unfold check_status, project_field, of_option. cbn [item].
  destruct (lookup "project" entries) as [project|]; [|reflexivity].
  cbn [bind app].
  destruct (item project "classifiers") as [classifiers|]; [|reflexivity].
  cbn [bind app].
  destruct (iterate classifiers) as [items|]; [|reflexivity].
  cbn [bind app].
  destruct (find_status items) as [[expected|]|]; [|reflexivity..].
  cbn [bind app]. destruct (expected =? __status__)%string; reflexivity.
Qed.

Lemma check_author_compared p entries success :
  compared (check_author p (TTable entries) success) success.
Proof.
  rewrite check_author_eq. unfold compared.
  destruct (author_names_of entries) as [names|]; [|auto].
  destruct (existsb _ names); [auto|].
  destruct (lookup "authors" entries); [right; left; eexists; reflexivity|auto].
Qed.

Lemma check_license_compared p entries success :
  compared (check_license p (TTable entries) success) success.
Proof.
  rewrite check_license_eq. unfold compared.
  destruct (project_field entries "license") as [v|]; [|auto].
  destruct (equals _ v); [auto|right; left; eexists; reflexivity].
Qed.

Lemma check_description_compared p entries success :
  compared (check_description p (TTable entries) success) success.
Proof.
  rewrite check_description_eq. unfold compared.
  destruct (project_field entries "description") as [v|]; [|auto].
  destruct (equals _ v); [auto|right; left; eexists; reflexivity].
Qed.

Lemma check_status_compared entries success :
  compared (check_status (TTable entries) success) success.
Proof.
  rewrite check_status_eq. unfold compared.
  destruct (project_field entries "classifiers") as [v|]; [|auto].
  destruct (iterate v) as [items|]; [|auto].
  destruct (find_status items) as [[expected|]|]; [|right; left; eexists; reflexivity|auto].
  destruct (expected =? __status__)%string; [auto|right; left; eexists; reflexivity].
Qed.

(** X27: the script that compares the package with its distribution returns
    0 exactly when it has printed nothing, and -1 after at least one and at
    most four messages, one for each comparison that failed; it returns no
    other code. *)
Theorem check_init_exit_code p code :
  snd (main p) = Some code ->
  (code = 0%Z /\ fst (main p) = [])
  \/ (code = (-1)%Z /\ 1 <= length (fst (main p)) <= 4).
Proof.
  unfold main. destruct (pyproject p) as [| | |entries]; try discriminate.
  cbn zeta.
  destruct (check_author_compared p entries true) as [->|[(m1 & ->)| ->]];
    cbn [bind app fst snd]; [| |discriminate].
  - destruct (check_license_compared p entries true) as [->|[(m2 & ->)| ->]];
      cbn [bind app fst snd]; [| |discriminate].
    + destruct (check_description_compared p entries true)
        as [->|[(m3 & ->)| ->]]; cbn [bind app fst snd]; [| |discriminate].
      * destruct (check_status_compared entries true) as [->|[(m4 & ->)| ->]];
          cbn [bind app fst snd negb ret]; [| |discriminate];
          intros H; injection H as <-;
          [left; split; reflexivity
          |right; split; [reflexivity|cbn [length]; lia]].
      * destruct (check_status_compared entries false) as [->|[(m4 & ->)| ->]];
          cbn [bind app fst snd negb ret]; [| |discriminate];
          intros H; injection H as <-; right;
          (split; [reflexivity|cbn [length]; lia]).
    + destruct (check_description_compared p entries false)
        as [->|[(m3 & ->)| ->]]; cbn [bind app fst snd]; [| |discriminate];
        (destruct (check_status_compared entries false) as [->|[(m4 & ->)| ->]];
         cbn [bind app fst snd negb ret]; [| |discriminate];
         intros H; injection H as <-; right;
          (split; [reflexivity|cbn [length]; lia])).
  - destruct (check_license_compared p entries false) as [->|[(m2 & ->)| ->]];
      cbn [bind app fst snd]; [| |discriminate];
      (destruct (check_description_compared p entries false)
         as [->|[(m3 & ->)| ->]]; cbn [bind app fst snd]; [| |discriminate];
       (destruct (check_status_compared entries false) as [->|[(m4 & ->)| ->]];
        cbn [bind app fst snd negb ret]; [| |discriminate];
        intros H; injection H as <-; right;
          (split; [reflexivity|cbn [length]; lia]))).
Qed.

Lemma check_init_exit_code_witness :
  (0%Z = 0%Z /\ fst (main (example_platform __author__)) = [])
  \/ (0%Z = (-1)%Z /\ 1 <= length (fst (main (example_platform __author__))) <= 4).
Proof.
  apply (check_init_exit_code (example_platform __author__) 0%Z). reflexivity.
Defined.

(** X28: a missing author is never reported.  When the author of the
    package is not among the names of the authors of the distribution, the
    message about it is built from the key [authors] at the top of
    [pyproject.toml]; a file that keeps its authors in the table [project]
    only has no such key, and the script raises a [KeyError]: it prints
    nothing and returns no code. *)
Theorem missing_author_is_never_reported p entries author_names :
  pyproject p = Parsed entries ->
  author_names_of entries = Some author_names ->
  ~ In (TStr __author__) author_names ->
  lookup "authors" entries = None ->
  main p = ([], None).
Proof.
  intros Hp Hnames Hnot Htop. unfold main. rewrite Hp. cbn zeta.
  rewrite check_author_eq, Hnames, Htop.
  destruct (existsb (equals __author__) author_names) eqn:E; [|reflexivity].
  apply existsb_equals in E. contradiction.
Qed.

Lemma missing_author_is_never_reported_witness :
  main (example_platform "Marko Ristin") = ([], None).
Proof.
  apply (missing_author_is_never_reported (example_platform "Marko Ristin")
           [("project"%string, example_project "Marko Ristin")]
           [TStr "Marko Ristin"]).
  - reflexivity.
  - reflexivity.
  - intros [H|[]]. unfold __author__ in H. discriminate H.
  - reflexivity.
Defined.

Lemma bind_snd {A B} (m : run A) (k : A -> run B) :
  snd (bind m k) = match snd m with Some a => snd (k a) | None => None end.
Proof. destruct m as [tr [a|]]; simpl; [now destruct (k a)|reflexivity]. Qed.

Lemma compared_snd check success :
  compared check success ->
  snd check = Some success \/ snd check = Some false \/ snd check = None.
Proof. intros [->|[(m & ->)| ->]]; auto. Qed.

Lemma check_author_ok p entries :
  snd (check_author p (TTable entries) true) = Some true
  <-> exists author_names,
        author_names_of entries = Some author_names
        /\ In (TStr __author__) author_names.
Proof.
  rewrite check_author_eq.
  destruct (author_names_of entries) as [names|].
  - destruct (existsb (equals __author__) names) eqn:E.
    + split; [|reflexivity]. intros _. exists names.
      split; [reflexivity|now apply existsb_equals].
    + split.
      * destruct (lookup "authors" entries); discriminate.
      * intros (names' & H & Hin). injection H as <-.
        apply existsb_equals in Hin. congruence.
  - split; [discriminate|]. intros (names' & H & _). discriminate H.
Qed.

Lemma check_license_ok p entries :
  snd (check_license p (TTable entries) true) = Some true
  <-> project_field entries "license" = Some (TStr __license__).
Proof.
  rewrite check_license_eq.
  destruct (project_field entries "license") as [v|]; [|split; discriminate].
  destruct (equals __license__ v) eqn:E.
  - apply equals_true in E. subst v. split; reflexivity.
  - split; [discriminate|]. intros H. injection H as ->.
    assert (equals __license__ (TStr __license__) = true) by now apply equals_true.
    congruence.
Qed.

Lemma check_description_ok p entries :
  snd (check_description p (TTable entries) true) = Some true
  <-> project_field entries "description" = Some (TStr __doc__).
Proof.
  rewrite check_description_eq.
  destruct (project_field entries "description") as [v|]; [|split; discriminate].
  destruct (equals __doc__ v) eqn:E.
  - apply equals_true in E. subst v. split; reflexivity.
  - split; [discriminate|]. intros H. injection H as ->.
    assert (equals __doc__ (TStr __doc__) = true) by now apply equals_true.
    congruence.
Qed.

Lemma check_status_ok entries :
  snd (check_status (TTable entries) true) = Some true
  <-> exists classifiers items,
        project_field entries "classifiers" = Some classifiers
        /\ iterate classifiers = Some items
        /\ find_status items = Some (Some __status__).
Proof.
  rewrite check_status_eq.
  destruct (project_field entries "classifiers") as [v|].
  2: { split; [discriminate|]. intros (c & i & H & _). discriminate H. }
  destruct (iterate v) as [items|] eqn:I.
  2: { split; [discriminate|]. intros (c & i & H & H' & _). congruence. }
  destruct (find_status items) as [[expected|]|] eqn:F.
  - destruct (String.eqb_spec expected __status__) as [->|N].
    + split; [|reflexivity]. intros _. now exists v, items.
    + split; [discriminate|]. intros (c & i & H & H' & H''). congruence.
  - split; [discriminate|]. intros (c & i & H & H' & H''). congruence.
  - split; [discriminate|]. intros (c & i & H & H' & H''). congruence.
Qed.

(** Once a comparison has failed, the script does not return 0. *)
Lemma status_after_failure entries :
  snd (bind (check_status (TTable entries) false)
         (fun success => if negb success then ret (-1)%Z else ret 0%Z))
  <> Some 0%Z.
Proof.
  rewrite bind_snd.
  destruct (compared_snd _ _ (check_status_compared entries false))
    as [E|[E|E]]; rewrite E; discriminate.
Qed.

Lemma description_after_failure p entries :
  snd (bind (check_description p (TTable entries) false)
         (fun success =>
            bind (check_status (TTable entries) success)
              (fun success => if negb success then ret (-1)%Z else ret 0%Z)))
  <> Some 0%Z.
Proof.
  rewrite bind_snd.
  destruct (compared_snd _ _ (check_description_compared p entries false))
    as [E|[E|E]]; rewrite E; try discriminate; apply status_after_failure.
Qed.

Lemma license_after_failure p entries :
  snd (bind (check_license p (TTable entries) false)
         (fun success =>
            bind (check_description p (TTable entries) success)
              (fun success =>
                 bind (check_status (TTable entries) success)
                   (fun success =>
                      if negb success then ret (-1)%Z else ret 0%Z))))
  <> Some 0%Z.
Proof.
  rewrite bind_snd.
  destruct (compared_snd _ _ (check_license_compared p entries false))
    as [E|[E|E]]; rewrite E; try discriminate; apply description_after_failure.
Qed.

(** X29: the script returns 0 exactly when [pyproject.toml] is read and is
    consistent with the package in all four respects: the author, the
    license, the description and the development status.  A comparison that
    passes does not make up for one that failed before it. *)
Theorem check_init_succeeds_iff_consistent p :
  snd (main p) = Some 0%Z
  <-> exists entries, pyproject p = Parsed entries /\ consistent entries.
Proof.
  unfold main. destruct (pyproject p) as [| | |entries].
  1,2,3: split; [discriminate|intros (e & H & _); discriminate H].
  cbn zeta.
  pose proof (check_author_ok p entries) as A.
  pose proof (check_license_ok p entries) as L.
  pose proof (check_description_ok p entries) as D.
  pose proof (check_status_ok entries) as S.
  assert (Hiff : (exists e, Parsed entries = Parsed e /\ consistent e)
                 <-> consistent entries).
  { split; [intros (e & [= <-] & H); exact H|intros H; now exists entries]. }
  rewrite Hiff. clear Hiff. unfold consistent.
  rewrite <- A, <- L, <- D, <- S. clear A L D S.
  rewrite bind_snd.
  destruct (compared_snd _ _ (check_author_compared p entries true))
    as [E1|[E1|E1]]; rewrite E1.
  2: { split; [intros H; now apply license_after_failure in H|].
       intros (H & _). discriminate H. }
  2: { split; [discriminate|]. intros (H & _). discriminate H. }
  rewrite bind_snd.
  destruct (compared_snd _ _ (check_license_compared p entries true))
    as [E2|[E2|E2]]; rewrite E2.
  2: { split; [intros H; now apply description_after_failure in H|].
       intros (_ & H & _). discriminate H. }
  2: { split; [discriminate|]. intros (_ & H & _). discriminate H. }
  rewrite bind_snd.
  destruct (compared_snd _ _ (check_description_compared p entries true))
    as [E3|[E3|E3]]; rewrite E3.
  2: { split; [intros H; now apply status_after_failure in H|].
       intros (_ & _ & H & _). discriminate H. }
  2: { split; [discriminate|]. intros (_ & _ & H & _). discriminate H. }
  rewrite bind_snd.
  destruct (compared_snd _ _ (check_status_compared entries true))
    as [E4|[E4|E4]]; rewrite E4; cbn [negb ret snd].
  - split; [intros _; repeat split|reflexivity].
  - split; [discriminate|]. intros (_ & _ & _ & H). discriminate H.
  - split; [discriminate|]. intros (_ & _ & _ & H). discriminate H.
Qed.

End CheckInitFacts.
